(** * hello-computer: the message store, the conversation aggregator and the
    broadcast route, embedded from [storage.ts] (class [MemStorage]), the
    shared schema ([@shared/schema]) and the routes of [registerRoutes].

    Conventions of the embedding.
    - A JavaScript [Map] iterates in insertion order and [set] on a present
      key overwrites in place: it is an association list ([JsMap]).  A
      JavaScript [Set] is a duplicate-free list in insertion order.
    - [randomUUID()], [new Date()] and [bcrypt.hash] are not functions of the
      program state: their results are explicit arguments ([uuid], [now],
      [hash]) of the operation that calls them.
    - A string is the sequence of the bytes of the JavaScript string in
      UTF-8, the form in which the requests carry it.  Equality,
      concatenation and [includes] are those of JavaScript on well-formed
      strings.  [trim] removes every white space and line terminator of
      ECMAScript.  [toLowerCase] is given for the ASCII characters and the
      Greek letters, with the rule of the final sigma; each theorem about it
      names the alphabet it holds for.
    - [Array.prototype.sort] is stable; with the comparators of this code
      (a difference of two integer keys) its result is the unique stable
      ordering, which [sortBy] computes by insertion.
    - A handler runs to completion before the next one starts, but for the
      signup, which waits for [bcrypt.hash] between its lookup and its write:
      [Routes.step] serves it in one step, [Overlap.step] in two, with other
      requests in between. *)

From Stdlib Require Import List String Ascii ZArith NArith Bool Lia.
From Stdlib Require Import Sorting.Sorted Sorting.Permutation.
Import ListNotations.

Set Warnings "-register-all".

Open Scope string_scope.
Open Scope Z_scope.

(* ================================================================== *)
(** ** [Map] and plain objects: keyed, in insertion order *)

Module JsMap.

Definition t (V : Type) : Type := list (string * V).

Definition empty {V} : t V := [].

(** [m.get(k)] *)
Fixpoint get {V} (k : string) (m : t V) : option V :=
  match m with
  | [] => None
  | (k', v) :: r => if (k' =? k)%string then Some v else get k r
  end.

(** [m.set(k, v)] *)
Fixpoint set {V} (k : string) (v : V) (m : t V) : t V :=
  match m with
  | [] => [(k, v)]
  | (k', v') :: r =>
      if (k' =? k)%string then (k, v) :: r else (k', v') :: set k v r
  end.

(** [Array.from(m.values())] *)
Definition values {V} (m : t V) : list V := map snd m.

Definition keys {V} (m : t V) : list string := map fst m.

End JsMap.

(* ================================================================== *)
(** ** JavaScript values *)

Module Js.

(** Truthiness of a nullable string: [null], [undefined] and the empty
    string are falsy. *)
Definition truthy (o : option string) : bool :=
  match o with
  | Some s => negb (s =? "")%string
  | None => false
  end.

(** [x || null] on a nullable string. *)
Definition orNull (o : option string) : option string :=
  if truthy o then o else None.

(** [a === b] where [a] is a nullable string and [b] a string. *)
Definition optEq (a : option string) (b : string) : bool :=
  match a with
  | Some s => (s =? b)%string
  | None => false
  end.

(** The code of a byte, and the byte of a code. *)
Definition code (c : ascii) : N := N_of_ascii c.

Definition isUpper (c : ascii) : bool :=
  let n := N_of_ascii c in ((65 <=? n) && (n <=? 90))%N.

Definition lowerChar (c : ascii) : ascii :=
  if isUpper c then ascii_of_N (N_of_ascii c + 32) else c.

(** [toLowerCase] of a string of ASCII characters: letter by letter. *)
Fixpoint lowerAscii (s : string) : string :=
  match s with
  | EmptyString => EmptyString
  | String c r => String (lowerChar c) (lowerAscii r)
  end.

(** The ASCII characters that have a case, and those a word goes on
    through (Unicode's Cased and Case_Ignorable below U+0080: the letters,
    and the apostrophe, full stop, colon, circumflex and grave accent). *)
Definition cased1 (c : ascii) : bool :=
  let n := code c in (((65 <=? n) && (n <=? 90)) || ((97 <=? n) && (n <=? 122)))%N.

Definition ignorable1 (c : ascii) : bool :=
  let n := code c in
  ((n =? 0x27) || (n =? 0x2E) || (n =? 0x3A) || (n =? 0x5E) || (n =? 0x60))%N.

(** The Greek letters, by their two bytes: the capitals U+0391..U+03A9
    are CE 91 .. CE A9 (U+03A2 is no character), the small letters
    U+03B1..U+03C9 are CE B1 .. CE BF and CF 80 .. CF 89. *)
Definition greekUpper (c d : ascii) : bool :=
  ((code c =? 0xCE) && ((0x91 <=? code d) && (code d <=? 0xA9))
   && negb (code d =? 0xA2))%N.

Definition greekLower (c d : ascii) : bool :=
  (((code c =? 0xCE) && ((0xB1 <=? code d) && (code d <=? 0xBF)))
   || ((code c =? 0xCF) && ((0x80 <=? code d) && (code d <=? 0x89))))%N.

(** The capital sigma, U+03A3. *)
Definition isSigma (c d : ascii) : bool := ((code c =? 0xCE) && (code d =? 0xA3))%N.

(** The small letter of a Greek capital: the code point plus 32. *)
Definition lowerGreek (d : ascii) : string :=
  if (code d <=? 0x9F)%N
  then String (ascii_of_N 0xCE) (String (ascii_of_N (code d + 0x20)) EmptyString)
  else String (ascii_of_N 0xCF) (String (ascii_of_N (code d - 0x20)) EmptyString).

(** The small sigma U+03C3 and the final one U+03C2. *)
Definition smallSigma : string :=
  String (ascii_of_N 0xCF) (String (ascii_of_N 0x83) EmptyString).

Definition finalSigma : string :=
  String (ascii_of_N 0xCF) (String (ascii_of_N 0x82) EmptyString).

(** Does the word go on: characters a word goes on through, then a cased
    letter? *)
Fixpoint casedAhead (s : string) : bool :=
  match s with
  | EmptyString => false
  | String c r =>
      if cased1 c then true
      else if ignorable1 c then casedAhead r
      else match r with
           | String d _ => greekUpper c d || greekLower c d
           | EmptyString => false
           end
  end.

(** [toLowerCase] from the left; [before] says that a cased letter
    precedes, with nothing but characters a word goes on through in between.
    A capital sigma that ends a word becomes the final sigma. *)
Fixpoint lowerFrom (before : bool) (s : string) : string :=
  match s with
  | EmptyString => EmptyString
  | String c r =>
      match r with
      | String d r' =>
          if isSigma c d then
            (if before && negb (casedAhead r') then finalSigma else smallSigma)
            ++ lowerFrom true r'
          else if greekUpper c d then lowerGreek d ++ lowerFrom true r'
          else if greekLower c d then String c (String d (lowerFrom true r'))
          else String (lowerChar c)
                      (lowerFrom (cased1 c || (ignorable1 c && before)) r)
      | EmptyString => String (lowerChar c) EmptyString
      end
  end.

(** [String.prototype.toLowerCase], on the strings of ASCII characters and
    Greek letters. *)
Definition toLowerCase (s : string) : string := lowerFrom false s.

(** [String.prototype.includes]: [q] occurs in [s] as a contiguous run. *)
Fixpoint includes (s q : string) : bool :=
  String.prefix q s ||
  match s with
  | EmptyString => false
  | String _ r => includes r q
  end.

(** White space of one byte: TAB, LF, VT, FF, CR and SPACE. *)
Definition isSpace (c : ascii) : bool :=
  let n := N_of_ascii c in (((9 <=? n) && (n <=? 13)) || (n =? 32))%N.

(** White space of two bytes: U+00A0 is C2 A0. *)
Definition isSpace2 (c d : ascii) : bool := ((code c =? 0xC2) && (code d =? 0xA0))%N.

(** White space of three bytes: U+1680 is E1 9A 80; U+2000..U+200A,
    U+2028, U+2029 and U+202F are E2 80 80 .. E2 80 8A, E2 80 A8, E2 80 A9
    and E2 80 AF; U+205F is E2 81 9F; U+3000 is E3 80 80; U+FEFF is
    EF BB BF. *)
Definition isSpace3 (c d e : ascii) : bool :=
  (((code c =? 0xE1) && (code d =? 0x9A) && (code e =? 0x80))
   || ((code c =? 0xE2) && (code d =? 0x80)
       && (((0x80 <=? code e) && (code e <=? 0x8A))
           || (code e =? 0xA8) || (code e =? 0xA9) || (code e =? 0xAF)))
   || ((code c =? 0xE2) && (code d =? 0x81) && (code e =? 0x9F))
   || ((code c =? 0xE3) && (code d =? 0x80) && (code e =? 0x80))
   || ((code c =? 0xEF) && (code d =? 0xBB) && (code e =? 0xBF)))%N.

(** The string after its first character, when that is white space. *)
Definition afterSpace (s : string) : option string :=
  match s with
  | EmptyString => None
  | String c r =>
      if isSpace c then Some r
      else match r with
           | EmptyString => None
           | String d r2 =>
               if isSpace2 c d then Some r2
               else match r2 with
                    | EmptyString => None
                    | String e r3 => if isSpace3 c d e then Some r3 else None
                    end
           end
  end.

(** [String.prototype.trimStart]: white space and line terminators are
    removed, whatever their length in bytes. *)
Fixpoint trimStart (s : string) : string :=
  match s with
  | EmptyString => EmptyString
  | String c r =>
      if isSpace c then trimStart r
      else match r with
           | EmptyString => s
           | String d r2 =>
               if isSpace2 c d then trimStart r2
               else match r2 with
                    | EmptyString => s
                    | String e r3 => if isSpace3 c d e then trimStart r3 else s
                    end
           end
  end.

(** [String.prototype.trimEnd]: the string up to where only white space
    follows. *)
Fixpoint trimEnd (s : string) : string :=
  match s with
  | EmptyString => EmptyString
  | String c r =>
      if (trimStart (String c r) =? "")%string then EmptyString
      else String c (trimEnd r)
  end.

(** [String.prototype.trim] *)
Definition trim (s : string) : string := trimEnd (trimStart s).

(** JSON-shaped values, as handed to [res.json] and [JSON.stringify].  A
    [Date] is kept as its epoch milliseconds. *)
Inductive Val : Type :=
| Null : Val
| Bool : bool -> Val
| Num : Z -> Val
| Str : string -> Val
| Date : Z -> Val
| Arr : list Val -> Val
| Obj : list (string * Val) -> Val.

(** A plain object: its own properties, in insertion order.  [o.k] is
    [JsMap.get k o] and [o.k = v] is [JsMap.set k v o]. *)
Definition Fields : Type := JsMap.t Val.

Definition ofNullable (o : option string) : Val :=
  match o with
  | Some s => Str s
  | None => Null
  end.

(** Rest destructuring [const { k, ...rest } = o]. *)
Definition omit (k : string) (o : Fields) : Fields :=
  filter (fun kv => negb (fst kv =? k)%string) o.

(** Object literal [{ ...o, k1: v1, ..., kn: vn }]. *)
Definition spread (o : Fields) (writes : Fields) : Fields :=
  fold_left (fun acc kv => JsMap.set (fst kv) (snd kv) acc) writes o.

Definition hasKey (k : string) (o : Fields) : bool :=
  existsb (fun kv => (fst kv =? k)%string) o.

(** [k] is a property name somewhere inside [v]. *)
Fixpoint mentions (k : string) (v : Val) : bool :=
  match v with
  | Arr l => existsb (mentions k) l
  | Obj o =>
      (fix go (o : list (string * Val)) : bool :=
         match o with
         | [] => false
         | (k', v') :: r => (k' =? k)%string || mentions k v' || go r
         end) o
  | _ => false
  end.

End Js.

(* ================================================================== *)
(** ** [Set] and [Array.prototype.sort] *)


Module JsSet.

Definition t : Type := list string.

Definition has (x : string) (s : t) : bool :=
  existsb (fun y => (y =? x)%string) s.

(** [s.add(x)] *)
Definition add (x : string) (s : t) : t :=
  if has x s then s else (s ++ [x])%list.

(** [s.delete(x)] *)
Definition delete (x : string) (s : t) : t :=
  filter (fun y => negb (y =? x)%string) s.

(** [new Set(xs)] *)
Definition ofList (xs : list string) : t :=
  fold_left (fun s x => add x s) xs [].

End JsSet.

Section Sort.

Context {A : Type}.
Variable cmp : A -> A -> Z.

(** [x] stood before every element of [l] in the array: it stays before
    the elements it does not compare greater than. *)
Fixpoint insertBy (x : A) (l : list A) : list A :=
  match l with
  | [] => [x]
  | y :: r => if cmp x y <=? 0 then x :: y :: r else y :: insertBy x r
  end.

(** [l.sort(cmp)] *)
Definition sortBy (l : list A) : list A := fold_right insertBy [] l.

End Sort.

(* ================================================================== *)
(** ** The shared schema ([@shared/schema]) *)

Module Schema.

Record User : Type := mkUser {
  user_id : string;
  username : string;
  passwordHash : string
}.

Record Group : Type := mkGroup {
  group_id : string;
  group_name : string;
  createdBy : string;
  group_createdAt : Z
}.

Record Message : Type := mkMessage {
  message_id : string;
  senderId : string;
  recipientId : option string;
  groupId : option string;
  content : string;
  createdAt : Z
}.

Record InsertUser : Type := mkInsertUser {
  iu_username : string;
  iu_password : string
}.

Record InsertGroup : Type := mkInsertGroup {
  ig_name : string;
  ig_memberIds : list string
}.

(** [recipientId] and [groupId] are nullable, optional columns: [None]
    stands for both [null] and an absent property. *)
Record InsertMessage : Type := mkInsertMessage {
  im_recipientId : option string;
  im_groupId : option string;
  im_content : string
}.

Record GroupWithMembers : Type := mkGroupWithMembers {
  gwm_group : Group;
  members : list User;
  memberCount : nat
}.

Record MessageWithUsers : Type := mkMessageWithUsers {
  mwu_message : Message;
  sender : User;
  recipient : option User;
  group : option GroupWithMembers
}.

Inductive ConversationType : Type := direct | groupConv.

Record Conversation : Type := mkConversation {
  conv_type : ConversationType;
  otherUser : option User;
  conv_group : option GroupWithMembers;
  lastMessage : option Message;
  unreadCount : nat
}.

(** Result of [schema.safeParse] on a body whose properties have the
    declared types: the parsed data, or the message of the first issue. *)
Inductive Parsed (A : Type) : Type :=
| Success : A -> Parsed A
| Failure : string -> Parsed A.
Arguments Success {A} _.
Arguments Failure {A} _.

(** [insertUserSchema]: [password] has at least six characters. *)
Definition insertUserSchema (b : InsertUser) : Parsed InsertUser :=
  if (String.length (iu_password b) <? 6)%nat
  then Failure "Password must be at least 6 characters"
  else Success b.

(** [insertGroupSchema]: [name] is any string, [memberIds] is not empty. *)
Definition insertGroupSchema (b : InsertGroup) : Parsed InsertGroup :=
  match ig_memberIds b with
  | [] => Failure "At least one member is required"
  | _ :: _ => Success b
  end.

(** [insertMessageSchema]: the refinement
    [(recipientId && !groupId) || (!recipientId && groupId)]. *)
Definition insertMessageSchema (b : InsertMessage) : Parsed InsertMessage :=
  if (Js.truthy (im_recipientId b) && negb (Js.truthy (im_groupId b)))
     || (negb (Js.truthy (im_recipientId b)) && Js.truthy (im_groupId b))
  then Success b
  else Failure "Message must have either recipientId or groupId, not both".

End Schema.

(* ================================================================== *)
(** ** [storage.ts]: class [MemStorage] *)

Module Storage.
Import Schema.

Record MemStorage : Type := mkMemStorage {
  users : JsMap.t User;
  messages : JsMap.t Message;
  groups : JsMap.t Group;
  groupMembers : JsMap.t JsSet.t
}.

Definition empty : MemStorage :=
  mkMemStorage JsMap.empty JsMap.empty JsMap.empty JsMap.empty.

Definition getUser (st : MemStorage) (id : string) : option User :=
  JsMap.get id (users st).

(** [this.getUser(x)] with a nullable [x]: [get(null)] finds nothing. *)
Definition getUserOpt (st : MemStorage) (id : option string) : option User :=
  match id with
  | Some i => getUser st i
  | None => None
  end.

Definition getUserByUsername (st : MemStorage) (name : string) : option User :=
  find (fun user => (username user =? name)%string) (JsMap.values (users st)).

Definition createUser (uuid hash : string) (insertUser : InsertUser)
    (st : MemStorage) : MemStorage * User :=
  let user := mkUser uuid (iu_username insertUser) hash in
  (mkMemStorage (JsMap.set uuid user (users st)) (messages st) (groups st)
     (groupMembers st), user).

Definition createGroup (uuid : string) (now : Z) (createdBy : string)
    (insertGroup : InsertGroup) (st : MemStorage) : MemStorage * Group :=
  let group := mkGroup uuid (ig_name insertGroup) createdBy now in
  let members := JsSet.ofList (createdBy :: ig_memberIds insertGroup) in
  (mkMemStorage (users st) (messages st) (JsMap.set uuid group (groups st))
     (JsMap.set uuid members (groupMembers st)), group).

Definition getGroup (st : MemStorage) (id : string) : option Group :=
  JsMap.get id (groups st).

Definition getGroupMembers (st : MemStorage) (groupId : string) : list User :=
  match JsMap.get groupId (groupMembers st) with
  | None => []
  | Some memberIds =>
      flat_map (fun userId =>
                  match getUser st userId with
                  | Some user => [user]
                  | None => []
                  end) memberIds
  end.

Definition getGroupWithMembers (st : MemStorage) (id : string)
    : option GroupWithMembers :=
  match JsMap.get id (groups st) with
  | None => None
  | Some group =>
      let members := getGroupMembers st id in
      Some (mkGroupWithMembers group members (List.length members))
  end.

Definition getGroupsForUser (st : MemStorage) (userId : string)
    : list GroupWithMembers :=
  flat_map (fun entry =>
              if JsSet.has userId (snd entry)
              then match getGroupWithMembers st (fst entry) with
                   | Some groupWithMembers => [groupWithMembers]
                   | None => []
                   end
              else []) (groupMembers st).

Definition addGroupMember (groupId userId : string) (st : MemStorage)
    : MemStorage :=
  match JsMap.get groupId (groupMembers st) with
  | Some members =>
      mkMemStorage (users st) (messages st) (groups st)
        (JsMap.set groupId (JsSet.add userId members) (groupMembers st))
  | None => st
  end.

Definition removeGroupMember (groupId userId : string) (st : MemStorage)
    : MemStorage :=
  match JsMap.get groupId (groupMembers st) with
  | Some members =>
      mkMemStorage (users st) (messages st) (groups st)
        (JsMap.set groupId (JsSet.delete userId members) (groupMembers st))
  | None => st
  end.

Definition createMessage (uuid : string) (now : Z) (senderId : string)
    (insertMessage : InsertMessage) (st : MemStorage)
    : MemStorage * Message :=
  let message :=
    mkMessage uuid senderId
      (Js.orNull (im_recipientId insertMessage))
      (Js.orNull (im_groupId insertMessage))
      (im_content insertMessage) now in
  (mkMemStorage (users st) (JsMap.set uuid message (messages st))
     (groups st) (groupMembers st), message).

(** Comparators handed to [sort]. *)
Definition byTimeAsc (a b : Message) : Z := createdAt a - createdAt b.
Definition byTimeDesc (a b : Message) : Z := createdAt b - createdAt a.

Definition getGroupMessages (st : MemStorage) (gid : string)
    : list MessageWithUsers :=
  let allMessages := JsMap.values (messages st) in
  let groupMessages :=
    sortBy byTimeAsc (filter (fun msg => Js.optEq (groupId msg) gid) allMessages) in
  let group := getGroupWithMembers st gid in
  flat_map (fun msg =>
              match getUser st (senderId msg), group with
              | Some sender, Some g =>
                  [mkMessageWithUsers msg sender None (Some g)]
              | _, _ => []
              end) groupMessages.

(** The filter of [getMessagesBetweenUsers]. *)
Definition between (userId1 userId2 : string) (msg : Message) : bool :=
  ((senderId msg =? userId1)%string && Js.optEq (recipientId msg) userId2)
  || ((senderId msg =? userId2)%string && Js.optEq (recipientId msg) userId1).

Definition getMessagesBetweenUsers (st : MemStorage) (userId1 userId2 : string)
    : list MessageWithUsers :=
  let allMessages := JsMap.values (messages st) in
  let relevantMessages :=
    sortBy byTimeAsc (filter (between userId1 userId2) allMessages) in
  flat_map (fun msg =>
              match getUser st (senderId msg), getUserOpt st (recipientId msg) with
              | Some sender, Some recipient =>
                  [mkMessageWithUsers msg sender (Some recipient) None]
              | _, _ => []
              end) relevantMessages.

(** The [forEach] that collects the counterparts of [userId]. *)
Definition collectOther (userId : string) (otherUserIds : JsSet.t)
    (msg : Message) : JsSet.t :=
  if negb (Js.truthy (groupId msg)) then
    if (senderId msg =? userId)%string && Js.truthy (recipientId msg) then
      match recipientId msg with
      | Some r => JsSet.add r otherUserIds
      | None => otherUserIds
      end
    else if Js.optEq (recipientId msg) userId then
      JsSet.add (senderId msg) otherUserIds
    else otherUserIds
  else otherUserIds.

(** [a.lastMessage?.createdAt.getTime() || 0] *)
Definition convTime (c : Conversation) : Z :=
  match lastMessage c with
  | Some m => createdAt m
  | None => 0
  end.

Definition byLastDesc (a b : Conversation) : Z := convTime b - convTime a.

Definition directConversations (st : MemStorage) (userId : string)
    : list Conversation :=
  let allMessages := JsMap.values (messages st) in
  let otherUserIds := fold_left (collectOther userId) allMessages [] in
  flat_map (fun otherUserId =>
              match getUser st otherUserId with
              | None => []
              | Some otherUser =>
                  let msgs :=
                    sortBy byTimeDesc
                      (filter (fun msg =>
                                 negb (Js.truthy (groupId msg))
                                 && between userId otherUserId msg)
                              allMessages) in
                  [mkConversation direct (Some otherUser) None (hd_error msgs) 0%nat]
              end) otherUserIds.

Definition groupConversations (st : MemStorage) (userId : string)
    : list Conversation :=
  let allMessages := JsMap.values (messages st) in
  map (fun g =>
         let groupMessages :=
           sortBy byTimeDesc
             (filter (fun msg => Js.optEq (groupId msg) (group_id (gwm_group g)))
                     allMessages) in
         mkConversation groupConv None (Some g) (hd_error groupMessages) 0%nat)
      (getGroupsForUser st userId).

Definition getConversationsForUser (st : MemStorage) (userId : string)
    : list Conversation :=
  sortBy byLastDesc (directConversations st userId ++ groupConversations st userId).

Definition searchUsers (st : MemStorage) (query : string) : list User :=
  let lowerQuery := Js.toLowerCase query in
  filter (fun user => Js.includes (Js.toLowerCase (username user)) lowerQuery)
         (JsMap.values (users st)).

(** Modelled from the spec: [getAllUsers] is called by the search route
    but is missing from the [MemStorage] source; the route's comment
    ("return all users") and the directory's search contract ("empty/blank
    query returns all users") give it as every stored user, in the order of
    the registry. *)
Definition getAllUsers (st : MemStorage) : list User :=
  JsMap.values (users st).

End Storage.

(* ================================================================== *)
(** ** The routes of [registerRoutes] *)

Module Routes.
Import Schema Storage.

Record Response : Type := mkResponse {
  status : Z;
  body : Js.Val
}.

(** [res.json(v)] *)
Definition json (v : Js.Val) : Response := mkResponse 200 v.

(** [res.status(code).json({ error: msg })] *)
Definition fail (code : Z) (msg : string) : Response :=
  mkResponse code (Js.Obj [("error", Js.Str msg)]).

(** The records as the plain objects the handlers spread and serialize. *)
Definition userObj (u : User) : Js.Fields :=
  [("id", Js.Str (user_id u));
   ("username", Js.Str (username u));
   ("passwordHash", Js.Str (passwordHash u))].

Definition groupObj (g : Group) : Js.Fields :=
  [("id", Js.Str (group_id g));
   ("name", Js.Str (group_name g));
   ("createdBy", Js.Str (createdBy g));
   ("createdAt", Js.Date (group_createdAt g))].

Definition messageObj (m : Message) : Js.Fields :=
  [("id", Js.Str (message_id m));
   ("senderId", Js.Str (senderId m));
   ("recipientId", Js.ofNullable (recipientId m));
   ("groupId", Js.ofNullable (groupId m));
   ("content", Js.Str (content m));
   ("createdAt", Js.Date (createdAt m))].

(** [{ ...group, members, memberCount: members.length }] *)
Definition groupWithMembersObj (g : GroupWithMembers) : Js.Fields :=
  Js.spread (groupObj (gwm_group g))
    [("members", Js.Arr (map (fun u => Js.Obj (userObj u)) (members g)));
     ("memberCount", Js.Num (Z.of_nat (memberCount g)))].

(** [const { passwordHash, ...userWithoutPassword } = user] *)
Definition sanitizeUser (user : User) : Js.Val :=
  Js.Obj (Js.omit "passwordHash" (userObj user)).

(** [{ ...group, members: group.members.map(sanitizeUser) }] *)
Definition sanitizeGroup (g : GroupWithMembers) : Js.Val :=
  Js.Obj (Js.spread (groupWithMembersObj g)
            [("members", Js.Arr (map sanitizeUser (members g)))]).

(** The sockets of [wss.clients].  The [ws] package owns that set: a socket
    enters it [OPEN] when its upgrade completes and leaves it when its
    close event fires; in between it may be [CLOSING].  [sent] collects the
    frames handed to [send], each kept as the value that was stringified. *)
Inductive ReadyState : Type := CONNECTING | OPEN | CLOSING | CLOSED.

Definition isOpen (r : ReadyState) : bool :=
  match r with
  | OPEN => true
  | _ => false
  end.

Record WebSocket : Type := mkWebSocket {
  ws_id : nat;
  readyState : ReadyState;
  sent : list Js.Val
}.

Record Server : Type := mkServer {
  storage : MemStorage;
  clients : list WebSocket
}.

Definition start : Server := mkServer Storage.empty [].

(** [client.send(JSON.stringify(v))] *)
Definition send (v : Js.Val) (client : WebSocket) : WebSocket :=
  mkWebSocket (ws_id client) (readyState client) (sent client ++ [v]).

(** [wss.clients.forEach(client => { if (client.readyState === WebSocket.OPEN) ... })] *)
Definition broadcast (v : Js.Val) (cs : list WebSocket) : list WebSocket :=
  map (fun client => if isOpen (readyState client) then send v client else client) cs.

(** [requireAuth]: the session carries a truthy [userId]. *)
Definition requireAuth (session : option string) : option string :=
  if Js.truthy session then session else None.

(** [POST /api/auth/signup] when the hash is ready before any other
    request is served.  The handler suspends at [await bcrypt.hash] inside
    [createUser], between the lookup of the username and [users.set]:
    [Overlap] has its two halves and the runs in which signups overlap. *)
Definition signup (reqBody : InsertUser) (uuid hash : string) (srv : Server)
    : Server * Response :=
  match insertUserSchema reqBody with
  | Failure msg => (srv, fail 400 msg)
  | Success data =>
      match getUserByUsername (storage srv) (iu_username data) with
      | Some _ => (srv, fail 400 "Username already taken")
      | None =>
          let '(st, user) := createUser uuid hash data (storage srv) in
          (mkServer st (clients srv), json (sanitizeUser user))
      end
  end.

(** [GET /api/users/search] *)
Definition usersSearch (session : option string) (q : option string)
    (srv : Server) : Response :=
  match requireAuth session with
  | None => fail 401 "Not authenticated"
  | Some _ =>
      match q with
      | Some query =>
          if negb (Js.truthy q) || (String.length (Js.trim query) =? 0)%nat
          then json (Js.Arr (map sanitizeUser (getAllUsers (storage srv))))
          else json (Js.Arr (map sanitizeUser (searchUsers (storage srv) query)))
      | None => json (Js.Arr (map sanitizeUser (getAllUsers (storage srv))))
      end
  end.

(** [POST /api/groups] *)
Definition postGroups (session : option string) (reqBody : InsertGroup)
    (uuid : string) (now : Z) (srv : Server) : Server * Response :=
  match requireAuth session with
  | None => (srv, fail 401 "Not authenticated")
  | Some userId =>
      match insertGroupSchema reqBody with
      | Failure msg => (srv, fail 400 msg)
      | Success data =>
          let '(st, group) := createGroup uuid now userId data (storage srv) in
          let srv' := mkServer st (clients srv) in
          match getGroupWithMembers st (group_id group) with
          | None => (srv', fail 500 "Failed to get group data")
          | Some groupWithMembers => (srv', json (sanitizeGroup groupWithMembers))
          end
      end
  end.

(** [POST /api/messages] *)
Definition postMessages (session : option string) (reqBody : InsertMessage)
    (uuid : string) (now : Z) (srv : Server) : Server * Response :=
  match requireAuth session with
  | None => (srv, fail 401 "Not authenticated")
  | Some userId =>
      match insertMessageSchema reqBody with
      | Failure msg => (srv, fail 400 msg)
      | Success data =>
          let '(st, message) := createMessage uuid now userId data (storage srv) in
          let srv' := mkServer st (clients srv) in
          match getUser st (senderId message) with
          | None => (srv', fail 500 "Failed to get sender data")
          | Some sender =>
              let messageWithUsers :=
                Js.spread (messageObj message) [("sender", sanitizeUser sender)] in
              let deliver (payload : Js.Fields) : Server * Response :=
                (mkServer st (broadcast (Js.Obj payload) (clients srv)),
                 json (Js.Obj payload)) in
              if Js.truthy (recipientId message) then
                match getUserOpt st (recipientId message) with
                | None => (srv', fail 500 "Failed to get recipient data")
                | Some recipient =>
                    deliver (JsMap.set "recipient" (sanitizeUser recipient) messageWithUsers)
                end
              else if Js.truthy (groupId message) then
                match groupId message with
                | None => deliver messageWithUsers
                | Some gid =>
                    match getGroupWithMembers st gid with
                    | None => (srv', fail 500 "Failed to get group data")
                    | Some group =>
                        deliver (JsMap.set "group" (sanitizeGroup group) messageWithUsers)
                    end
                end
              else deliver messageWithUsers
          end
      end
  end.

(** What reaches the server: the three writing routes, the two membership
    calls of [IStorage] and the socket life cycle.  Reading routes leave
    the state as it is. *)
Inductive Event : Type :=
| Signup (reqBody : InsertUser) (uuid hash : string)
| PostGroups (session : option string) (reqBody : InsertGroup) (uuid : string) (now : Z)
| PostMessages (session : option string) (reqBody : InsertMessage) (uuid : string) (now : Z)
| AddGroupMember (groupId userId : string)
| RemoveGroupMember (groupId userId : string)
| WsOpen (id : nat)
| WsClosing (id : nat)
| WsClose (id : nat).

Definition setReadyState (id : nat) (r : ReadyState) (cs : list WebSocket)
    : list WebSocket :=
  map (fun c => if (ws_id c =? id)%nat then mkWebSocket (ws_id c) r (sent c) else c) cs.

Definition step (srv : Server) (e : Event) : Server :=
  match e with
  | Signup b uuid hash => fst (signup b uuid hash srv)
  | PostGroups s b uuid now => fst (postGroups s b uuid now srv)
  | PostMessages s b uuid now => fst (postMessages s b uuid now srv)
  | AddGroupMember g u => mkServer (addGroupMember g u (storage srv)) (clients srv)
  | RemoveGroupMember g u => mkServer (removeGroupMember g u (storage srv)) (clients srv)
  | WsOpen id => mkServer (storage srv) (clients srv ++ [mkWebSocket id OPEN []])
  | WsClosing id => mkServer (storage srv) (setReadyState id CLOSING (clients srv))
  | WsClose id =>
      mkServer (storage srv)
        (filter (fun c => negb (ws_id c =? id)%nat) (clients srv))
  end.

Definition run (trace : list Event) (srv : Server) : Server :=
  fold_left step trace srv.

End Routes.

(* ================================================================== *)
(** ** Vocabulary of the properties *)

Module Props.
Import Schema Storage Routes.

(** A string of ASCII characters: every byte is below 128. *)
Fixpoint isAscii (s : string) : Prop :=
  match s with
  | EmptyString => True
  | String c r => (N_of_ascii c < 128)%N /\ isAscii r
  end.

(** Two characters that are equal, or the capital (codes 65 to 90) and the
    small form (32 above) of one ASCII letter. *)
Definition sameChar (c d : ascii) : Prop :=
  c = d
  \/ ((65 <= N_of_ascii c <= 90)%N /\ N_of_ascii d = (N_of_ascii c + 32)%N)
  \/ ((65 <= N_of_ascii d <= 90)%N /\ N_of_ascii c = (N_of_ascii d + 32)%N).

(** Two strings equal up to the case of their letters. *)
Inductive sameLetters : string -> string -> Prop :=
| sameLetters_nil : sameLetters EmptyString EmptyString
| sameLetters_cons (c d : ascii) (s t : string) :
    sameChar c d -> sameLetters s t -> sameLetters (String c s) (String d t).

(** [name] contains [q] case-insensitively: some run of [name] spells [q]
    up to letter case. *)
Definition containsCI (name q : string) : Prop :=
  exists pre w suf, name = pre ++ w ++ suf /\ sameLetters w q.

(** Empty or made of ASCII white space only. *)
Fixpoint blank (q : string) : bool :=
  match q with
  | EmptyString => true
  | String c r => Js.isSpace c && blank r
  end.

(** The bytes of a code point in UTF-8. *)
Definition bytes (l : list N) : string :=
  fold_right (fun n s => String (ascii_of_N n) s) EmptyString l.

Definition utf8Char (n : N) : string :=
  (if n <? 0x80 then bytes [n]
   else if n <? 0x800 then bytes [0xC0 + n / 64; 0x80 + n mod 64]
   else if n <? 0x10000
        then bytes [0xE0 + n / 4096; 0x80 + (n / 64) mod 64; 0x80 + n mod 64]
        else bytes [0xF0 + n / 262144; 0x80 + (n / 4096) mod 64;
                    0x80 + (n / 64) mod 64; 0x80 + n mod 64])%N.

(** The string of a sequence of code points. *)
Definition utf8 (l : list N) : string :=
  fold_right (fun n s => utf8Char n ++ s) EmptyString l.

(** The white space and the line terminators of ECMAScript: TAB, LF, VT,
    FF, CR, SPACE, NO-BREAK SPACE, the other space separators of Unicode,
    LINE SEPARATOR, PARAGRAPH SEPARATOR and the byte order mark. *)
Definition whiteSpace : list N :=
  [ 0x9; 0xA; 0xB; 0xC; 0xD; 0x20; 0xA0; 0x1680;
    0x2000; 0x2001; 0x2002; 0x2003; 0x2004; 0x2005; 0x2006; 0x2007; 0x2008;
    0x2009; 0x200A; 0x2028; 0x2029; 0x202F; 0x205F; 0x3000; 0xFEFF ]%N.

(** Empty or made of white space only, of any length in bytes. *)
Definition Blank (s : string) : Prop :=
  exists l, Forall (fun n => In n whiteSpace) l /\ s = utf8 l.

(** Membership in a list that is written out; a byte of known code. *)
Ltac pick_element := repeat (first [now left | right]).

Ltac known_byte c H := rewrite <- (ascii_N_embedding c), H.

(** No white space at either end. *)
Definition trimmed (s : string) : Prop :=
  forall n r, In n whiteSpace -> s <> utf8Char n ++ r /\ s <> r ++ utf8Char n.

(** A direct message is one without a group. *)
Definition isDirect (m : Message) : Prop := groupId m = None.

(** [c] is a counterpart of [u]: some direct message in the log goes from
    [u] to [c] or from [c] to [u]. *)
Definition counterpart (st : MemStorage) (u c : string) : Prop :=
  exists m, In m (JsMap.values (messages st)) /\ isDirect m /\
    ((senderId m = u /\ recipientId m = Some c)
     \/ (senderId m = c /\ recipientId m = Some u)).

(** [u] belongs to the group [g]. *)
Definition memberOf (st : MemStorage) (g u : string) : Prop :=
  exists s, JsMap.get g (groupMembers st) = Some s /\ In u s.

(** What a conversation is about: its kind and the identifier of the other
    user or of the group. *)
Definition convKey (c : Conversation) : ConversationType * option string :=
  match conv_type c with
  | direct => (direct, option_map user_id (otherUser c))
  | groupConv =>
      (groupConv, option_map (fun g => group_id (gwm_group g)) (conv_group c))
  end.

(** Nullable columns hold [null] or a non-empty string, as [createMessage]
    writes them. *)
Definition normalized (m : Message) : Prop :=
  recipientId m <> Some "" /\ groupId m <> Some "".

(** The shape every store built through [MemStorage] has: records sit
    under their own identifier, membership sets are kept per group, one
    entry each, and nullable columns are normalized. *)
Record wellFormed (st : MemStorage) : Prop := mkWellFormed {
  wf_user_key : forall k u, In (k, u) (users st) -> user_id u = k;
  wf_group_key : forall k g, In (k, g) (groups st) -> group_id g = k;
  wf_members_nodup : NoDup (JsMap.keys (groupMembers st));
  wf_members_group :
    forall k, In k (JsMap.keys (groupMembers st)) -> JsMap.get k (groups st) <> None;
  wf_messages : forall m, In m (JsMap.values (messages st)) -> normalized m
}.

(** The message of an enriched entry could be attached to its users. *)
Definition directEnrichable (st : MemStorage) (m : Message) : bool :=
  match getUser st (senderId m), getUserOpt st (recipientId m) with
  | Some _, Some _ => true
  | _, _ => false
  end.

Definition groupEnrichable (st : MemStorage) (gid : string) (m : Message) : bool :=
  match getUser st (senderId m), getGroup st gid with
  | Some _, Some _ => true
  | _, _ => false
  end.

Definition atTime (t : Z) (m : Message) : bool := createdAt m =? t.

(** Exactly one of recipient and group is present. *)
Definition addressed (m : Message) : Prop :=
  (recipientId m <> None /\ groupId m = None)
  \/ (recipientId m = None /\ groupId m <> None).

(** How a step changes the store. *)
Inductive storeStep (st : MemStorage) : MemStorage -> Prop :=
| storeStep_same : storeStep st st
| storeStep_user uuid hash b :
    getUserByUsername st (iu_username b) = None ->
    storeStep st (fst (createUser uuid hash b st))
| storeStep_group uuid now uid b :
    storeStep st (fst (createGroup uuid now uid b st))
| storeStep_message uuid now uid b :
    Js.truthy (im_recipientId b) = negb (Js.truthy (im_groupId b)) ->
    storeStep st (fst (createMessage uuid now uid b st))
| storeStep_add g u : storeStep st (addGroupMember g u st)
| storeStep_remove g u : storeStep st (removeGroupMember g u st).

(** The payload the message route builds from a stored message: the message
    with its sanitized sender and, by addressing, its sanitized recipient or
    its group with sanitized members. *)
Inductive enriched (st : MemStorage) (message : Message) : Js.Fields -> Prop :=
| enriched_direct (sender recipient : User) :
    getUser st (senderId message) = Some sender ->
    Js.truthy (recipientId message) = true ->
    getUserOpt st (recipientId message) = Some recipient ->
    enriched st message
      (JsMap.set "recipient" (sanitizeUser recipient)
         (Js.spread (messageObj message) [("sender", sanitizeUser sender)]))
| enriched_group (sender : User) (gid : string) (group : GroupWithMembers) :
    getUser st (senderId message) = Some sender ->
    Js.truthy (recipientId message) = false ->
    groupId message = Some gid ->
    getGroupWithMembers st gid = Some group ->
    enriched st message
      (JsMap.set "group" (sanitizeGroup group)
         (Js.spread (messageObj message) [("sender", sanitizeUser sender)]))
| enriched_bare (sender : User) :
    getUser st (senderId message) = Some sender ->
    Js.truthy (recipientId message) = false ->
    Js.truthy (groupId message) = false ->
    enriched st message
      (Js.spread (messageObj message) [("sender", sanitizeUser sender)]).

End Props.

(* ================================================================== *)
(** ** A small run of the server, used to exercise the statements *)

Module Demo.
Import Schema Storage Routes.

Definition toGhost : InsertMessage := mkInsertMessage (Some "ghost") None "anyone?".

Definition trace : list Event :=
  [ Signup (mkInsertUser "Alice" "secret1") "u1" "hash1";
    Signup (mkInsertUser "alias" "secret2") "u2" "hash2";
    Signup (mkInsertUser "MALI" "secret3") "u3" "hash3";
    Signup (mkInsertUser "bob" "secret4") "u4" "hash4";
    PostGroups (Some "u1") (mkInsertGroup "G1" ["u2"]) "g1" 1;
    PostGroups (Some "u1") (mkInsertGroup "G2" ["u3"]) "g2" 2;
    WsOpen 1; WsOpen 2; WsClosing 2;
    PostMessages (Some "u1") (mkInsertMessage None (Some "g1") "yo") "m0" 5;
    PostMessages (Some "u1") (mkInsertMessage (Some "u4") None "hi") "m1" 10;
    PostMessages (Some "u4") (mkInsertMessage (Some "u1") None "hey") "m2" 10;
    PostMessages (Some "u1") toGhost "m3" 11 ].

Definition server : Server := run trace start.

Definition store : MemStorage := storage server.

Definition hi : Message := mkMessage "m1" "u1" (Some "u4") None "hi" 10.

Definition ghostMessage : Message :=
  mkMessage "m3" "u1" (Some "ghost") None "anyone?" 11.

(** A directory of one user, named by the Greek capitals alpha, sigma,
    alpha, and the query of the first two of them. *)
Definition greekName : string := Props.utf8 [0x391; 0x3A3; 0x391]%N.

Definition greekQuery : string := Props.utf8 [0x391; 0x3A3]%N.

Definition greekServer : Server :=
  run [Signup (mkInsertUser greekName "secret1") "u1" "hash1"] start.

End Demo.

(* ================================================================== *)
(** ** Login: [verifyPassword] and [POST /api/auth/login] *)

Module Auth.
Import Schema Storage Routes.

Record LoginUser : Type := mkLoginUser {
  lu_username : string;
  lu_password : string
}.

(** [loginSchema]: both strings have at least one character; the first
    issue is the one of [username]. *)
Definition loginSchema (b : LoginUser) : Parsed LoginUser :=
  if (String.length (lu_username b) <? 1)%nat then Failure "Username is required"
  else if (String.length (lu_password b) <? 1)%nat then Failure "Password is required"
  else Success b.

Section Bcrypt.

(** [bcrypt.compare(password, hash)] *)
Variable compare : string -> string -> bool.

Definition verifyPassword (st : MemStorage) (name password : string)
    : option User :=
  match getUserByUsername st name with
  | None => None
  | Some user => if compare password (passwordHash user) then Some user else None
  end.

(** The answer, and the [userId] written to the session, if any. *)
Definition login (reqBody : LoginUser) (srv : Server) : Response * option string :=
  match loginSchema reqBody with
  | Failure msg => (fail 400 msg, None)
  | Success data =>
      match verifyPassword (storage srv) (lu_username data) (lu_password data) with
      | None => (fail 401 "Invalid username or password", None)
      | Some user => (json (sanitizeUser user), Some (user_id user))
      end
  end.

End Bcrypt.

End Auth.

(* ================================================================== *)
(** ** The reading routes of [registerRoutes] *)

Module ReadRoutes.
Import Schema Storage Routes.

Definition typeName (t : ConversationType) : string :=
  match t with
  | direct => "direct"
  | groupConv => "group"
  end.

(** The entries [getMessagesBetweenUsers] and [getGroupMessages] push:
    [{ ...msg, sender, recipient }] and [{ ...msg, sender, group }]. *)
Definition messageWithUsersObj (e : MessageWithUsers) : Js.Fields :=
  Js.spread (messageObj (mwu_message e))
    ([("sender", Js.Obj (userObj (sender e)))]
     ++ match recipient e with
        | Some r => [("recipient", Js.Obj (userObj r))]
        | None => []
        end
     ++ match group e with
        | Some g => [("group", Js.Obj (groupWithMembersObj g))]
        | None => []
        end)%list.

(** The entries [getConversationsForUser] pushes:
    [{ type, otherUser, lastMessage, unreadCount }] and
    [{ type, group, lastMessage, unreadCount }]. *)
Definition conversationObj (c : Conversation) : Js.Fields :=
  ([("type", Js.Str (typeName (conv_type c)))]
   ++ match otherUser c with
      | Some u => [("otherUser", Js.Obj (userObj u))]
      | None => []
      end
   ++ match conv_group c with
      | Some g => [("group", Js.Obj (groupWithMembersObj g))]
      | None => []
      end
   ++ [("lastMessage",
        match lastMessage c with
        | Some m => Js.Obj (messageObj m)
        | None => Js.Null
        end);
       ("unreadCount", Js.Num (Z.of_nat (unreadCount c)))])%list.

(** The [map] of [GET /api/messages].  A property written as [undefined]
    is not serialized, so it is not written here. *)
Definition sanitizeMessage (msg : MessageWithUsers) : Js.Val :=
  Js.Obj (Js.spread (messageWithUsersObj msg)
            ([("sender", sanitizeUser (sender msg))]
             ++ match recipient msg with
                | Some r => [("recipient", sanitizeUser r)]
                | None => []
                end
             ++ match group msg with
                | Some g => [("group", sanitizeGroup g)]
                | None => []
                end)%list).

(** The [map] of [GET /api/conversations]. *)
Definition sanitizeConversation (conv : Conversation) : Js.Val :=
  match conv_type conv, otherUser conv, conv_group conv with
  | direct, Some u, _ =>
      Js.Obj (Js.spread (conversationObj conv) [("otherUser", sanitizeUser u)])
  | groupConv, _, Some g =>
      Js.Obj (Js.spread (conversationObj conv) [("group", sanitizeGroup g)])
  | _, _, _ => Js.Obj (conversationObj conv)
  end.

(** [GET /api/auth/me] *)
Definition authMe (session : option string) (srv : Server) : Response :=
  match requireAuth session with
  | None => fail 401 "Not authenticated"
  | Some userId =>
      match getUser (storage srv) userId with
      | None => fail 404 "User not found"
      | Some user => json (sanitizeUser user)
      end
  end.

(** [GET /api/users/:userId] *)
Definition usersById (session : option string) (userId : string) (srv : Server)
    : Response :=
  match requireAuth session with
  | None => fail 401 "Not authenticated"
  | Some _ =>
      match getUser (storage srv) userId with
      | None => fail 404 "User not found"
      | Some user => json (sanitizeUser user)
      end
  end.

(** [GET /api/groups] *)
Definition groupsList (session : option string) (srv : Server) : Response :=
  match requireAuth session with
  | None => fail 401 "Not authenticated"
  | Some userId =>
      json (Js.Arr (map sanitizeGroup (getGroupsForUser (storage srv) userId)))
  end.

(** [group.members.some(m => m.id === req.session.userId)] *)
Definition isMember (g : GroupWithMembers) (userId : string) : bool :=
  existsb (fun m => (user_id m =? userId)%string) (members g).

(** [GET /api/groups/:groupId] *)
Definition groupsById (session : option string) (groupId : string) (srv : Server)
    : Response :=
  match requireAuth session with
  | None => fail 401 "Not authenticated"
  | Some userId =>
      match getGroupWithMembers (storage srv) groupId with
      | None => fail 404 "Group not found"
      | Some group =>
          if isMember group userId then json (sanitizeGroup group)
          else fail 403 "Not a member of this group"
      end
  end.

(** [GET /api/conversations] *)
Definition conversations (session : option string) (srv : Server) : Response :=
  match requireAuth session with
  | None => fail 401 "Not authenticated"
  | Some userId =>
      json (Js.Arr (map sanitizeConversation
                      (getConversationsForUser (storage srv) userId)))
  end.

(** [GET /api/messages], with the query parameters [userId] and [groupId]. *)
Definition messagesList (session : option string) (userId groupId : option string)
    (srv : Server) : Response :=
  match requireAuth session with
  | None => fail 401 "Not authenticated"
  | Some me =>
      if negb (Js.truthy userId) && negb (Js.truthy groupId) then
        fail 400 "userId or groupId query parameter is required"
      else if Js.truthy groupId then
        match groupId with
        | Some gid =>
            match getGroupWithMembers (storage srv) gid with
            | None => fail 404 "Group not found"
            | Some group =>
                if isMember group me
                then json (Js.Arr (map sanitizeMessage (getGroupMessages (storage srv) gid)))
                else fail 403 "Not a member of this group"
            end
        | None => json (Js.Arr [])  (* not reached: a truthy parameter is a string *)
        end
      else
        match userId with
        | Some uid =>
            json (Js.Arr (map sanitizeMessage
                            (getMessagesBetweenUsers (storage srv) me uid)))
        | None => json (Js.Arr [])  (* not reached: one of the two is truthy *)
        end
  end.

End ReadRoutes.

(* ================================================================== *)
(** ** The client: the create-group dialog and the chat page *)

Module Client.
Import Schema.

(** What a form handler does with its input: call the server, or show an
    error and call nothing. *)
Inductive Outcome (A : Type) : Type :=
| Sent : A -> Outcome A
| Refused : string -> Outcome A.
Arguments Sent {A} _.
Arguments Refused {A} _.

(** [handleToggleUser] of the dialog, on a copy of the selection. *)
Definition handleToggleUser (userId : string) (selectedUserIds : JsSet.t) : JsSet.t :=
  if JsSet.has userId selectedUserIds
  then JsSet.delete userId selectedUserIds
  else JsSet.add userId selectedUserIds.

(** [handleSubmit] of the dialog; [handleCreateGroup] posts
    [{ name, memberIds }]. *)
Definition handleSubmit (groupName : string) (selectedUserIds : JsSet.t)
    : Outcome InsertGroup :=
  if (Js.trim groupName =? "")%string then Refused "Please enter a group name"
  else if (List.length selectedUserIds =? 0)%nat
       then Refused "Please select at least one member"
       else Sent (mkInsertGroup (Js.trim groupName) selectedUserIds).

(** [onSendMessage] of the chat page: the body it posts, if any. *)
Definition onSendMessage (selectedConversationId : option string)
    (selectedConversationType : option ConversationType) (content : string)
    : option InsertMessage :=
  match selectedConversationType with
  | None => None
  | Some t =>
      if Js.truthy selectedConversationId then
        match t with
        | direct => Some (mkInsertMessage selectedConversationId None content)
        | groupConv => Some (mkInsertMessage None selectedConversationId content)
        end
      else None
  end.

(** [handleSendMessage] of the chat area, followed by [onSendMessage]. *)
Definition handleSendMessage (selectedConversationId : option string)
    (selectedConversationType : option ConversationType)
    (messageInput : string) (isSending : bool) : option InsertMessage :=
  if (Js.trim messageInput =? "")%string || isSending then None
  else onSendMessage selectedConversationId selectedConversationType
         (Js.trim messageInput).

End Client.

(* ================================================================== *)
(** ** Vocabulary of the further properties *)

Module MoreProps.
Import Schema Storage Routes.

(** [m] belongs to the conversation [c] of [u]: a direct message between
    [u] and the other user, in either direction, or a message addressed to
    the group. *)
Definition about (u : string) (c : Conversation) (m : Message) : Prop :=
  match conv_type c, otherUser c, conv_group c with
  | direct, Some ou, _ =>
      groupId m = None
      /\ ((senderId m = u /\ recipientId m = Some (user_id ou))
          \/ (senderId m = user_id ou /\ recipientId m = Some u))
  | groupConv, _, Some g => groupId m = Some (group_id (gwm_group g))
  | _, _, _ => False
  end.

(** The identifiers an event brings to the store. *)
Definition eventUuid (e : Event) : option string :=
  match e with
  | Signup _ uuid _ => Some uuid
  | PostGroups _ _ uuid _ => Some uuid
  | PostMessages _ _ uuid _ => Some uuid
  | _ => None
  end.

(** [l1] is [l2] or [l2] with one more element at its end. *)
Definition grewByAtMostOne {A : Type} (l1 l2 : list A) : Prop :=
  l2 = l1 \/ exists x, l2 = (l1 ++ [x])%list.

(** No frame handed to one of the sockets names [passwordHash]. *)
Definition cleanSockets (cs : list WebSocket) : Prop :=
  forall c frame, In c cs -> In frame (sent c) -> Js.mentions "passwordHash" frame = false.

End MoreProps.

(* ================================================================== *)
(** ** Signups that overlap *)

Module Overlap.
Import Schema Storage Routes.

(** [POST /api/auth/signup] up to [await bcrypt.hash]: the schema and the
    lookup of the username.  Either the answer, or the data the suspended
    handler goes on with. *)
Definition signupBegin (reqBody : InsertUser) (srv : Server) : Response + InsertUser :=
  match insertUserSchema reqBody with
  | Failure msg => inl (fail 400 msg)
  | Success data =>
      match getUserByUsername (storage srv) (iu_username data) with
      | Some _ => inl (fail 400 "Username already taken")
      | None => inr data
      end
  end.

(** The same handler from the moment the hash is ready: [users.set] and
    the answer.  [uuid] was drawn before the handler suspended. *)
Definition signupResume (data : InsertUser) (uuid hash : string) (srv : Server)
    : Server * Response :=
  let '(st, user) := createUser uuid hash data (storage srv) in
  (mkServer st (clients srv), json (sanitizeUser user)).

(** The server and the signups that wait for their hash, each with its data
    and its identifier. *)
Record State : Type := mkState {
  server : Server;
  awaiting : list (InsertUser * string)
}.

Definition start : State := mkState Routes.start [].

Inductive Event : Type :=
| SignupArrives (reqBody : InsertUser) (uuid : string)
| HashReady (i : nat) (hash : string)
| Served (e : Routes.Event).

Fixpoint removeNth {A : Type} (i : nat) (l : list A) : list A :=
  match i, l with
  | _, [] => []
  | O, _ :: r => r
  | S j, x :: r => x :: removeNth j r
  end.

Definition step (s : State) (e : Event) : State :=
  match e with
  | SignupArrives reqBody uuid =>
      match signupBegin reqBody (server s) with
      | inl _ => s
      | inr data => mkState (server s) (awaiting s ++ [(data, uuid)])
      end
  | HashReady i hash =>
      match nth_error (awaiting s) i with
      | None => s
      | Some (data, uuid) =>
          mkState (fst (signupResume data uuid hash (server s)))
                  (removeNth i (awaiting s))
      end
  | Served e => mkState (Routes.step (server s) e) (awaiting s)
  end.

Definition run (trace : list Event) (s : State) : State := fold_left step trace s.

(** Two signups of one name, the second arriving while the first waits. *)
Definition twoAlices : list Event :=
  [ SignupArrives (mkInsertUser "alice" "secret1") "u1";
    SignupArrives (mkInsertUser "alice" "secret2") "u2";
    HashReady 0 "hash1";
    HashReady 0 "hash2" ].

End Overlap.

(* ================================================================== *)
(** ** Stable sorting *)

Section SortFacts.

Context {A : Type}.
Variable cmp : A -> A -> Z.
Variable key : A -> Z.
Hypothesis cmp_key : forall a b, cmp a b <= 0 <-> key a <= key b.

Lemma insertBy_perm (x : A) (l : list A) : Permutation (insertBy cmp x l) (x :: l).
Proof.
  induction l as [|y r IH]; simpl; [reflexivity|].
  destruct (cmp x y <=? 0); [reflexivity|].
  rewrite IH. apply perm_swap.
Qed.

Lemma sortBy_perm (l : list A) : Permutation (sortBy cmp l) l.
Proof.
  induction l as [|x r IH]; simpl; [constructor|].
  rewrite insertBy_perm. now constructor.
Qed.

Lemma sortBy_In (l : list A) (x : A) : In x (sortBy cmp l) <-> In x l.
Proof.
  split; apply Permutation_in; [|symmetry]; apply sortBy_perm.
Qed.

Lemma insertBy_sorted (x : A) (l : list A) :
  StronglySorted (fun a b => key a <= key b) l ->
  StronglySorted (fun a b => key a <= key b) (insertBy cmp x l).
Proof.
  induction 1 as [|y r Hr IH Hy]; simpl.
  - repeat constructor.
  - destruct (Z.leb_spec (cmp x y) 0) as [Hle|Hgt].
    + apply cmp_key in Hle. constructor; [now constructor|].
      constructor; [exact Hle|].
      rewrite Forall_forall in *. intros z Hz. specialize (Hy z Hz). lia.
    + constructor; [exact IH|].
      rewrite Forall_forall in *. intros z Hz.
      apply (Permutation_in _ (insertBy_perm x r)) in Hz.
      destruct Hz as [Hz|Hz]; [subst z|now apply Hy].
      destruct (Z.le_gt_cases (key y) (key x)) as [?|Hlt]; [assumption|].
      exfalso. assert (cmp x y <= 0) by (apply cmp_key; lia). lia.
Qed.

Lemma sortBy_sorted (l : list A) :
  StronglySorted (fun a b => key a <= key b) (sortBy cmp l).
Proof.
  induction l as [|x r IH]; simpl; [constructor|].
  now apply insertBy_sorted.
Qed.

(** Stability: the elements of one key keep the order they had. *)
Lemma insertBy_stable (t : Z) (x : A) (l : list A) :
  filter (fun a => key a =? t) (insertBy cmp x l)
  = filter (fun a => key a =? t) (x :: l).
Proof.
  induction l as [|y r IH]; [reflexivity|].
  cbn [insertBy]. destruct (Z.leb_spec (cmp x y) 0) as [Hle|Hgt]; [reflexivity|].
  assert (Hxy : key y < key x).
  { destruct (Z.le_gt_cases (key x) (key y)) as [H|H]; [|lia].
    apply cmp_key in H. lia. }
  cbn [filter] in *. rewrite IH.
  destruct (Z.eqb_spec (key x) t), (Z.eqb_spec (key y) t); try reflexivity; lia.
Qed.

Lemma sortBy_stable (t : Z) (l : list A) :
  filter (fun a => key a =? t) (sortBy cmp l) = filter (fun a => key a =? t) l.
Proof.
  induction l as [|x r IH]; [reflexivity|].
  cbn [sortBy fold_right]. rewrite insertBy_stable.
  cbn [filter]. fold (sortBy cmp r). now rewrite IH.
Qed.

End SortFacts.

(* ================================================================== *)
(** ** Reading the message log *)

Section ListFacts.

Context {A : Type}.

Lemma StronglySorted_filter (R : A -> A -> Prop) (p : A -> bool) (l : list A) :
  StronglySorted R l -> StronglySorted R (filter p l).
Proof.
  induction 1 as [|x r Hr IH Hx]; simpl; [constructor|].
  destruct (p x); [|exact IH].
  constructor; [exact IH|].
  rewrite Forall_forall in *. intros y Hy.
  apply filter_In in Hy. now apply Hx.
Qed.

Lemma filter_comm (p q : A -> bool) (l : list A) :
  filter p (filter q l) = filter q (filter p l).
Proof.
  induction l as [|x r IH]; simpl; [reflexivity|].
  destruct (p x) eqn:Hp, (q x) eqn:Hq; simpl; rewrite ?Hp, ?Hq, IH; reflexivity.
Qed.

Lemma filter_andb (p q : A -> bool) (l : list A) :
  filter (fun x => p x && q x) l = filter q (filter p l).
Proof.
  induction l as [|x r IH]; simpl; [reflexivity|].
  destruct (p x); simpl; [destruct (q x)|]; now rewrite IH.
Qed.

End ListFacts.

Module ReadFacts.
Import Schema Storage Props.

Lemma byTimeAsc_key (a b : Message) : byTimeAsc a b <= 0 <-> createdAt a <= createdAt b.
Proof. unfold byTimeAsc. lia. Qed.

Lemma byTimeDesc_key (a b : Message) :
  byTimeDesc a b <= 0 <-> - createdAt a <= - createdAt b.
Proof. unfold byTimeDesc. lia. Qed.

Lemma between_sym (a b : string) (m : Message) : between a b m = between b a m.
Proof. unfold between. apply orb_comm. Qed.

(** The messages [getMessagesBetweenUsers] returns: the selected ones, in
    sorted order, that have both user records. *)
Lemma between_messages (st : MemStorage) (u1 u2 : string) :
  map mwu_message (getMessagesBetweenUsers st u1 u2)
  = filter (directEnrichable st)
      (sortBy byTimeAsc (filter (between u1 u2) (JsMap.values (messages st)))).
Proof.
  unfold getMessagesBetweenUsers.
  induction (sortBy byTimeAsc _) as [|m l IH]; [reflexivity|].
  cbn [flat_map filter]. rewrite map_app, IH. unfold directEnrichable.
  destruct (getUser st (senderId m)); [|reflexivity].
  destruct (getUserOpt st (recipientId m)); reflexivity.
Qed.

(** The same for [getGroupMessages]. *)
Lemma group_messages (st : MemStorage) (gid : string) :
  map mwu_message (getGroupMessages st gid)
  = filter (groupEnrichable st gid)
      (sortBy byTimeAsc
         (filter (fun msg => Js.optEq (groupId msg) gid) (JsMap.values (messages st)))).
Proof.
  unfold getGroupMessages.
  induction (sortBy byTimeAsc _) as [|m l IH]; [reflexivity|].
  cbn [flat_map filter]. rewrite map_app, IH.
  unfold groupEnrichable, getGroupWithMembers, getGroup.
  destruct (getUser st (senderId m)); [|reflexivity].
  destruct (JsMap.get gid (groups st)); reflexivity.
Qed.

Lemma between_symmetric (st : MemStorage) (a b : string) :
  getMessagesBetweenUsers st a b = getMessagesBetweenUsers st b a.
Proof.
  unfold getMessagesBetweenUsers.
  now rewrite (filter_ext _ _ (between_sym a b)).
Qed.

Lemma between_sorted (st : MemStorage) (a b : string) :
  StronglySorted (fun x y => createdAt x <= createdAt y)
    (map mwu_message (getMessagesBetweenUsers st a b)).
Proof.
  rewrite between_messages. apply StronglySorted_filter.
  apply (sortBy_sorted byTimeAsc createdAt byTimeAsc_key).
Qed.

Lemma between_stable (st : MemStorage) (a b : string) (t : Z) :
  filter (atTime t) (map mwu_message (getMessagesBetweenUsers st a b))
  = filter (atTime t)
      (filter (fun m => between a b m && directEnrichable st m)
              (JsMap.values (messages st))).
Proof.
  rewrite between_messages, filter_comm.
  unfold atTime at 1.
  rewrite (sortBy_stable byTimeAsc createdAt byTimeAsc_key).
  rewrite filter_andb, (filter_comm (directEnrichable st)).
  reflexivity.
Qed.

End ReadFacts.

(* ================================================================== *)
(** ** Strings: [toLowerCase], [includes], [trim] *)

Module StringFacts.
Import Props.

Lemma app_assoc (a b c : string) : (a ++ b) ++ c = a ++ b ++ c.
Proof. induction a as [|x a IH]; simpl; [reflexivity|now rewrite IH]. Qed.

Lemma app_empty_r (a : string) : a ++ "" = a.
Proof. induction a as [|x a IH]; simpl; [reflexivity|now rewrite IH]. Qed.

Lemma app_length (a b : string) :
  String.length (a ++ b) = (String.length a + String.length b)%nat.
Proof. induction a as [|x a IH]; simpl; [reflexivity|now rewrite IH]. Qed.

Lemma app_inv_head (a b c : string) : a ++ b = a ++ c -> b = c.
Proof. induction a as [|x a IH]; simpl; [tauto|]. intros H. inversion H. now apply IH. Qed.

Lemma prefix_spec (q s : string) :
  String.prefix q s = true <-> exists suf, s = q ++ suf.
Proof.
  revert s. induction q as [|c q IH]; intros s; simpl.
  - split; [intros _; now exists s|intros _; now destruct s].
  - destruct s as [|d s].
    + split; [discriminate|intros [suf H]; discriminate].
    + simpl. destruct (ascii_dec c d) as [->|Hne].
      * rewrite IH. split; intros [suf H]; exists suf; [now rewrite H|].
        now inversion H.
      * split; [discriminate|]. intros [suf H]. inversion H. congruence.
Qed.

Lemma includes_spec (s q : string) :
  Js.includes s q = true <-> exists pre suf, s = pre ++ q ++ suf.
Proof.
  induction s as [|c s IH]; cbn [Js.includes].
  - rewrite orb_false_r, prefix_spec. split.
    + intros [suf H]. now exists "", suf.
    + intros [pre [suf H]]. destruct pre; [now exists suf|discriminate].
  - rewrite orb_true_iff, prefix_spec, IH. split.
    + intros [[suf H]|[pre [suf H]]].
      * now exists "", suf.
      * exists (String c pre), suf. simpl. now rewrite H.
    + intros [pre [suf H]]. destruct pre as [|d pre]; simpl in H.
      * left. now exists suf.
      * right. exists pre, suf. now inversion H.
Qed.

Lemma includes_empty (s : string) : Js.includes s "" = true.
Proof. destruct s; reflexivity. Qed.

(** *** Lowering ASCII strings *)

Lemma code_inj (c d : ascii) : N_of_ascii c = N_of_ascii d -> c = d.
Proof.
  intros H. rewrite <- (ascii_N_embedding c), <- (ascii_N_embedding d). now rewrite H.
Qed.

Lemma isAscii_app (a b : string) : isAscii (a ++ b) <-> isAscii a /\ isAscii b.
Proof. induction a as [|x a IH]; simpl; [tauto|]. rewrite IH. tauto. Qed.

(** On ASCII strings [toLowerCase] works letter by letter, whatever
    precedes. *)
Lemma lowerFrom_ascii (s : string) :
  isAscii s -> forall before, Js.lowerFrom before s = Js.lowerAscii s.
Proof.
  induction s as [|c r IH]; intros Hs before; [reflexivity|].
  destruct Hs as [Hc Hr]. destruct r as [|d r']; [reflexivity|].
  assert (Hce : (Js.code c =? 0xCE)%N = false)
    by (apply N.eqb_neq; unfold Js.code; lia).
  assert (Hcf : (Js.code c =? 0xCF)%N = false)
    by (apply N.eqb_neq; unfold Js.code; lia).
  change (Js.lowerFrom before (String c (String d r')))
    with (if Js.isSigma c d then
            (if before && negb (Js.casedAhead r') then Js.finalSigma else Js.smallSigma)
            ++ Js.lowerFrom true r'
          else if Js.greekUpper c d then Js.lowerGreek d ++ Js.lowerFrom true r'
          else if Js.greekLower c d then String c (String d (Js.lowerFrom true r'))
          else String (Js.lowerChar c)
                 (Js.lowerFrom (Js.cased1 c || (Js.ignorable1 c && before))
                    (String d r'))).
  unfold Js.isSigma, Js.greekUpper, Js.greekLower. rewrite Hce, Hcf. cbn [andb orb].
  rewrite (IH Hr). reflexivity.
Qed.

Lemma toLowerCase_ascii (s : string) : isAscii s -> Js.toLowerCase s = Js.lowerAscii s.
Proof. intros H. now apply lowerFrom_ascii. Qed.

Lemma lowerAscii_app (a b : string) :
  Js.lowerAscii (a ++ b) = Js.lowerAscii a ++ Js.lowerAscii b.
Proof. induction a as [|c a IH]; simpl; [reflexivity|now rewrite IH]. Qed.

(** A split of the lowered string comes from a split of the string. *)
Lemma lowerAscii_split (s a b : string) :
  Js.lowerAscii s = a ++ b ->
  exists a' b', s = a' ++ b' /\ Js.lowerAscii a' = a /\ Js.lowerAscii b' = b.
Proof.
  revert s. induction a as [|c a IH]; intros s H; simpl in H.
  - now exists "", s.
  - destruct s as [|d s]; [discriminate|]. simpl in H. inversion H as [[Hc Hs]].
    destruct (IH s Hs) as [a' [b' [-> [Ha Hb]]]].
    exists (String d a'), b'. simpl. now rewrite Ha.
Qed.

Lemma isUpper_range (c : ascii) :
  Js.isUpper c = true <-> (65 <= N_of_ascii c <= 90)%N.
Proof.
  unfold Js.isUpper. cbv zeta. rewrite andb_true_iff, !N.leb_le. tauto.
Qed.

Lemma lowerChar_code (c : ascii) :
  N_of_ascii (Js.lowerChar c)
  = (if Js.isUpper c then N_of_ascii c + 32 else N_of_ascii c)%N.
Proof.
  unfold Js.lowerChar. destruct (Js.isUpper c) eqn:H; [|reflexivity].
  apply N_ascii_embedding. apply isUpper_range in H. lia.
Qed.

(** Two characters lower to the same one exactly when they are equal or
    the two forms of one letter. *)
Lemma lowerChar_same (c d : ascii) :
  Js.lowerChar c = Js.lowerChar d <-> sameChar c d.
Proof.
  unfold sameChar. split.
  - intros H. apply (f_equal N_of_ascii) in H. rewrite !lowerChar_code in H.
    destruct (Js.isUpper c) eqn:Hc, (Js.isUpper d) eqn:Hd.
    + left. apply code_inj. lia.
    + right. left. apply isUpper_range in Hc. split; [exact Hc|now symmetry].
    + right. right. apply isUpper_range in Hd. split; [exact Hd|exact H].
    + left. now apply code_inj.
  - intros H. apply code_inj. rewrite !lowerChar_code.
    destruct (Js.isUpper c) eqn:Hc, (Js.isUpper d) eqn:Hd;
      try (apply isUpper_range in Hc); try (apply isUpper_range in Hd);
      try (assert (Hc' : ~ (65 <= N_of_ascii c <= 90)%N)
             by (intros Hx; apply isUpper_range in Hx; congruence));
      try (assert (Hd' : ~ (65 <= N_of_ascii d <= 90)%N)
             by (intros Hx; apply isUpper_range in Hx; congruence));
      destruct H as [->|[[H1 H2]|[H1 H2]]]; lia.
Qed.

Lemma lowerAscii_same (w q : string) :
  Js.lowerAscii w = Js.lowerAscii q <-> sameLetters w q.
Proof.
  split.
  - revert q. induction w as [|c w IH]; intros [|d q] H; simpl in H;
      try discriminate; [constructor|].
    inversion H. constructor; [now apply lowerChar_same|now apply IH].
  - induction 1 as [|c d s t Hcd _ IH]; simpl; [reflexivity|].
    apply lowerChar_same in Hcd. now rewrite Hcd, IH.
Qed.

Lemma sameLetters_ascii (w q : string) : sameLetters w q -> isAscii w -> isAscii q.
Proof.
  induction 1 as [|c d s t Hcd _ IH]; [tauto|]. intros [Hc Hs].
  split; [|now apply IH]. destruct Hcd as [<-|[[H1 H2]|[H1 H2]]]; lia.
Qed.

(** On ASCII strings [searchUsers]'s test is containment up to the case of
    the letters. *)
Lemma includes_lower (name q : string) :
  isAscii name -> isAscii q ->
  (Js.includes (Js.toLowerCase name) (Js.toLowerCase q) = true <-> containsCI name q).
Proof.
  intros Hn Hq. rewrite (toLowerCase_ascii _ Hn), (toLowerCase_ascii _ Hq).
  rewrite includes_spec. split.
  - intros [pre [suf H]].
    destruct (lowerAscii_split _ _ _ H) as [pre' [rest [-> [_ Hrest]]]].
    destruct (lowerAscii_split _ _ _ Hrest) as [w [suf' [-> [Hw _]]]].
    exists pre', w, suf'. split; [reflexivity|now apply lowerAscii_same].
  - intros [pre [w [suf [-> Hw]]]]. apply lowerAscii_same in Hw.
    exists (Js.lowerAscii pre), (Js.lowerAscii suf).
    now rewrite !lowerAscii_app, Hw.
Qed.

(** *** White space *)

Lemma utf8_app (l1 l2 : list N) : utf8 (l1 ++ l2) = utf8 l1 ++ utf8 l2.
Proof.
  induction l1 as [|n l1 IH]; [reflexivity|].
  cbn [utf8 fold_right List.app]. fold (utf8 (l1 ++ l2)). fold (utf8 l1).
  now rewrite IH, app_assoc.
Qed.

Lemma utf8Char_length (n : N) : (1 <= String.length (utf8Char n))%nat.
Proof.
  unfold utf8Char. repeat (destruct (_ <? _)%N); simpl; lia.
Qed.

Lemma trimStart_eq (s : string) :
  Js.trimStart s
  = match Js.afterSpace s with Some r => Js.trimStart r | None => s end.
Proof.
  destruct s as [|c r]; [reflexivity|]. cbn [Js.trimStart Js.afterSpace].
  destruct (Js.isSpace c); [reflexivity|].
  destruct r as [|d r2]; [reflexivity|]. destruct (Js.isSpace2 c d); [reflexivity|].
  destruct r2 as [|e r3]; [reflexivity|]. now destruct (Js.isSpace3 c d e).
Qed.

Lemma afterSpace_shorter (s r : string) :
  Js.afterSpace s = Some r -> (String.length r < String.length s)%nat.
Proof.
  destruct s as [|c [|d [|e r3]]]; cbn [Js.afterSpace];
    repeat (match goal with |- context [if ?b then _ else _] => destruct b end);
    intros [= <-]; simpl; lia.
Qed.

(** A string that starts with one of the white space characters goes on
    after it. *)
Lemma afterSpace_complete (n : N) (r : string) :
  In n whiteSpace -> Js.afterSpace (utf8Char n ++ r) = Some r.
Proof.
  intros H. unfold whiteSpace in H. cbn [In] in H.
  repeat (destruct H as [<-|H]; [reflexivity|]). destruct H.
Qed.

(** What [afterSpace] removes is one of the white space characters. *)
Lemma afterSpace_sound (s r : string) :
  Js.afterSpace s = Some r -> exists n, In n whiteSpace /\ s = utf8Char n ++ r.
Proof.
  destruct s as [|c r1]; [discriminate|]. cbn [Js.afterSpace].
  destruct (Js.isSpace c) eqn:H1.
  { intros [= <-]. exists (N_of_ascii c). unfold Js.isSpace in H1. cbv zeta in H1.
    rewrite orb_true_iff, andb_true_iff, !N.leb_le, N.eqb_eq in H1.
    assert (Hc : (N_of_ascii c = 9 \/ N_of_ascii c = 10 \/ N_of_ascii c = 11
                  \/ N_of_ascii c = 12 \/ N_of_ascii c = 13 \/ N_of_ascii c = 32)%N)
      by lia.
    repeat (destruct Hc as [Hc|Hc]; [rewrite Hc; known_byte c Hc;
             split; [unfold whiteSpace; pick_element|reflexivity]|]).
    rewrite Hc; known_byte c Hc. split; [unfold whiteSpace; pick_element|reflexivity]. }
  destruct r1 as [|d r2]; [discriminate|].
  destruct (Js.isSpace2 c d) eqn:H2.
  { intros [= <-]. exists 0xA0%N. unfold Js.isSpace2, Js.code in H2.
    rewrite andb_true_iff, !N.eqb_eq in H2. destruct H2 as [Hc Hd].
    known_byte c Hc. known_byte d Hd.
    split; [unfold whiteSpace; pick_element|reflexivity]. }
  destruct r2 as [|e r3]; [discriminate|].
  destruct (Js.isSpace3 c d e) eqn:H3; [|discriminate].
  intros [= <-].
  exists ((N_of_ascii c - 0xE0) * 4096 + (N_of_ascii d - 0x80) * 64
          + (N_of_ascii e - 0x80))%N.
  unfold Js.isSpace3, Js.code in H3.
  repeat rewrite ?orb_true_iff, ?andb_true_iff in H3.
  rewrite ?N.leb_le, ?N.eqb_eq in H3.
  assert (He : ((N_of_ascii c = 0xE1 /\ N_of_ascii d = 0x9A /\ N_of_ascii e = 0x80)
            \/ (N_of_ascii c = 0xE2 /\ N_of_ascii d = 0x80
                /\ (N_of_ascii e = 0x80 \/ N_of_ascii e = 0x81 \/ N_of_ascii e = 0x82
                    \/ N_of_ascii e = 0x83 \/ N_of_ascii e = 0x84 \/ N_of_ascii e = 0x85
                    \/ N_of_ascii e = 0x86 \/ N_of_ascii e = 0x87 \/ N_of_ascii e = 0x88
                    \/ N_of_ascii e = 0x89 \/ N_of_ascii e = 0x8A \/ N_of_ascii e = 0xA8
                    \/ N_of_ascii e = 0xA9 \/ N_of_ascii e = 0xAF))
            \/ (N_of_ascii c = 0xE2 /\ N_of_ascii d = 0x81 /\ N_of_ascii e = 0x9F)
            \/ (N_of_ascii c = 0xE3 /\ N_of_ascii d = 0x80 /\ N_of_ascii e = 0x80)
            \/ (N_of_ascii c = 0xEF /\ N_of_ascii d = 0xBB /\ N_of_ascii e = 0xBF))%N)
    by lia.
  clear H1 H2 H3.
  assert (Hdone : forall kc kd ke : N,
            N_of_ascii c = kc -> N_of_ascii d = kd -> N_of_ascii e = ke ->
            In ((kc - 0xE0) * 4096 + (kd - 0x80) * 64 + (ke - 0x80))%N whiteSpace ->
            String (ascii_of_N kc) (String (ascii_of_N kd) (String (ascii_of_N ke) r3))
            = utf8Char ((kc - 0xE0) * 4096 + (kd - 0x80) * 64 + (ke - 0x80))%N ++ r3 ->
            In ((N_of_ascii c - 0xE0) * 4096 + (N_of_ascii d - 0x80) * 64
                + (N_of_ascii e - 0x80))%N whiteSpace
            /\ String c (String d (String e r3))
               = utf8Char ((N_of_ascii c - 0xE0) * 4096 + (N_of_ascii d - 0x80) * 64
                           + (N_of_ascii e - 0x80))%N ++ r3).
  { intros kc kd ke Hc Hd Hk Hin Heq. rewrite Hc, Hd, Hk.
    split; [exact Hin|]. rewrite <- Heq.
    now rewrite <- Hc, <- Hd, <- Hk, !ascii_N_embedding. }
  destruct He as [[Hc [Hd He]]|[[Hc [Hd He]]|[[Hc [Hd He]]|[[Hc [Hd He]]|[Hc [Hd He]]]]]];
    try (apply (Hdone _ _ _ Hc Hd He);
         [vm_compute; pick_element|reflexivity]).
  repeat (destruct He as [He|He];
          [apply (Hdone _ _ _ Hc Hd He); [vm_compute; pick_element|reflexivity]|]).
  apply (Hdone _ _ _ Hc Hd He); [vm_compute; pick_element|reflexivity].
Qed.

Lemma trimStart_utf8 (l : list N) (r : string) :
  Forall (fun n => In n whiteSpace) l -> Js.trimStart (utf8 l ++ r) = Js.trimStart r.
Proof.
  induction 1 as [|n l Hn _ IH]; [reflexivity|].
  cbn [utf8 fold_right]. fold (utf8 l). rewrite app_assoc, trimStart_eq.
  now rewrite (afterSpace_complete n _ Hn).
Qed.

(** [trimStart] removes a run of white space characters, and what is left
    does not start with one. *)
Lemma trimStart_decomp (s : string) :
  exists l, Forall (fun n => In n whiteSpace) l
            /\ s = utf8 l ++ Js.trimStart s
            /\ Js.afterSpace (Js.trimStart s) = None.
Proof.
  remember (String.length s) as k eqn:Hk.
  assert (Hle : (String.length s <= k)%nat) by lia. clear Hk. revert s Hle.
  induction k as [|k IH]; intros s Hle.
  - destruct s; [|simpl in Hle; lia]. exists []. now repeat split.
  - rewrite trimStart_eq. destruct (Js.afterSpace s) as [r|] eqn:Ha.
    + pose proof (afterSpace_shorter _ _ Ha) as Hlt.
      destruct (afterSpace_sound _ _ Ha) as [n [Hn ->]].
      destruct (IH r ltac:(lia)) as [l [Hl [Hr Hnone]]].
      exists (n :: l). split; [now constructor|]. split; [|exact Hnone].
      cbn [utf8 fold_right]. fold (utf8 l). now rewrite app_assoc, <- Hr.
    + exists []. now repeat split.
Qed.

Lemma trimStart_fix (s : string) : Js.afterSpace s = None -> Js.trimStart s = s.
Proof. intros H. now rewrite trimStart_eq, H. Qed.

Lemma trimStart_idem (s : string) : Js.trimStart (Js.trimStart s) = Js.trimStart s.
Proof.
  destruct (trimStart_decomp s) as [l [_ [_ H]]]. now apply trimStart_fix.
Qed.

(** [trimStart] leaves nothing of the blank strings and of no other. *)
Lemma trimStart_Blank (s : string) : Js.trimStart s = "" <-> Blank s.
Proof.
  split.
  - intros H. destruct (trimStart_decomp s) as [l [Hl [Hs _]]].
    exists l. split; [exact Hl|]. rewrite H, app_empty_r in Hs. exact Hs.
  - intros [l [Hl ->]]. rewrite <- (app_empty_r (utf8 l)). now rewrite trimStart_utf8.
Qed.

Lemma Blank_app (a b : string) : Blank a -> Blank b -> Blank (a ++ b).
Proof.
  intros [l1 [H1 ->]] [l2 [H2 ->]]. exists (l1 ++ l2)%list.
  split; [now apply Forall_app|symmetry; apply utf8_app].
Qed.

Lemma trimStart_Blank_app (a b : string) :
  Js.trimStart a = "" -> Js.trimStart (a ++ b) = Js.trimStart b.
Proof.
  intros H. apply trimStart_Blank in H. destruct H as [l [Hl ->]].
  now apply trimStart_utf8.
Qed.

(** [trimEnd] cuts a blank end off. *)
Lemma trimEnd_decomp (s : string) :
  exists w, s = Js.trimEnd s ++ w /\ Js.trimStart w = "".
Proof.
  induction s as [|c r IH]; [now exists ""|].
  cbn [Js.trimEnd].
  destruct (String.eqb_spec (Js.trimStart (String c r)) "") as [He|Hne].
  - now exists (String c r).
  - destruct IH as [w [Hr Hw]]. exists w. split; [|exact Hw].
    simpl. now rewrite <- Hr.
Qed.

(** It cuts the longest blank end off: what it keeps is within every part
    of the string after which only white space follows. *)
Lemma trimEnd_least (a b : string) :
  Js.trimStart b = "" -> exists a', a = Js.trimEnd (a ++ b) ++ a'.
Proof.
  intros Hb. induction a as [|c a IH].
  - exists "". destruct b as [|d b]; [reflexivity|].
    cbn [String.append Js.trimEnd]. now rewrite Hb.
  - cbn [String.append Js.trimEnd].
    destruct (String.eqb_spec (Js.trimStart (String c (a ++ b))) "") as [He|Hne].
    + now exists (String c a).
    + destruct IH as [a' Ha]. exists a'. simpl. now rewrite <- Ha.
Qed.

Lemma trimEnd_idem (s : string) : Js.trimEnd (Js.trimEnd s) = Js.trimEnd s.
Proof.
  induction s as [|c r IH]; [reflexivity|]. cbn [Js.trimEnd].
  destruct (String.eqb_spec (Js.trimStart (String c r)) "") as [He|Hne]; [reflexivity|].
  cbn [Js.trimEnd].
  destruct (String.eqb_spec (Js.trimStart (String c (Js.trimEnd r))) "") as [He'|_].
  - exfalso. apply Hne. destruct (trimEnd_decomp r) as [w [Hr Hw]].
    rewrite Hr. change (String c (Js.trimEnd r ++ w)) with (String c (Js.trimEnd r) ++ w).
    now rewrite (trimStart_Blank_app _ w He').
  - now rewrite IH.
Qed.

(** What [trimEnd] keeps of a string that starts with no white space
    starts with none. *)
Lemma trimEnd_afterSpace (s : string) :
  Js.afterSpace s = None -> Js.afterSpace (Js.trimEnd s) = None.
Proof.
  intros Hs. destruct (Js.afterSpace (Js.trimEnd s)) as [r|] eqn:Ha; [|reflexivity].
  destruct (afterSpace_sound _ _ Ha) as [n [Hn Heq]].
  destruct (trimEnd_decomp s) as [w [Hw _]].
  rewrite Hw, Heq, app_assoc, (afterSpace_complete n _ Hn) in Hs. discriminate.
Qed.

Lemma trim_idem (s : string) : Js.trim (Js.trim s) = Js.trim s.
Proof.
  unfold Js.trim. destruct (trimStart_decomp s) as [l [_ [_ Hnone]]].
  rewrite (trimStart_fix _ (trimEnd_afterSpace _ Hnone)). apply trimEnd_idem.
Qed.

(** [trim] leaves nothing of the blank strings and of no other. *)
Lemma trim_empty (s : string) : Js.trim s = "" <-> Blank s.
Proof.
  rewrite <- trimStart_Blank. unfold Js.trim. split.
  - intros H. destruct (trimEnd_decomp (Js.trimStart s)) as [w [Hs Hw]].
    rewrite H in Hs. simpl in Hs. rewrite <- Hs, trimStart_idem in Hw. exact Hw.
  - intros H. now rewrite H.
Qed.

Lemma trim_length (s : string) :
  (String.length (Js.trim s) =? 0)%nat = true <-> Blank s.
Proof.
  rewrite <- trim_empty. destruct (Js.trim s); simpl; split; congruence.
Qed.

(** [trim] takes a run of white space off each end, and what it keeps has
    white space at neither end. *)
Lemma trim_spec (s : string) :
  exists l1 l2,
    Forall (fun n => In n whiteSpace) l1 /\ Forall (fun n => In n whiteSpace) l2
    /\ s = utf8 l1 ++ Js.trim s ++ utf8 l2
    /\ trimmed (Js.trim s).
Proof.
  unfold Js.trim. destruct (trimStart_decomp s) as [l1 [Hl1 [Hs Hnone]]].
  destruct (trimEnd_decomp (Js.trimStart s)) as [w [Ht Hw]].
  pose proof Hw as Hw'. apply trimStart_Blank in Hw'. destruct Hw' as [l2 [Hl2 ->]].
  exists l1, l2. split; [exact Hl1|]. split; [exact Hl2|]. split.
  - now rewrite <- Ht.
  - intros n r Hn. split.
    + intros Heq. pose proof (trimEnd_afterSpace _ Hnone) as Hx.
      rewrite Heq, (afterSpace_complete n _ Hn) in Hx. discriminate.
    + intros Heq.
      assert (Hblank : Js.trimStart (utf8Char n ++ utf8 l2) = "").
      { rewrite trimStart_eq, (afterSpace_complete n _ Hn). exact Hw. }
      destruct (trimEnd_least r (utf8Char n ++ utf8 l2) Hblank) as [a' Ha].
      assert (Hts : Js.trimStart s = r ++ utf8Char n ++ utf8 l2).
      { rewrite Ht at 1. now rewrite Heq, app_assoc. }
      rewrite <- Hts, Heq in Ha. apply (f_equal String.length) in Ha.
      rewrite !app_length in Ha. pose proof (utf8Char_length n). lia.
Qed.

End StringFacts.

(* ================================================================== *)
(** ** The insertion-ordered map *)

Module MapFacts.

Section WithValues.

Context {V : Type}.
Implicit Types (m : JsMap.t V) (k : string) (v : V).

Lemma get_In m k v : JsMap.get k m = Some v -> In (k, v) m.
Proof.
  induction m as [|[k' v'] m IH]; simpl; [discriminate|].
  destruct (String.eqb_spec k' k) as [->|Hne].
  - intros [= ->]. now left.
  - intros H. right. now apply IH.
Qed.

Lemma get_None m k : JsMap.get k m = None <-> ~ In k (JsMap.keys m).
Proof.
  induction m as [|[k' v'] m IH]; simpl; [tauto|].
  destruct (String.eqb_spec k' k) as [->|Hne].
  - split; [discriminate|]. intros H. exfalso. apply H. now left.
  - rewrite IH. tauto.
Qed.

Lemma get_set_same m k v : JsMap.get k (JsMap.set k v m) = Some v.
Proof.
  induction m as [|[k' v'] m IH]; simpl.
  - now rewrite String.eqb_refl.
  - destruct (String.eqb_spec k' k) as [->|Hne]; simpl.
    + now rewrite String.eqb_refl.
    + apply String.eqb_neq in Hne. now rewrite Hne.
Qed.

Lemma get_set_other m k k' v :
  k' <> k -> JsMap.get k' (JsMap.set k v m) = JsMap.get k' m.
Proof.
  intros Hk. induction m as [|[k0 v0] m IH]; simpl.
  - destruct (String.eqb_spec k k'); congruence.
  - destruct (String.eqb_spec k0 k) as [->|Hne]; simpl.
    + destruct (String.eqb_spec k k'); congruence.
    + destruct (String.eqb_spec k0 k'); congruence.
Qed.

Lemma In_set m k v k' v' :
  In (k', v') (JsMap.set k v m) -> (k' = k /\ v' = v) \/ In (k', v') m.
Proof.
  induction m as [|[k0 v0] m IH]; simpl.
  - intros [[= <- <-]|[]]. now left.
  - destruct (String.eqb_spec k0 k) as [->|Hne]; simpl.
    + intros [[= <- <-]|H]; [now left|right; now right].
    + intros [H|H]; [right; now left|]. destruct (IH H); [now left|right; now right].
Qed.

Lemma values_set m k v v' :
  In v' (JsMap.values (JsMap.set k v m)) -> v' = v \/ In v' (JsMap.values m).
Proof.
  unfold JsMap.values. rewrite !in_map_iff. intros [[k0 v0] [<- H]].
  apply In_set in H. destruct H as [[_ ->]|H]; [now left|right].
  now exists (k0, v0).
Qed.

Lemma keys_set m k v k' :
  In k' (JsMap.keys (JsMap.set k v m)) <-> k' = k \/ In k' (JsMap.keys m).
Proof.
  induction m as [|[k0 v0] m IH]; simpl.
  - intuition congruence.
  - destruct (String.eqb_spec k0 k) as [->|Hne]; simpl.
    + intuition congruence.
    + rewrite IH. intuition congruence.
Qed.

Lemma keys_set_nodup m k v :
  NoDup (JsMap.keys m) -> NoDup (JsMap.keys (JsMap.set k v m)).
Proof.
  induction m as [|[k0 v0] m IH]; simpl; intros H.
  - repeat constructor. intros [].
  - inversion H as [|? ? Hk0 Hm]; subst.
    destruct (String.eqb_spec k0 k) as [->|Hne]; simpl.
    + now constructor.
    + constructor; [|now apply IH].
      rewrite keys_set. intros [Heq|Hin]; congruence.
Qed.

(** Writing a value whose [f]-image is new keeps the [f]-images distinct,
    whether the key was present or not. *)
Lemma values_set_nodup {B : Type} (f : V -> B) m k v :
  NoDup (map f (JsMap.values m)) ->
  (forall v', In v' (JsMap.values m) -> f v' <> f v) ->
  NoDup (map f (JsMap.values (JsMap.set k v m))).
Proof.
  induction m as [|[k0 v0] m IH]; simpl; intros Hnd Hnew.
  - repeat constructor. intros [].
  - inversion Hnd as [|? ? Hv0 Hm]; subst.
    destruct (String.eqb_spec k0 k) as [->|Hne]; simpl.
    + constructor; [|exact Hm]. intros Hin. apply in_map_iff in Hin.
      destruct Hin as [v' [Heq Hv']]. apply (Hnew v'); [now right|exact Heq].
    + constructor.
      * intros Hin. apply in_map_iff in Hin. destruct Hin as [v' [Heq Hv']].
        apply values_set in Hv'. destruct Hv' as [->|Hv'].
        -- apply (Hnew v0); [now left|now symmetry].
        -- apply Hv0. apply in_map_iff. now exists v'.
      * apply IH; [exact Hm|]. intros v' Hv'. apply Hnew. now right.
Qed.

End WithValues.

Lemma has_In (x : string) (s : JsSet.t) : JsSet.has x s = true <-> In x s.
Proof.
  unfold JsSet.has. rewrite existsb_exists. split.
  - intros [y [Hy Heq]]. apply String.eqb_eq in Heq. now subst.
  - intros H. exists x. split; [exact H|apply String.eqb_refl].
Qed.

Lemma add_In (x y : string) (s : JsSet.t) : In y (JsSet.add x s) <-> y = x \/ In y s.
Proof.
  unfold JsSet.add. destruct (JsSet.has x s) eqn:H.
  - apply has_In in H. intuition congruence.
  - rewrite in_app_iff. simpl. intuition congruence.
Qed.

Lemma add_nodup (x : string) (s : JsSet.t) : NoDup s -> NoDup (JsSet.add x s).
Proof.
  intros Hs. unfold JsSet.add. destruct (JsSet.has x s) eqn:H; [exact Hs|].
  apply NoDup_app; [exact Hs|repeat constructor; intros []|].
  intros y Hy [<-|[]]. apply has_In in Hy. congruence.
Qed.

End MapFacts.

(* ================================================================== *)
(** ** What the writing routes do to the store *)

Module RouteFacts.
Import Schema Storage Routes Props MapFacts.

Lemma requireAuth_Some (session : option string) (uid : string) :
  requireAuth session = Some uid -> session = Some uid /\ Js.truthy session = true.
Proof.
  unfold requireAuth. destruct (Js.truthy session) eqn:H; [|discriminate].
  intros ->. now split.
Qed.

Lemma requireAuth_truthy (session : option string) :
  Js.truthy session = true -> exists uid, requireAuth session = Some uid.
Proof.
  unfold requireAuth. intros H. rewrite H.
  destruct session as [uid|]; [now exists uid|discriminate].
Qed.

Lemma insertMessageSchema_Success (b d : InsertMessage) :
  insertMessageSchema b = Success d ->
  d = b /\ Js.truthy (im_recipientId b) = negb (Js.truthy (im_groupId b)).
Proof.
  unfold insertMessageSchema.
  destruct (Js.truthy (im_recipientId b)), (Js.truthy (im_groupId b)); simpl;
    intros [=]; now subst.
Qed.

Lemma insertMessageSchema_Failure (b : InsertMessage) :
  Js.truthy (im_recipientId b) = Js.truthy (im_groupId b) ->
  insertMessageSchema b
  = Failure "Message must have either recipientId or groupId, not both".
Proof.
  unfold insertMessageSchema. intros ->.
  now destruct (Js.truthy (im_groupId b)).
Qed.

Lemma getUserByUsername_None (st : MemStorage) (name : string) :
  getUserByUsername st name = None ->
  forall u, In u (JsMap.values (users st)) -> username u <> name.
Proof.
  unfold getUserByUsername. intros H u Hu Heq.
  apply (find_none _ _ H) in Hu. apply String.eqb_neq in Hu. contradiction.
Qed.

Lemma getUserByUsername_Some (st : MemStorage) (u : User) :
  In u (JsMap.values (users st)) -> getUserByUsername st (username u) <> None.
Proof.
  intros Hu H. now apply (getUserByUsername_None _ _ H u Hu).
Qed.

(** [signup] leaves the store alone or runs [createUser] on a free name. *)
Lemma signup_storage (b : InsertUser) (uuid hash : string) (srv : Server) :
  fst (signup b uuid hash srv) = srv
  \/ (getUserByUsername (storage srv) (iu_username b) = None
      /\ fst (signup b uuid hash srv)
         = mkServer (fst (createUser uuid hash b (storage srv))) (clients srv)).
Proof.
  unfold signup, insertUserSchema.
  destruct (String.length (iu_password b) <? 6)%nat; [now left|].
  destruct (getUserByUsername (storage srv) (iu_username b)); [now left|].
  right. now split.
Qed.

(** [postGroups] leaves the store alone or runs [createGroup]. *)
Lemma postGroups_storage (session : option string) (b : InsertGroup)
    (uuid : string) (now : Z) (srv : Server) :
  fst (postGroups session b uuid now srv) = srv
  \/ exists uid,
       fst (postGroups session b uuid now srv)
       = mkServer (fst (createGroup uuid now uid b (storage srv))) (clients srv).
Proof.
  unfold postGroups. destruct (requireAuth session) as [uid|]; [|now left].
  unfold insertGroupSchema. destruct (ig_memberIds b) eqn:Hm; [now left|].
  right. exists uid. cbn [createGroup fst].
  now destruct (getGroupWithMembers _ _).
Qed.

(** [postMessages] leaves the store alone or runs [createMessage] on a body
    that passed the refinement; only the sockets' [sent] may change. *)
Lemma postMessages_storage (session : option string) (b : InsertMessage)
    (uuid : string) (now : Z) (srv : Server) :
  fst (postMessages session b uuid now srv) = srv
  \/ exists uid,
       Js.truthy (im_recipientId b) = negb (Js.truthy (im_groupId b))
       /\ storage (fst (postMessages session b uuid now srv))
          = fst (createMessage uuid now uid b (storage srv)).
Proof.
  unfold postMessages. destruct (requireAuth session) as [uid|]; [|now left].
  destruct (insertMessageSchema b) as [d|msg] eqn:Hs; [|now left].
  apply insertMessageSchema_Success in Hs. destruct Hs as [-> Hx].
  right. exists uid. split; [exact Hx|].
  cbn [createMessage fst snd].
  repeat match goal with
         | |- context [match ?x with _ => _ end] => destruct x
         end; reflexivity.
Qed.

(** An invariant of every step holds after every trace. *)
Lemma run_invariant (P : Server -> Prop) :
  (forall srv e, P srv -> P (step srv e)) ->
  forall trace srv, P srv -> P (run trace srv).
Proof.
  intros Hstep trace. unfold run.
  induction trace as [|e trace IH]; intros srv H; simpl; [exact H|].
  apply IH. now apply Hstep.
Qed.

Lemma step_storeStep (srv : Server) (e : Event) :
  storeStep (storage srv) (storage (step srv e)).
Proof.
  destruct e as [b uuid hash|s b uuid now|s b uuid now|g u|g u|id|id|id];
    cbn [step storage]; try constructor.
  - destruct (signup_storage b uuid hash srv) as [->|[Hfree ->]];
      [constructor|now constructor].
  - destruct (postGroups_storage s b uuid now srv) as [->|[uid ->]]; constructor.
  - destruct (postMessages_storage s b uuid now srv) as [->|[uid [Hx ->]]];
      [constructor|now constructor].
Qed.

End RouteFacts.

(* ================================================================== *)
(** ** Invariants of the store *)

Module Invariants.
Import Schema Storage Routes Props MapFacts RouteFacts.

Lemma orNull_normal (o : option string) : Js.orNull o <> Some "".
Proof.
  unfold Js.orNull, Js.truthy. destruct o as [s|]; [|discriminate].
  destruct (String.eqb_spec s ""); simpl; congruence.
Qed.

Lemma orNull_truthy (o : option string) :
  Js.truthy o = true -> Js.orNull o = o /\ o <> None.
Proof.
  unfold Js.orNull. intros H. rewrite H. split; [reflexivity|].
  intros ->. discriminate.
Qed.

Lemma orNull_falsy (o : option string) : Js.truthy o = false -> Js.orNull o = None.
Proof. unfold Js.orNull. now intros ->. Qed.

Lemma usernames_step (st st' : MemStorage) :
  storeStep st st' ->
  NoDup (map username (JsMap.values (users st))) ->
  NoDup (map username (JsMap.values (users st'))).
Proof.
  intros [|uuid hash b Hfree|uuid now uid b|uuid now uid b Hx|g u|g u] H;
    try exact H; cbn [createUser fst users].
  - apply values_set_nodup; [exact H|]. intros v' Hv'. cbn [username].
    now apply (getUserByUsername_None st).
  - unfold addGroupMember. now destruct (JsMap.get g (groupMembers st)).
  - unfold removeGroupMember. now destruct (JsMap.get g (groupMembers st)).
Qed.

Lemma addressed_step (st st' : MemStorage) :
  storeStep st st' ->
  (forall m, In m (JsMap.values (messages st)) -> addressed m) ->
  forall m, In m (JsMap.values (messages st')) -> addressed m.
Proof.
  intros [|uuid hash b Hfree|uuid now uid b|uuid now uid b Hx|g u|g u] H m;
    try apply H; cbn [createMessage fst messages].
  - intros Hm. apply values_set in Hm. destruct Hm as [->|Hm]; [|now apply H].
    unfold addressed. cbn [recipientId groupId].
    destruct (Js.truthy (im_groupId b)) eqn:Hg; simpl in Hx.
    + right. apply orNull_falsy in Hx. apply orNull_truthy in Hg.
      destruct Hg as [-> Hg]. now split.
    + left. apply orNull_falsy in Hg. apply orNull_truthy in Hx.
      destruct Hx as [-> Hx]. now split.
  - unfold addGroupMember. destruct (JsMap.get g (groupMembers st)); apply H.
  - unfold removeGroupMember. destruct (JsMap.get g (groupMembers st)); apply H.
Qed.

Lemma wellFormed_empty : wellFormed Storage.empty.
Proof.
  constructor; simpl; try (intros; contradiction). constructor.
Qed.

Lemma wellFormed_members (st : MemStorage) (g : string) (s s' : JsSet.t) :
  wellFormed st -> JsMap.get g (groupMembers st) = Some s ->
  wellFormed (mkMemStorage (users st) (messages st) (groups st)
                (JsMap.set g s' (groupMembers st))).
Proof.
  intros [Hu Hg Hnd Hmg Hm] Hget. constructor; cbn; try assumption.
  - now apply keys_set_nodup.
  - intros k Hk. apply keys_set in Hk. apply Hmg. destruct Hk as [->|Hk]; [|exact Hk].
    apply get_In in Hget. apply in_map_iff. now exists (g, s).
Qed.

Lemma wellFormed_step (st st' : MemStorage) :
  storeStep st st' -> wellFormed st -> wellFormed st'.
Proof.
  intros [|uuid hash b Hfree|uuid now uid b|uuid now uid b Hx|g u|g u] Hwf;
    try exact Hwf.
  - destruct Hwf as [Hu Hg Hnd Hmg Hm]. constructor; cbn; try assumption.
    intros k u Hin. apply In_set in Hin. destruct Hin as [[-> ->]|Hin]; [reflexivity|].
    now apply Hu.
  - destruct Hwf as [Hu Hg Hnd Hmg Hm]. constructor; cbn; try assumption.
    + intros k g Hin. apply In_set in Hin.
      destruct Hin as [[-> ->]|Hin]; [reflexivity|now apply Hg].
    + now apply keys_set_nodup.
    + intros k Hk. apply keys_set in Hk.
      destruct (String.eqb_spec k uuid) as [->|Hne].
      * rewrite get_set_same. discriminate.
      * rewrite get_set_other by exact Hne. apply Hmg. now destruct Hk.
  - destruct Hwf as [Hu Hg Hnd Hmg Hm]. constructor; cbn; try assumption.
    intros m Hin. apply values_set in Hin. destruct Hin as [->|Hin]; [|now apply Hm].
    split; cbn; apply orNull_normal.
  - unfold addGroupMember. destruct (JsMap.get g (groupMembers st)) eqn:Hget;
      [|exact Hwf]. now apply (wellFormed_members st g t).
  - unfold removeGroupMember. destruct (JsMap.get g (groupMembers st)) eqn:Hget;
      [|exact Hwf]. now apply (wellFormed_members st g t).
Qed.

(** Every store reached through the server is well formed. *)
Lemma wellFormed_run (trace : list Event) :
  wellFormed (storage (run trace start)).
Proof.
  apply (run_invariant (fun srv => wellFormed (storage srv))).
  - intros srv e. apply wellFormed_step, step_storeStep.
  - apply wellFormed_empty.
Qed.

End Invariants.

(* ================================================================== *)
(** ** The conversation list *)

Module ConversationFacts.
Import Schema Storage Props MapFacts.

Lemma normalized_truthy (o : option string) :
  o <> Some "" -> Js.truthy o = match o with Some _ => true | None => false end.
Proof.
  destruct o as [s|]; [|reflexivity]. intros H. simpl.
  destruct (String.eqb_spec s ""); [congruence|reflexivity].
Qed.

(** One round of the scan adds the counterpart of a direct message that
    touches [u], and nothing else. *)
Lemma collectOther_In (u c : string) (acc : JsSet.t) (m : Message) :
  normalized m ->
  In c (collectOther u acc m) <->
  In c acc \/ (isDirect m /\ ((senderId m = u /\ recipientId m = Some c)
                              \/ (senderId m = c /\ recipientId m = Some u))).
Proof.
  intros [Hr Hg]. unfold collectOther, isDirect.
  rewrite (normalized_truthy _ Hr), (normalized_truthy _ Hg).
  destruct (groupId m) as [g|]; simpl.
  { split; [now left|]. intros [H|[H _]]; [exact H|discriminate]. }
  destruct (recipientId m) as [r|]; simpl.
  - destruct (String.eqb_spec (senderId m) u) as [Hs|Hs]; simpl.
    + rewrite add_In. split.
      * intros [->|H]; [right|now left]. split; [reflexivity|]. now left.
      * intros [H|[_ [[_ [= ->]]|[Hc [= ->]]]]]; [now right|now left|left; congruence].
    + destruct (String.eqb_spec r u) as [->|Hru].
      * rewrite add_In. split.
        -- intros [->|H]; [right|now left]. split; [reflexivity|]. now right.
        -- intros [H|[_ [[Hc _]|[Hc _]]]]; [now right|contradiction|now left].
      * split; [now left|].
        intros [H|[_ [[Hc _]|[_ [= Hc]]]]]; [exact H|contradiction|contradiction].
  - rewrite andb_false_r. split; [now left|].
    intros [H|[_ [[_ H]|[_ H]]]]; [exact H|discriminate|discriminate].
Qed.

Lemma collectOther_nodup (u : string) (acc : JsSet.t) (m : Message) :
  NoDup acc -> NoDup (collectOther u acc m).
Proof.
  intros H. unfold collectOther.
  repeat match goal with
         | |- context [if ?b then _ else _] => destruct b
         | |- context [match ?o with Some _ => _ | None => _ end] => destruct o
         end; try exact H; now apply add_nodup.
Qed.

Lemma scan_nodup (u : string) (msgs : list Message) (acc : JsSet.t) :
  NoDup acc -> NoDup (fold_left (collectOther u) msgs acc).
Proof.
  revert acc. induction msgs as [|m msgs IH]; intros acc H; simpl; [exact H|].
  apply IH. now apply collectOther_nodup.
Qed.

Lemma scan_In (u c : string) (msgs : list Message) (acc : JsSet.t) :
  (forall m, In m msgs -> normalized m) ->
  In c (fold_left (collectOther u) msgs acc) <->
  In c acc \/ exists m, In m msgs /\ isDirect m /\
                 ((senderId m = u /\ recipientId m = Some c)
                  \/ (senderId m = c /\ recipientId m = Some u)).
Proof.
  revert acc. induction msgs as [|m msgs IH]; intros acc Hn; simpl.
  - split; [now left|]. intros [H|[m [[] _]]]. exact H.
  - rewrite IH by (intros m' Hm'; apply Hn; now right).
    rewrite collectOther_In by (apply Hn; now left). split.
    + intros [[H|H]|[m' [Hin H]]].
      * now left.
      * right. exists m. split; [now left|exact H].
      * right. exists m'. split; [now right|exact H].
    + intros [H|[m' [[<-|Hin] H]]].
      * left. now left.
      * left. now right.
      * right. now exists m'.
Qed.

(** The direct conversations: one per counterpart that has a user record. *)
Lemma direct_keys (st : MemStorage) (u : string) :
  wellFormed st ->
  map convKey (directConversations st u)
  = map (fun c => (direct, Some c))
      (filter (fun c => match getUser st c with Some _ => true | None => false end)
              (fold_left (collectOther u) (JsMap.values (messages st)) [])).
Proof.
  intros Hwf. unfold directConversations.
  induction (fold_left _ _ _) as [|c l IH]; [reflexivity|].
  cbn [flat_map filter]. rewrite map_app, IH.
  destruct (getUser st c) as [user|] eqn:Hget; [|reflexivity].
  cbn. unfold getUser in Hget. apply get_In in Hget.
  now rewrite (wf_user_key st Hwf _ _ Hget).
Qed.

Lemma In_get {V : Type} (m : JsMap.t V) (k : string) (v : V) :
  NoDup (JsMap.keys m) -> In (k, v) m -> JsMap.get k m = Some v.
Proof.
  induction m as [|[k0 v0] m IH]; simpl; [intros _ []|].
  intros Hnd Hin. inversion Hnd as [|? ? Hk0 Hm]; subst.
  destruct Hin as [[= -> ->]|Hin].
  - now rewrite String.eqb_refl.
  - destruct (String.eqb_spec k0 k) as [->|Hne]; [|now apply IH].
    exfalso. apply Hk0. apply in_map_iff. now exists (k, v).
Qed.

Lemma nodup_filter_keys {V : Type} (p : string * V -> bool) (m : JsMap.t V) :
  NoDup (JsMap.keys m) -> NoDup (JsMap.keys (filter p m)).
Proof.
  unfold JsMap.keys. induction m as [|kv m IH]; simpl; intros H; [constructor|].
  inversion H as [|? ? Hk Hm]; subst.
  destruct (p kv); simpl; [|now apply IH].
  constructor; [|now apply IH]. intros Hin. apply Hk.
  apply in_map_iff in Hin. destruct Hin as [kv' [Heq Hin]].
  apply filter_In in Hin. apply in_map_iff. exists kv'. tauto.
Qed.

(** The groups of [u]: the keys of the membership sets that hold [u]. *)
Lemma groups_keys (st : MemStorage) (u : string) :
  wellFormed st ->
  map (fun g => group_id (gwm_group g)) (getGroupsForUser st u)
  = JsMap.keys (filter (fun entry => JsSet.has u (snd entry)) (groupMembers st)).
Proof.
  intros Hwf. unfold getGroupsForUser.
  assert (Hsub : forall k, In k (JsMap.keys (groupMembers st)) ->
                           JsMap.get k (groups st) <> None)
    by apply (wf_members_group st Hwf).
  induction (groupMembers st) as [|[k s] l IH]; [reflexivity|].
  cbn [flat_map filter snd fst]. rewrite map_app, IH by (intros k' Hk'; apply Hsub; now right).
  destruct (JsSet.has u s); [|reflexivity].
  unfold getGroupWithMembers.
  destruct (JsMap.get k (groups st)) as [g|] eqn:Hg.
  - cbn. apply get_In in Hg. now rewrite (wf_group_key st Hwf _ _ Hg).
  - exfalso. apply (Hsub k); [now left|exact Hg].
Qed.

Lemma group_conv_keys (st : MemStorage) (u : string) :
  map convKey (groupConversations st u)
  = map (fun g => (groupConv, Some (group_id (gwm_group g)))) (getGroupsForUser st u).
Proof.
  unfold groupConversations. rewrite map_map. reflexivity.
Qed.

End ConversationFacts.

(* ================================================================== *)
(** ** The message store *)

(** C5.  For users [s] and [r] and a direct message [m] between them, in
    either direction, whose two users exist, [getMessagesBetweenUsers s r]
    and [getMessagesBetweenUsers r s] are the same sequence; it contains [m];
    it ascends in creation time; and messages created at the same instant
    keep the order in which they were inserted in the log. *)
Theorem messagesBetween_symmetric_ordered
    (st : Storage.MemStorage) (s r : string) (m : Schema.Message) :
  In m (JsMap.values (Storage.messages st)) ->
  (Schema.senderId m = s /\ Schema.recipientId m = Some r)
  \/ (Schema.senderId m = r /\ Schema.recipientId m = Some s) ->
  Storage.getUser st s <> None ->
  Storage.getUser st r <> None ->
  Storage.getMessagesBetweenUsers st s r = Storage.getMessagesBetweenUsers st r s
  /\ In m (map Schema.mwu_message (Storage.getMessagesBetweenUsers st s r))
  /\ StronglySorted (fun a b => Schema.createdAt a <= Schema.createdAt b)
       (map Schema.mwu_message (Storage.getMessagesBetweenUsers st s r))
  /\ (forall t,
        filter (Props.atTime t)
          (map Schema.mwu_message (Storage.getMessagesBetweenUsers st s r))
        = filter (Props.atTime t)
            (filter (fun x => Storage.between s r x && Props.directEnrichable st x)
                    (JsMap.values (Storage.messages st)))).
Proof.
  intros Hin Hdir Hus Hur. split; [|split; [|split]].
  - apply ReadFacts.between_symmetric.
  - rewrite ReadFacts.between_messages. apply filter_In. split.
    + apply sortBy_In, filter_In. split; [exact Hin|].
      unfold Storage.between.
      destruct Hdir as [[-> ->]|[-> ->]]; simpl; rewrite !String.eqb_refl;
        [reflexivity|apply orb_true_r].
    + unfold Props.directEnrichable.
      destruct Hdir as [[-> ->]|[-> ->]]; simpl;
        destruct (Storage.getUser st s); try congruence;
        destruct (Storage.getUser st r); congruence.
  - apply ReadFacts.between_sorted.
  - apply ReadFacts.between_stable.
Qed.

Lemma messagesBetween_symmetric_ordered_witness :
  Storage.getMessagesBetweenUsers Demo.store "u1" "u4"
  = Storage.getMessagesBetweenUsers Demo.store "u4" "u1"
  /\ In Demo.hi (map Schema.mwu_message (Storage.getMessagesBetweenUsers Demo.store "u1" "u4")).
Proof.
  destruct (messagesBetween_symmetric_ordered Demo.store "u1" "u4" Demo.hi)
    as [Hsym [Hin _]].
  - vm_compute. tauto.
  - left. split; reflexivity.
  - vm_compute. discriminate.
  - vm_compute. discriminate.
  - now split.
Defined.

(** Two messages of one instant come back in the order of the log. *)
Example same_instant_in_log_order :
  map (fun e => Schema.message_id (Schema.mwu_message e))
      (Storage.getMessagesBetweenUsers Demo.store "u4" "u1") = ["m1"; "m2"].
Proof. reflexivity. Qed.

(** C10.  A stored message whose sender or recipient has no user record is
    in no answer of [getMessagesBetweenUsers]; a stored message whose sender
    has no user record, or whose group has no group record, is in no answer of
    [getGroupMessages].  Nothing else is dropped: each answer is the selected
    and sorted part of the log without exactly those messages.  The reads take
    the store and return no new one, so the log keeps the message. *)
Theorem dangling_messages_omitted (st : Storage.MemStorage) (m : Schema.Message) :
  In m (JsMap.values (Storage.messages st)) ->
  (forall u1 u2,
      Storage.getUser st (Schema.senderId m) = None
      \/ Storage.getUserOpt st (Schema.recipientId m) = None ->
      ~ In m (map Schema.mwu_message (Storage.getMessagesBetweenUsers st u1 u2)))
  /\ (forall g,
        Storage.getUser st (Schema.senderId m) = None
        \/ Storage.getGroup st g = None ->
        ~ In m (map Schema.mwu_message (Storage.getGroupMessages st g)))
  /\ (forall u1 u2,
        map Schema.mwu_message (Storage.getMessagesBetweenUsers st u1 u2)
        = filter (Props.directEnrichable st)
            (sortBy Storage.byTimeAsc
               (filter (Storage.between u1 u2) (JsMap.values (Storage.messages st)))))
  /\ (forall g,
        map Schema.mwu_message (Storage.getGroupMessages st g)
        = filter (Props.groupEnrichable st g)
            (sortBy Storage.byTimeAsc
               (filter (fun msg => Js.optEq (Schema.groupId msg) g)
                       (JsMap.values (Storage.messages st))))).
Proof.
  intros _. repeat split.
  - intros u1 u2 Hdangling Hin. rewrite ReadFacts.between_messages in Hin.
    apply filter_In in Hin. destruct Hin as [_ He].
    unfold Props.directEnrichable in He.
    destruct Hdangling as [H|H]; rewrite H in He; [discriminate|].
    now destruct (Storage.getUser st (Schema.senderId m)).
  - intros g Hdangling Hin. rewrite ReadFacts.group_messages in Hin.
    apply filter_In in Hin. destruct Hin as [_ He].
    unfold Props.groupEnrichable in He.
    destruct Hdangling as [H|H]; rewrite H in He; [discriminate|].
    now destruct (Storage.getUser st (Schema.senderId m)).
  - apply ReadFacts.between_messages.
  - apply ReadFacts.group_messages.
Qed.

Lemma dangling_messages_omitted_witness :
  In Demo.ghostMessage (JsMap.values (Storage.messages Demo.store))
  /\ ~ In Demo.ghostMessage
         (map Schema.mwu_message (Storage.getMessagesBetweenUsers Demo.store "u1" "ghost")).
Proof.
  assert (Hin : In Demo.ghostMessage (JsMap.values (Storage.messages Demo.store)))
    by (vm_compute; tauto).
  split; [exact Hin|].
  destruct (dangling_messages_omitted Demo.store Demo.ghostMessage Hin) as [H _].
  apply H. right. reflexivity.
Defined.

(* ================================================================== *)
(** ** The conversation aggregator *)

Module AggregatorFacts.
Import Schema Storage Props MapFacts ConversationFacts.

Lemma byLastDesc_key (a b : Conversation) :
  byLastDesc a b <= 0 <-> - convTime a <= - convTime b.
Proof. unfold byLastDesc. lia. Qed.

Lemma StronglySorted_impl {A : Type} (R S : A -> A -> Prop) (l : list A) :
  (forall a b, R a b -> S a b) -> StronglySorted R l -> StronglySorted S l.
Proof.
  intros H. induction 1 as [|x r Hr IH Hx]; constructor; [exact IH|].
  rewrite Forall_forall in *. intros y Hy. apply H. now apply Hx.
Qed.

Lemma StronglySorted_later {A : Type} (R : A -> A -> Prop) (l1 l2 : list A) (a b : A) :
  StronglySorted R (l1 ++ a :: l2) -> In b l2 -> R a b.
Proof.
  induction l1 as [|x l1 IH]; simpl; intros H Hb.
  - inversion H as [|? ? _ Hall]; subst. rewrite Forall_forall in Hall. now apply Hall.
  - inversion H; subst. now apply IH.
Qed.

Lemma conversations_perm (st : MemStorage) (u : string) :
  Permutation (getConversationsForUser st u)
    (directConversations st u ++ groupConversations st u).
Proof. apply sortBy_perm. Qed.

Lemma conversations_sorted (st : MemStorage) (u : string) :
  StronglySorted (fun a b => convTime a >= convTime b) (getConversationsForUser st u).
Proof.
  apply (StronglySorted_impl (fun a b => - convTime a <= - convTime b)); [intros; lia|].
  apply (sortBy_sorted byLastDesc (fun c => - convTime c) byLastDesc_key).
Qed.

Lemma hd_sorted_In (l : list Message) (m : Message) :
  hd_error (sortBy byTimeDesc l) = Some m -> In m l.
Proof.
  intros H. apply (sortBy_In byTimeDesc). destruct (sortBy byTimeDesc l); [discriminate|].
  inversion H. now left.
Qed.

(** The last message of a conversation is a message of the log. *)
Lemma lastMessage_stored (st : MemStorage) (u : string) (c : Conversation) (m : Message) :
  In c (getConversationsForUser st u) -> lastMessage c = Some m ->
  In m (JsMap.values (messages st)).
Proof.
  intros Hc Hm. apply (Permutation_in _ (conversations_perm st u)) in Hc.
  apply in_app_iff in Hc. destruct Hc as [Hc|Hc].
  - unfold directConversations in Hc. apply in_flat_map in Hc.
    destruct Hc as [c' [_ Hc]]. destruct (getUser st c'); [|contradiction].
    destruct Hc as [<-|[]]. cbn in Hm. apply hd_sorted_In in Hm.
    now apply filter_In in Hm.
  - unfold groupConversations in Hc. apply in_map_iff in Hc.
    destruct Hc as [g [<- _]]. cbn in Hm. apply hd_sorted_In in Hm.
    now apply filter_In in Hm.
Qed.

Lemma direct_key_In (st : MemStorage) (u c : string) :
  wellFormed st ->
  In (direct, Some c) (map convKey (directConversations st u)) <->
  counterpart st u c /\ getUser st c <> None.
Proof.
  intros Hwf. rewrite (direct_keys st u Hwf), in_map_iff. split.
  - intros [c' [[= ->] Hin]]. apply filter_In in Hin. destruct Hin as [Hin Hget].
    apply scan_In in Hin; [|apply (wf_messages st Hwf)].
    destruct Hin as [[]|Hin]. split; [exact Hin|].
    now destruct (getUser st c).
  - intros [Hc Hget]. exists c. split; [reflexivity|]. apply filter_In. split.
    + apply scan_In; [apply (wf_messages st Hwf)|]. now right.
    + now destruct (getUser st c).
Qed.

Lemma group_key_In (st : MemStorage) (u g : string) :
  wellFormed st ->
  In (groupConv, Some g) (map convKey (groupConversations st u)) <-> memberOf st g u.
Proof.
  intros Hwf. rewrite group_conv_keys.
  rewrite <- (map_map (fun x => group_id (gwm_group x)) (fun i => (groupConv, Some i))).
  rewrite (groups_keys st u Hwf), in_map_iff. unfold memberOf. split.
  - intros [g' [[= ->] Hin]]. apply in_map_iff in Hin.
    destruct Hin as [[k s] [Hk Hin]]. simpl in Hk. subst k.
    apply filter_In in Hin. destruct Hin as [Hin Hhas]. simpl in Hhas.
    exists s. split; [|now apply has_In].
    apply In_get; [apply (wf_members_nodup st Hwf)|exact Hin].
  - intros [s [Hget Hu]]. exists g. split; [reflexivity|].
    apply in_map_iff. exists (g, s). split; [reflexivity|].
    apply filter_In. split; [now apply get_In|]. simpl. now apply has_In.
Qed.

Lemma keys_nodup (st : MemStorage) (u : string) :
  wellFormed st ->
  NoDup (map convKey (directConversations st u ++ groupConversations st u)).
Proof.
  intros Hwf. rewrite map_app. apply NoDup_app.
  - rewrite (direct_keys st u Hwf). apply Finite.Injective_map_NoDup.
    + intros a b [=]. assumption.
    + apply NoDup_filter, scan_nodup. constructor.
  - rewrite group_conv_keys.
    rewrite <- (map_map (fun x => group_id (gwm_group x)) (fun i => (groupConv, Some i))).
    rewrite (groups_keys st u Hwf). apply Finite.Injective_map_NoDup.
    + intros a b [=]. assumption.
    + apply nodup_filter_keys, (wf_members_nodup st Hwf).
  - intros k Hd Hg. rewrite (direct_keys st u Hwf) in Hd. rewrite group_conv_keys in Hg.
    apply in_map_iff in Hd. apply in_map_iff in Hg.
    destruct Hd as [? [<- _]]. destruct Hg as [? [[=] _]].
Qed.

End AggregatorFacts.

(** C4, as the code has it.  In a well-formed store the list of
    [getConversationsForUser u] holds each conversation once; its direct
    conversations are those of the counterparts of [u] that have a user
    record; its group conversations are those of the groups [u] belongs to;
    it holds nothing else; it descends in the creation time of the last
    message, a missing last message counting as time zero; and when every stored
    message was created after the epoch, a conversation without a message
    is followed only by conversations without a message. *)
Theorem conversations_exact_sorted (st : Storage.MemStorage) (u : string) :
  Props.wellFormed st ->
  let cs := Storage.getConversationsForUser st u in
  NoDup (map Props.convKey cs)
  /\ (forall c, In (Schema.direct, Some c) (map Props.convKey cs) <->
                Props.counterpart st u c /\ Storage.getUser st c <> None)
  /\ (forall g, In (Schema.groupConv, Some g) (map Props.convKey cs) <->
                Props.memberOf st g u)
  /\ (forall k, In k (map Props.convKey cs) -> exists t i, k = (t, Some i))
  /\ StronglySorted
       (fun a b =>
          match Schema.lastMessage a with Some m => Schema.createdAt m | None => 0 end
          >= match Schema.lastMessage b with Some m => Schema.createdAt m | None => 0 end)
       cs
  /\ ((forall m, In m (JsMap.values (Storage.messages st)) -> 0 < Schema.createdAt m) ->
      forall l1 a l2, cs = (l1 ++ a :: l2)%list -> Schema.lastMessage a = None ->
      forall b, In b l2 -> Schema.lastMessage b = None).
Proof.
  intros Hwf cs.
  assert (Hperm : Permutation (map Props.convKey cs)
                    (map Props.convKey (Storage.directConversations st u
                                        ++ Storage.groupConversations st u)))
    by apply Permutation_map, AggregatorFacts.conversations_perm.
  assert (Hin : forall k, In k (map Props.convKey cs) <->
                  In k (map Props.convKey (Storage.directConversations st u))
                  \/ In k (map Props.convKey (Storage.groupConversations st u))).
  { intros k. rewrite <- in_app_iff, <- map_app.
    split; apply Permutation_in; [exact Hperm|now symmetry]. }
  split; [|split; [|split; [|split; [|split]]]].
  - apply (Permutation_NoDup (Permutation_sym Hperm)).
    now apply AggregatorFacts.keys_nodup.
  - intros c. rewrite <- (AggregatorFacts.direct_key_In st u c Hwf), Hin.
    split; [|now left]. intros [H|H]; [exact H|].
    rewrite ConversationFacts.group_conv_keys in H. apply in_map_iff in H.
    destruct H as [? [[=] _]].
  - intros g. rewrite <- (AggregatorFacts.group_key_In st u g Hwf), Hin.
    split; [|now right]. intros [H|H]; [|exact H].
    rewrite (ConversationFacts.direct_keys st u Hwf) in H. apply in_map_iff in H.
    destruct H as [? [[=] _]].
  - intros k H. apply Hin in H. destruct H as [H|H].
    + rewrite (ConversationFacts.direct_keys st u Hwf) in H. apply in_map_iff in H.
      destruct H as [c [<- _]]. now exists Schema.direct, c.
    + rewrite ConversationFacts.group_conv_keys in H. apply in_map_iff in H.
      destruct H as [g [<- _]]. now exists Schema.groupConv, (Schema.group_id (Schema.gwm_group g)).
  - exact (AggregatorFacts.conversations_sorted st u).
  - intros Hpos l1 a l2 Hsplit Ha b Hb.
    pose proof (AggregatorFacts.conversations_sorted st u) as Hs.
    fold cs in Hs. rewrite Hsplit in Hs.
    apply (AggregatorFacts.StronglySorted_later _ _ _ _ b) in Hs; [|exact Hb].
    destruct (Schema.lastMessage b) as [m|] eqn:Hm; [|reflexivity].
    exfalso. assert (Hstored : In m (JsMap.values (Storage.messages st))).
    { apply (AggregatorFacts.lastMessage_stored st u b m); [|exact Hm].
      fold cs. rewrite Hsplit. apply in_app_iff. right. now right. }
    apply Hpos in Hstored. unfold Storage.convTime in Hs. rewrite Ha, Hm in Hs. lia.
Qed.

Lemma conversations_exact_sorted_witness :
  NoDup (map Props.convKey (Storage.getConversationsForUser Demo.store "u1"))
  /\ In (Schema.groupConv, Some "g2")
        (map Props.convKey (Storage.getConversationsForUser Demo.store "u1"))
  /\ StronglySorted
       (fun a b =>
          match Schema.lastMessage a with Some m => Schema.createdAt m | None => 0 end
          >= match Schema.lastMessage b with Some m => Schema.createdAt m | None => 0 end)
       (Storage.getConversationsForUser Demo.store "u1")
  /\ (forall l1 a l2,
        Storage.getConversationsForUser Demo.store "u1" = (l1 ++ a :: l2)%list ->
        Schema.lastMessage a = None ->
        forall b, In b l2 -> Schema.lastMessage b = None).
Proof.
  destruct (conversations_exact_sorted Demo.store "u1"
              (Invariants.wellFormed_run Demo.trace)) as [Hnd [_ [Hg [_ [Hsorted Hlast]]]]].
  split; [exact Hnd|]. split; [|split; [exact Hsorted|]].
  - apply Hg. exists ["u1"; "u3"]. split; [reflexivity|now left].
  - apply Hlast. vm_compute.
    intros m [<-|[<-|[<-|[<-|[]]]]]; reflexivity.
Defined.

(** The list of the spec's example: a direct conversation at time 10, a
    group with a message at time 5, a group without message. *)
Example conversations_of_u1 :
  map (fun c => (Props.convKey c, Storage.convTime c))
      (Storage.getConversationsForUser Demo.store "u1")
  = [ ((Schema.direct, Some "u4"), 10);
      ((Schema.groupConv, Some "g1"), 5);
      ((Schema.groupConv, Some "g2"), 0) ].
Proof. reflexivity. Qed.

(** C4 as worded fails: after [u1] wrote to an identifier without user
    record, that identifier is a counterpart of [u1] in the log, and no
    conversation stands for it. *)
Lemma conversations_skip_unknown_counterpart :
  Props.counterpart Demo.store "u1" "ghost"
  /\ ~ In (Schema.direct, Some "ghost")
          (map Props.convKey (Storage.getConversationsForUser Demo.store "u1")).
Proof.
  split.
  - exists Demo.ghostMessage. split; [vm_compute; tauto|].
    split; [reflexivity|]. left. now split.
  - vm_compute. intros [H|[H|[H|[]]]]; discriminate.
Qed.

(* ================================================================== *)
(** ** Validation at the writing routes *)

(** C6.  A body with both [recipientId] and [groupId] set, or with neither
    ([null], absent and the empty string count as not set), is refused by
    [POST /api/messages] before the store is touched, with status 400 and
    the refinement's message when the caller is authenticated; and after every
    trace of the server each stored message has exactly one of the two. *)
Theorem message_addressing_validated :
  (forall session b uuid now srv,
      Js.truthy (Schema.im_recipientId b) = Js.truthy (Schema.im_groupId b) ->
      fst (Routes.postMessages session b uuid now srv) = srv
      /\ (Js.truthy session = true ->
          snd (Routes.postMessages session b uuid now srv)
          = Routes.fail 400 "Message must have either recipientId or groupId, not both"))
  /\ (forall trace m,
        In m (JsMap.values (Storage.messages (Routes.storage (Routes.run trace Routes.start)))) ->
        Props.addressed m).
Proof.
  split.
  - intros session b uuid now srv Hx. unfold Routes.postMessages.
    destruct (Routes.requireAuth session) as [uid|] eqn:Ha.
    + rewrite (RouteFacts.insertMessageSchema_Failure b Hx). now split.
    + split; [reflexivity|]. intros Ht.
      destruct (RouteFacts.requireAuth_truthy session Ht) as [uid Hu]. congruence.
  - intros trace.
    apply (RouteFacts.run_invariant
             (fun srv => forall m,
                  In m (JsMap.values (Storage.messages (Routes.storage srv))) ->
                  Props.addressed m)).
    + intros srv e. apply Invariants.addressed_step, RouteFacts.step_storeStep.
    + intros m [].
Qed.

Lemma message_addressing_validated_witness :
  snd (Routes.postMessages (Some "u1")
         (Schema.mkInsertMessage (Some "u4") (Some "g1") "both") "m9" 12 Demo.server)
  = Routes.fail 400 "Message must have either recipientId or groupId, not both"
  /\ Props.addressed Demo.hi.
Proof.
  destruct message_addressing_validated as [Hreject Hstored]. split.
  - apply Hreject; reflexivity.
  - apply (Hstored Demo.trace). vm_compute. tauto.
Defined.

(** An empty string counts as not set: the body is a group message and is
    stored with a null recipient. *)
Example empty_recipient_is_unset :
  JsMap.get "m9"
    (Storage.messages
       (Routes.storage
          (fst (Routes.postMessages (Some "u1")
                  (Schema.mkInsertMessage (Some "") (Some "g1") "hello") "m9" 12
                  Demo.server))))
  = Some (Schema.mkMessage "m9" "u1" None (Some "g1") "hello" 12).
Proof. reflexivity. Qed.

(** Signups served one at a time.  A signup that names a username some
    stored user already has leaves the server as it was and is answered 400,
    with "Username already taken" when the body is otherwise well formed; and
    after every trace in which no signup waits for its hash while another
    request is served, no two stored users have the same username, compared
    as exact strings. *)
Theorem username_taken_rejected_unique :
  (forall b uuid hash srv u,
      In u (JsMap.values (Storage.users (Routes.storage srv))) ->
      Schema.username u = Schema.iu_username b ->
      fst (Routes.signup b uuid hash srv) = srv
      /\ Routes.status (snd (Routes.signup b uuid hash srv)) = 400
      /\ (Schema.insertUserSchema b = Schema.Success b ->
          snd (Routes.signup b uuid hash srv) = Routes.fail 400 "Username already taken"))
  /\ (forall trace,
        NoDup (map Schema.username
                 (JsMap.values (Storage.users (Routes.storage (Routes.run trace Routes.start)))))).
Proof.
  split.
  - intros b uuid hash srv u Hu Hname. unfold Routes.signup, Schema.insertUserSchema.
    destruct (String.length (Schema.iu_password b) <? 6)%nat;
      [repeat split; discriminate|].
    destruct (Storage.getUserByUsername (Routes.storage srv) (Schema.iu_username b)) eqn:Hfind;
      [now repeat split|].
    exfalso. now apply (RouteFacts.getUserByUsername_None _ _ Hfind u Hu).
  - intros trace.
    apply (RouteFacts.run_invariant
             (fun srv => NoDup (map Schema.username
                                  (JsMap.values (Storage.users (Routes.storage srv)))))).
    + intros srv e. apply Invariants.usernames_step, RouteFacts.step_storeStep.
    + constructor.
Qed.

Lemma username_taken_rejected_unique_witness :
  Routes.signup (Schema.mkInsertUser "bob" "another") "u9" "hash9" Demo.server
  = (Demo.server, Routes.fail 400 "Username already taken").
Proof.
  destruct username_taken_rejected_unique as [Hreject _].
  destruct (Hreject (Schema.mkInsertUser "bob" "another") "u9" "hash9" Demo.server
              (Schema.mkUser "u4" "bob" "hash4")) as [Hsame [_ Hanswer]].
  - vm_compute. tauto.
  - reflexivity.
  - rewrite (surjective_pairing (Routes.signup _ _ _ _)), Hsame, Hanswer; reflexivity.
Defined.

(** The handler is its two halves, run without a request in between. *)
Lemma signup_begin_resume (b : Schema.InsertUser) (uuid hash : string) (srv : Routes.Server) :
  Routes.signup b uuid hash srv
  = match Overlap.signupBegin b srv with
    | inl answer => (srv, answer)
    | inr data => Overlap.signupResume data uuid hash srv
    end.
Proof.
  unfold Routes.signup, Overlap.signupBegin, Overlap.signupResume.
  destruct (Schema.insertUserSchema b); [|reflexivity].
  now destruct (Storage.getUserByUsername _ _).
Qed.

(** C7 on the code.  The lookup of the username and [users.set] are apart
    by [await bcrypt.hash]: a second signup of the name that arrives while
    the first waits for its hash passes the lookup too, and both users are
    stored under the one username. *)
Lemma overlapping_signups_store_one_name_twice :
  let s := Overlap.run Overlap.twoAlices Overlap.start in
  map (fun u => (Schema.user_id u, Schema.username u))
      (JsMap.values (Storage.users (Routes.storage (Overlap.server s))))
  = [("u1", "alice"); ("u2", "alice")]
  /\ ~ NoDup (map Schema.username
                (JsMap.values (Storage.users (Routes.storage (Overlap.server s)))))
  /\ Overlap.awaiting s = [].
Proof.
  split; [reflexivity|]. split; [|reflexivity].
  vm_compute. intros H. inversion H as [|x l Hx _]; subst. apply Hx. now left.
Qed.

(** Usernames that differ only in case are different usernames. *)
Example username_case_sensitive :
  Routes.status (snd (Routes.signup (Schema.mkInsertUser "BOB" "another") "u9" "hash9"
                        Demo.server)) = 200.
Proof. reflexivity. Qed.

(* ================================================================== *)
(** ** The user directory: search *)

(** C8 as worded, for every query, fails beyond ASCII.  The one user of
    the directory is named alpha, sigma, alpha in Greek capitals; the query
    is the first two letters of that name, so the name contains it as it
    stands.  [toLowerCase] turns the sigma that ends the query into the
    final sigma and the sigma inside the name into the other one, and the
    search finds nobody. *)
Lemma search_misses_final_sigma :
  let st := Routes.storage Demo.greekServer in
  map Schema.username (JsMap.values (Storage.users st)) = [Demo.greekName]
  /\ Demo.greekName = Demo.greekQuery ++ Props.utf8 [0x391%N]
  /\ Props.containsCI Demo.greekName Demo.greekQuery
  /\ ~ Props.Blank Demo.greekQuery
  /\ Storage.searchUsers st Demo.greekQuery = []
  /\ Routes.usersSearch (Some "u1") (Some Demo.greekQuery) Demo.greekServer
     = Routes.json (Js.Arr []).
Proof.
  split; [reflexivity|]. split; [reflexivity|]. split.
  { exists "", Demo.greekQuery, (Props.utf8 [0x391%N]). split; [reflexivity|].
    vm_compute. repeat (constructor; [now left|]). constructor. }
  split.
  { intros H. apply StringFacts.trim_empty in H. vm_compute in H. discriminate. }
  split; reflexivity.
Qed.

(** C8, amended to ASCII.  [searchUsers q] keeps users of the registry, in
    its order; when [q] is a string of ASCII characters, a user with a
    username of ASCII characters is kept exactly when the username contains
    [q] up to the case of the letters.  With the empty query every user is
    kept.  The search route answers an absent, empty or blank query with
    every user, and any other query with the result of [searchUsers], each
    user sanitized. *)
Theorem search_case_insensitive_containment
    (srv : Routes.Server) (session : option string) (q : string) :
  Js.truthy session = true ->
  let st := Routes.storage srv in
  (exists keep, Storage.searchUsers st q = filter keep (JsMap.values (Storage.users st))
                /\ (Props.isAscii q ->
                    forall u, Props.isAscii (Schema.username u) ->
                              (keep u = true <-> Props.containsCI (Schema.username u) q)))
  /\ (Props.isAscii q ->
      forall u, Props.isAscii (Schema.username u) ->
                (In u (Storage.searchUsers st q) <->
                 In u (JsMap.values (Storage.users st))
                 /\ Props.containsCI (Schema.username u) q))
  /\ Storage.searchUsers st "" = JsMap.values (Storage.users st)
  /\ (Props.Blank q ->
      Routes.usersSearch session (Some q) srv
      = Routes.json (Js.Arr (map Routes.sanitizeUser (JsMap.values (Storage.users st)))))
  /\ (~ Props.Blank q ->
      Routes.usersSearch session (Some q) srv
      = Routes.json (Js.Arr (map Routes.sanitizeUser (Storage.searchUsers st q))))
  /\ Routes.usersSearch session None srv
     = Routes.json (Js.Arr (map Routes.sanitizeUser (JsMap.values (Storage.users st)))).
Proof.
  intros Hauth st.
  destruct (RouteFacts.requireAuth_truthy session Hauth) as [uid Huid].
  split; [|split; [|split; [|split; [|split]]]].
  - eexists. split; [reflexivity|]. intros Hq u Hu. cbv beta.
    now apply StringFacts.includes_lower.
  - intros Hq u Hu. unfold Storage.searchUsers. rewrite filter_In.
    now rewrite (StringFacts.includes_lower _ _ Hu Hq).
  - unfold Storage.searchUsers. change (Js.toLowerCase "") with "".
    induction (JsMap.values (Storage.users st)) as [|u l IH]; [reflexivity|].
    cbn [filter]. rewrite StringFacts.includes_empty. now rewrite IH.
  - intros Hb. unfold Routes.usersSearch. rewrite Huid.
    apply StringFacts.trim_length in Hb. now rewrite Hb, orb_true_r.
  - intros Hb. unfold Routes.usersSearch. rewrite Huid.
    destruct (String.length (Js.trim q) =? 0)%nat eqn:Hlen.
    + apply StringFacts.trim_length in Hlen. contradiction.
    + destruct q as [|c r]; [|reflexivity].
      exfalso. apply Hb. exists []. now split.
  - unfold Routes.usersSearch. now rewrite Huid.
Qed.

Lemma search_case_insensitive_containment_witness :
  In (Schema.mkUser "u1" "Alice" "hash1") (Storage.searchUsers Demo.store "ali")
  /\ ~ In (Schema.mkUser "u4" "bob" "hash4") (Storage.searchUsers Demo.store "ali").
Proof.
  destruct (search_case_insensitive_containment Demo.server (Some "u1") "ali")
    as [_ [Hexact _]]; [reflexivity|].
  assert (Hq : Props.isAscii "ali") by (cbn; repeat split; reflexivity).
  split.
  - apply (Hexact Hq (Schema.mkUser "u1" "Alice" "hash1")).
    + cbn. repeat split; reflexivity.
    + split; [vm_compute; tauto|].
      exists "", "Ali", "ce". split; [reflexivity|].
      constructor; [right; left; split; [cbn; lia|reflexivity]|].
      constructor; [now left|]. constructor; [now left|]. constructor.
  - intros Hin.
    apply (Hexact Hq (Schema.mkUser "u4" "bob" "hash4")) in Hin;
      [|cbn; repeat split; reflexivity].
    destruct Hin as [_ [pre [w [suf [Hname Hw]]]]].
    inversion Hw as [|c1 d1 s1 t1 H1 Hw1]; subst.
    inversion Hw1 as [|c2 d2 s2 t2 H2 Hw2]; subst.
    inversion Hw2 as [|c3 d3 s3 t3 H3 Hw3]; subst.
    inversion Hw3; subst. cbn in Hname.
    destruct pre as [|p1 [|p2 [|p3 [|p4 pre]]]]; cbn in Hname; try discriminate;
      inversion Hname; subst;
      destruct H1 as [H1|[[Ha Hb]|[Ha Hb]]];
        try discriminate; cbn in Ha, Hb; lia.
Defined.

(** The spec's example: "ali" finds "Alice", "alias" and "MALI", not "bob". *)
Example search_ali :
  map Schema.username (Storage.searchUsers Demo.store "ali") = ["Alice"; "alias"; "MALI"].
Proof. reflexivity. Qed.

(** Below the route, a blank query that is not empty is an ordinary query. *)
Example search_blank_below_route :
  Storage.searchUsers Demo.store "   " = [].
Proof. reflexivity. Qed.

(** A query of no-break spaces is blank: the route answers with every
    user. *)
Example search_no_break_space :
  Routes.usersSearch (Some "u1") (Some (Props.utf8 [0xA0; 0x3000]%N)) Demo.server
  = Routes.json (Js.Arr (map Routes.sanitizeUser (JsMap.values (Storage.users Demo.store)))).
Proof. reflexivity. Qed.

(* ================================================================== *)
(** ** The message route: enrichment and broadcast *)

Module PayloadFacts.
Import Schema Storage Routes Props.

(** A request answered 200 stored its message, enriched it and handed the
    same payload to the broadcast and to the response. *)
Lemma postMessages_ok (session : option string) (b : InsertMessage)
    (uuid : string) (now : Z) (srv : Server) :
  status (snd (postMessages session b uuid now srv)) = 200 ->
  exists uid payload,
    requireAuth session = Some uid
    /\ insertMessageSchema b = Success b
    /\ enriched (fst (createMessage uuid now uid b (storage srv)))
         (snd (createMessage uuid now uid b (storage srv))) payload
    /\ postMessages session b uuid now srv
       = (mkServer (fst (createMessage uuid now uid b (storage srv)))
            (broadcast (Js.Obj payload) (clients srv)),
          json (Js.Obj payload)).
Proof.
  unfold postMessages. destruct (requireAuth session) as [uid|]; [|discriminate].
  destruct (insertMessageSchema b) as [d|msg] eqn:Hs; [|discriminate].
  destruct (RouteFacts.insertMessageSchema_Success _ _ Hs) as [-> _].
  destruct (createMessage uuid now uid b (storage srv)) as [st message] eqn:Hcm.
  cbn [fst snd].
  assert (Hsender : senderId message = uid).
  { unfold createMessage in Hcm. now inversion Hcm. }
  rewrite Hsender.
  destruct (getUser st uid) as [sender|] eqn:Hu; [|discriminate].
  destruct (Js.truthy (recipientId message)) eqn:Hr.
  - destruct (getUserOpt st (recipientId message)) as [recipient|] eqn:Hrec;
      [|discriminate].
    intros _. eexists uid, _. rewrite Hcm. cbn [fst snd]. repeat split.
    apply (enriched_direct _ _ sender recipient); congruence.
  - destruct (Js.truthy (groupId message)) eqn:Hg.
    + destruct (groupId message) as [gid|] eqn:Hgid; [|discriminate].
      destruct (getGroupWithMembers st gid) as [group|] eqn:Hgroup; [|discriminate].
      intros _. eexists uid, _. rewrite Hcm. cbn [fst snd]. repeat split.
      apply (enriched_group _ _ sender gid group); congruence.
    + intros _. eexists uid, _. rewrite Hcm. cbn [fst snd]. repeat split.
      apply (enriched_bare _ _ sender); congruence.
Qed.

Lemma sanitizeUser_shape (u : User) :
  sanitizeUser u = Js.Obj [("id", Js.Str (user_id u)); ("username", Js.Str (username u))].
Proof. reflexivity. Qed.

Lemma sanitizeGroup_shape (g : GroupWithMembers) :
  sanitizeGroup g
  = Js.Obj [("id", Js.Str (group_id (gwm_group g)));
            ("name", Js.Str (group_name (gwm_group g)));
            ("createdBy", Js.Str (createdBy (gwm_group g)));
            ("createdAt", Js.Date (group_createdAt (gwm_group g)));
            ("members", Js.Arr (map sanitizeUser (members g)));
            ("memberCount", Js.Num (Z.of_nat (memberCount g)))].
Proof. reflexivity. Qed.

Lemma sanitized_clean (l : list User) :
  existsb (Js.mentions "passwordHash") (map sanitizeUser l) = false.
Proof. induction l as [|u l IH]; [reflexivity|]. cbn. exact IH. Qed.

Lemma sanitizeGroup_clean (g : GroupWithMembers) :
  Js.mentions "passwordHash" (sanitizeGroup g) = false.
Proof. rewrite sanitizeGroup_shape. cbn. now rewrite sanitized_clean. Qed.

Lemma nullable_clean (k : string) (o : option string) :
  Js.mentions k (Js.ofNullable o) = false.
Proof. now destruct o. Qed.

End PayloadFacts.

(** C9.  The payload of a message answered 200, which is also the payload
    broadcast to the sockets, is an object in which [passwordHash] is no
    property name at any depth; in particular its [sender] has none, its
    [recipient] has none when present, and no member of its [group] has one
    when present. *)
Theorem payload_without_credentials
    (session : option string) (b : Schema.InsertMessage) (uuid : string) (now : Z)
    (srv : Routes.Server) :
  Routes.status (snd (Routes.postMessages session b uuid now srv)) = 200 ->
  exists payload,
    Routes.body (snd (Routes.postMessages session b uuid now srv)) = Js.Obj payload
    /\ Routes.clients (fst (Routes.postMessages session b uuid now srv))
       = Routes.broadcast (Js.Obj payload) (Routes.clients srv)
    /\ Js.mentions "passwordHash" (Js.Obj payload) = false
    /\ (exists s, JsMap.get "sender" payload = Some (Js.Obj s)
                  /\ Js.hasKey "passwordHash" s = false)
    /\ (forall r, JsMap.get "recipient" payload = Some r ->
                  exists rf, r = Js.Obj rf /\ Js.hasKey "passwordHash" rf = false)
    /\ (forall g, JsMap.get "group" payload = Some g ->
                  exists gf ms, g = Js.Obj gf
                                /\ JsMap.get "members" gf = Some (Js.Arr ms)
                                /\ forall x, In x ms ->
                                     exists xf, x = Js.Obj xf
                                                /\ Js.hasKey "passwordHash" xf = false).
Proof.
  intros Hok.
  destruct (PayloadFacts.postMessages_ok session b uuid now srv Hok)
    as [uid [payload [_ [_ [Hen ->]]]]].
  exists payload. split; [reflexivity|]. split; [reflexivity|].
  destruct Hen as [sender recipient _ _ _|sender gid group _ _ _ _|sender _ _ _].
  - split; [|split; [|split]].
    + cbn -[Routes.sanitizeUser]. now rewrite !PayloadFacts.nullable_clean.
    + eexists. split; reflexivity.
    + intros r [= <-]. eexists. split; reflexivity.
    + intros g [=].
  - split; [|split; [|split]].
    + cbn -[Routes.sanitizeGroup].
      now rewrite !PayloadFacts.nullable_clean, PayloadFacts.sanitizeGroup_clean.
    + eexists. split; reflexivity.
    + intros r [=].
    + intros g [= <-]. rewrite PayloadFacts.sanitizeGroup_shape.
      eexists _, _. split; [reflexivity|]. split; [reflexivity|].
      intros x Hx. apply in_map_iff in Hx. destruct Hx as [u [<- _]].
      eexists. split; reflexivity.
  - split; [|split; [|split]].
    + cbn. now rewrite !PayloadFacts.nullable_clean.
    + eexists. split; reflexivity.
    + intros r [=].
    + intros g [=].
Qed.

Lemma payload_without_credentials_witness :
  exists payload,
    Routes.body (snd (Routes.postMessages (Some "u2")
                        (Schema.mkInsertMessage None (Some "g1") "hello") "m9" 12
                        Demo.server)) = Js.Obj payload
    /\ Js.mentions "passwordHash" (Js.Obj payload) = false.
Proof.
  destruct (payload_without_credentials (Some "u2")
              (Schema.mkInsertMessage None (Some "g1") "hello") "m9" 12 Demo.server)
    as [payload [Hbody [_ [Hclean _]]]].
  - reflexivity.
  - now exists payload.
Defined.

(** The stored users do carry the property the payload lacks. *)
Example stored_user_has_credentials (u : Schema.User) :
  Js.hasKey "passwordHash" (Routes.userObj u) = true.
Proof. reflexivity. Qed.



(* ================================================================== *)
(** ** Messages to unknown targets, groups with blank names *)

(** C1 as worded fails: a message to an identifier without user record is
    answered 500, not with a not-found status, and is in the log afterwards. *)
Lemma unknown_recipient_not_rejected_before_store :
  let r := Routes.postMessages (Some "u1") Demo.toGhost "m9" 12 Demo.server in
  Storage.getUser Demo.store "ghost" = None
  /\ Routes.status (snd r) = 500
  /\ JsMap.get "m9" (Storage.messages Demo.store) = None
  /\ JsMap.get "m9" (Storage.messages (Routes.storage (fst r)))
     = Some (Schema.mkMessage "m9" "u1" (Some "ghost") None "anyone?" 12).
Proof. repeat split. Qed.

(** C1, as the code has it.  When an authenticated caller posts a
    well-addressed message whose recipient has no user record, or whose
    group has no group record, the route answers 500 with one of its three
    enrichment failures, nothing is sent to any socket, and users and groups
    are as before. *)
Theorem unknown_target_fails_without_broadcast
    (session : option string) (b : Schema.InsertMessage) (uuid : string) (now : Z)
    (srv : Routes.Server) :
  Js.truthy session = true ->
  Schema.insertMessageSchema b = Schema.Success b ->
  (Js.truthy (Schema.im_recipientId b) = true
   /\ Storage.getUserOpt (Routes.storage srv) (Schema.im_recipientId b) = None)
  \/ (Js.truthy (Schema.im_groupId b) = true
      /\ forall g, Schema.im_groupId b = Some g ->
                   Storage.getGroup (Routes.storage srv) g = None) ->
  let r := Routes.postMessages session b uuid now srv in
  (snd r = Routes.fail 500 "Failed to get sender data"
   \/ snd r = Routes.fail 500 "Failed to get recipient data"
   \/ snd r = Routes.fail 500 "Failed to get group data")
  /\ Routes.clients (fst r) = Routes.clients srv
  /\ Storage.users (Routes.storage (fst r)) = Storage.users (Routes.storage srv)
  /\ Storage.groups (Routes.storage (fst r)) = Storage.groups (Routes.storage srv).
Proof.
  intros Hauth Hvalid Hunknown r.
  assert (Hr : exists msg,
             r = (Routes.mkServer
                    (fst (Storage.createMessage uuid now
                            (match session with Some uid => uid | None => "" end)
                            b (Routes.storage srv)))
                    (Routes.clients srv),
                  Routes.fail 500 msg)
             /\ (msg = "Failed to get sender data"
                 \/ msg = "Failed to get recipient data"
                 \/ msg = "Failed to get group data")).
  { subst r. unfold Routes.postMessages.
    destruct (RouteFacts.requireAuth_truthy session Hauth) as [uid Huid].
    rewrite Huid. apply RouteFacts.requireAuth_Some in Huid. destruct Huid as [-> _].
    rewrite Hvalid.
    destruct (RouteFacts.insertMessageSchema_Success _ _ Hvalid) as [_ Hx].
    cbn [Storage.createMessage Schema.senderId Schema.recipientId Schema.groupId fst].
    unfold Storage.getUserOpt, Storage.getGroupWithMembers, Storage.getUser.
    cbn [Storage.users Storage.groups].
    destruct (JsMap.get uid (Storage.users (Routes.storage srv))) as [sender|];
      [|eexists; split; [reflexivity|now left]].
    destruct Hunknown as [[Hrec Hnone]|[Hg Hnone]].
    - destruct (Invariants.orNull_truthy _ Hrec) as [-> _]. rewrite Hrec.
      unfold Storage.getUserOpt, Storage.getUser in Hnone. rewrite Hnone.
      eexists. split; [reflexivity|]. right. now left.
    - rewrite Hg in Hx. simpl in Hx. rewrite (Invariants.orNull_falsy _ Hx).
      destruct (Invariants.orNull_truthy _ Hg) as [-> _]. cbn [Js.truthy]. rewrite Hg.
      destruct (Schema.im_groupId b) as [gid|]; [|discriminate].
      specialize (Hnone gid eq_refl). unfold Storage.getGroup in Hnone. rewrite Hnone.
      eexists. split; [reflexivity|]. right. now right. }
  destruct Hr as [msg [-> Hmsg]]. cbn.
  split; [|now repeat split].
  destruct Hmsg as [-> | [-> | ->]]; [now left | right; now left | right; now right].
Qed.

Lemma unknown_target_fails_without_broadcast_witness :
  snd (Routes.postMessages (Some "u1") Demo.toGhost "m9" 12 Demo.server)
  = Routes.fail 500 "Failed to get recipient data"
  /\ Routes.clients (fst (Routes.postMessages (Some "u1") Demo.toGhost "m9" 12 Demo.server))
     = Routes.clients Demo.server.
Proof.
  destruct (unknown_target_fails_without_broadcast (Some "u1") Demo.toGhost "m9" 12
              Demo.server) as [_ [Hclients _]].
  - reflexivity.
  - reflexivity.
  - left. split; reflexivity.
  - split; [reflexivity|exact Hclients].
Defined.

(** C2 at work on the code: a group whose name is three spaces passes the
    schema and is stored with its membership set. *)
Lemma blank_group_name_is_stored :
  let r := Routes.postGroups (Some "u1") (Schema.mkInsertGroup "   " ["u2"]) "g9" 3
             Demo.server in
  Props.blank "   " = true
  /\ Routes.status (snd r) = 200
  /\ Storage.getGroup (Routes.storage (fst r)) "g9"
     = Some (Schema.mkGroup "g9" "   " "u1" 3)
  /\ JsMap.get "g9" (Storage.groupMembers (Routes.storage (fst r))) = Some ["u1"; "u2"].
Proof. repeat split. Qed.

(** The schema of a group looks at the members only. *)
Lemma insertGroupSchema_ignores_name (name : string) (m : string) (ms : list string) :
  Schema.insertGroupSchema (Schema.mkInsertGroup name (m :: ms))
  = Schema.Success (Schema.mkInsertGroup name (m :: ms)).
Proof. reflexivity. Qed.

(* ================================================================== *)
(** ** Groups and membership *)

Module SetFacts.
Import MapFacts.

Lemma fold_add_In (x : string) (xs : list string) (acc : JsSet.t) :
  In x (fold_left (fun s y => JsSet.add y s) xs acc) <-> In x acc \/ In x xs.
Proof.
  revert acc. induction xs as [|y xs IH]; intros acc; simpl; [tauto|].
  rewrite IH, add_In. intuition congruence.
Qed.

Lemma fold_add_nodup (xs : list string) (acc : JsSet.t) :
  NoDup acc -> NoDup (fold_left (fun s y => JsSet.add y s) xs acc).
Proof.
  revert acc. induction xs as [|y xs IH]; intros acc H; simpl; [exact H|].
  apply IH. now apply add_nodup.
Qed.

Lemma add_head (x y : string) (s : JsSet.t) :
  hd_error (JsSet.add x (y :: s)) = Some y.
Proof. unfold JsSet.add. now destruct (JsSet.has x (y :: s)). Qed.

Lemma fold_add_head (xs : list string) (y : string) (acc : JsSet.t) :
  hd_error (fold_left (fun s z => JsSet.add z s) xs (y :: acc)) = Some y.
Proof.
  revert acc. induction xs as [|x xs IH]; intros acc; simpl; [reflexivity|].
  unfold JsSet.add at 2. destruct (JsSet.has x (y :: acc)); apply IH.
Qed.

Lemma ofList_In (x : string) (xs : list string) : In x (JsSet.ofList xs) <-> In x xs.
Proof. unfold JsSet.ofList. rewrite fold_add_In. simpl. tauto. Qed.

Lemma ofList_nodup (xs : list string) : NoDup (JsSet.ofList xs).
Proof. apply fold_add_nodup. constructor. Qed.

Lemma delete_In (x y : string) (s : JsSet.t) :
  In y (JsSet.delete x s) <-> In y s /\ y <> x.
Proof.
  unfold JsSet.delete. rewrite filter_In, negb_true_iff, String.eqb_neq. tauto.
Qed.

Lemma delete_absent (x : string) (s : JsSet.t) : ~ In x s -> JsSet.delete x s = s.
Proof.
  unfold JsSet.delete. induction s as [|y s IH]; simpl; intros H; [reflexivity|].
  destruct (String.eqb_spec y x) as [->|Hne]; simpl.
  - exfalso. apply H. now left.
  - rewrite IH; [reflexivity|]. intros Hin. apply H. now right.
Qed.

Lemma add_present (x : string) (s : JsSet.t) : In x s -> JsSet.add x s = s.
Proof. intros H. unfold JsSet.add. apply has_In in H. now rewrite H. Qed.

Lemma set_same {V : Type} (m : JsMap.t V) (k : string) (v : V) :
  JsMap.get k m = Some v -> JsMap.set k v m = m.
Proof.
  induction m as [|[k0 v0] m IH]; simpl; [discriminate|].
  destruct (String.eqb_spec k0 k) as [->|Hne].
  - now intros [= ->].
  - intros H. now rewrite IH.
Qed.

Lemma set_fresh {V : Type} (m : JsMap.t V) (k : string) (v : V) :
  JsMap.get k m = None -> JsMap.set k v m = (m ++ [(k, v)])%list.
Proof.
  induction m as [|[k0 v0] m IH]; simpl; [reflexivity|].
  destruct (String.eqb_spec k0 k) as [->|Hne]; [discriminate|].
  intros H. now rewrite IH.
Qed.

End SetFacts.

(** The group [createGroup] stores has the given name, creator and time;
    its membership set has no duplicate, starts with the creator and holds
    the creator and the listed members and no one else, however often an
    identifier is listed. *)
Theorem createGroup_member_set
    (uuid : string) (now : Z) (creator : string) (b : Schema.InsertGroup)
    (st : Storage.MemStorage) :
  let st' := fst (Storage.createGroup uuid now creator b st) in
  Storage.getGroup st' uuid
  = Some (Schema.mkGroup uuid (Schema.ig_name b) creator now)
  /\ exists s,
       JsMap.get uuid (Storage.groupMembers st') = Some s
       /\ NoDup s
       /\ hd_error s = Some creator
       /\ forall x, In x s <-> x = creator \/ In x (Schema.ig_memberIds b).
Proof.
  unfold Storage.getGroup.
  cbn [Storage.createGroup fst Storage.groups Storage.groupMembers].
  rewrite MapFacts.get_set_same.
  split; [reflexivity|]. eexists. split; [apply MapFacts.get_set_same|].
  split; [apply SetFacts.ofList_nodup|]. split.
  - unfold JsSet.ofList. cbn [fold_left]. apply SetFacts.fold_add_head.
  - intros x. rewrite SetFacts.ofList_In. simpl. intuition congruence.
Qed.

(** After every trace of the server, no membership set lists a user twice. *)
Theorem membership_sets_duplicate_free
    (trace : list Routes.Event) (g : string) (s : JsSet.t) :
  JsMap.get g (Storage.groupMembers (Routes.storage (Routes.run trace Routes.start)))
  = Some s ->
  NoDup s.
Proof.
  intros Hget. apply MapFacts.get_In in Hget. revert g s Hget.
  apply (RouteFacts.run_invariant
           (fun srv => forall g s,
                In (g, s) (Storage.groupMembers (Routes.storage srv)) -> NoDup s)).
  - intros srv e IH.
    destruct (RouteFacts.step_storeStep srv e)
      as [|uuid hash b Hfree|uuid now uid b|uuid now uid b Hx|g0 u|g0 u];
      try exact IH; cbn; intros g s Hin.
    + apply MapFacts.In_set in Hin. destruct Hin as [[_ ->]|Hin]; [|now apply (IH g)].
      exact (SetFacts.ofList_nodup (uid :: Schema.ig_memberIds b)).
    + unfold Storage.addGroupMember in Hin.
      destruct (JsMap.get g0 (Storage.groupMembers (Routes.storage srv))) as [s0|] eqn:H0;
        [|now apply (IH g)].
      cbn in Hin. apply MapFacts.In_set in Hin.
      destruct Hin as [[_ ->]|Hin]; [|now apply (IH g)].
      apply MapFacts.add_nodup, (IH g0). now apply MapFacts.get_In.
    + unfold Storage.removeGroupMember in Hin.
      destruct (JsMap.get g0 (Storage.groupMembers (Routes.storage srv))) as [s0|] eqn:H0;
        [|now apply (IH g)].
      cbn in Hin. apply MapFacts.In_set in Hin.
      destruct Hin as [[_ ->]|Hin]; [|now apply (IH g)].
      apply NoDup_filter, (IH g0). now apply MapFacts.get_In.
  - intros g s [].
Qed.

Lemma membership_sets_duplicate_free_witness : NoDup ["u1"; "u2"].
Proof.
  apply (membership_sets_duplicate_free Demo.trace "g1"). reflexivity.
Defined.

Module MemberFacts.
Import Schema Storage Props MapFacts.

Lemma memberOf_set (st : MemStorage) (g : string) (s0 s1 : JsSet.t) (g' u' : string) :
  JsMap.get g (groupMembers st) = Some s0 ->
  memberOf (mkMemStorage (users st) (messages st) (groups st)
              (JsMap.set g s1 (groupMembers st))) g' u'
  <-> (g' = g /\ In u' s1) \/ (g' <> g /\ memberOf st g' u').
Proof.
  intros H0. unfold memberOf. cbn [groupMembers].
  destruct (String.eqb_spec g' g) as [->|Hne].
  - rewrite get_set_same. split.
    + intros [s [[= <-] Hin]]. now left.
    + intros [[_ Hin]|[Hne _]]; [now exists s1|contradiction].
  - rewrite (get_set_other _ _ _ _ Hne). split; [now right|].
    intros [[Heq _]|[_ H]]; [contradiction|exact H].
Qed.

Lemma same_members (st : MemStorage) (g : string) (s : JsSet.t) :
  JsMap.get g (groupMembers st) = Some s ->
  mkMemStorage (users st) (messages st) (groups st) (JsMap.set g s (groupMembers st)) = st.
Proof. intros H. rewrite (SetFacts.set_same _ _ _ H). now destruct st. Qed.

End MemberFacts.

(** [addGroupMember g u] makes [u] a member of [g] when [g] has a
    membership set, and changes no other membership; without such a set, or
    when [u] is a member already, the store stays as it is. *)
Theorem addGroupMember_membership (st : Storage.MemStorage) (g u : string) :
  (forall g' u',
      Props.memberOf (Storage.addGroupMember g u st) g' u' <->
      Props.memberOf st g' u'
      \/ (g' = g /\ u' = u /\ JsMap.get g (Storage.groupMembers st) <> None))
  /\ (JsMap.get g (Storage.groupMembers st) = None -> Storage.addGroupMember g u st = st)
  /\ (Props.memberOf st g u -> Storage.addGroupMember g u st = st).
Proof.
  unfold Storage.addGroupMember.
  destruct (JsMap.get g (Storage.groupMembers st)) as [s0|] eqn:H0.
  - split; [|split; [discriminate|]].
    + intros g' u'. rewrite (MemberFacts.memberOf_set st g s0 _ g' u' H0), MapFacts.add_In.
      unfold Props.memberOf. split.
      * intros [[-> [->|Hin]]|[Hne H]].
        -- right. repeat split. discriminate.
        -- left. now exists s0.
        -- now left.
      * intros [[s [Hget Hin]]|[-> [-> _]]].
        -- destruct (String.eqb_spec g' g) as [->|Hne].
           ++ left. split; [reflexivity|]. right. congruence.
           ++ right. split; [exact Hne|]. now exists s.
        -- left. split; [reflexivity|now left].
    + intros [s [Hget Hin]]. assert (s = s0) by congruence. subst s.
      rewrite (SetFacts.add_present _ _ Hin). now apply MemberFacts.same_members.
  - split; [|now split]. intros g' u'. split; [now left|].
    intros [H|[_ [_ H]]]; [exact H|congruence].
Qed.

(** [removeGroupMember g u] ends the membership of [u] in [g] and changes
    no other membership; when [u] is no member of [g] the store stays as it
    is. *)
Theorem removeGroupMember_membership (st : Storage.MemStorage) (g u : string) :
  (forall g' u',
      Props.memberOf (Storage.removeGroupMember g u st) g' u' <->
      Props.memberOf st g' u' /\ ~ (g' = g /\ u' = u))
  /\ (~ Props.memberOf st g u -> Storage.removeGroupMember g u st = st).
Proof.
  unfold Storage.removeGroupMember.
  destruct (JsMap.get g (Storage.groupMembers st)) as [s0|] eqn:H0.
  - split.
    + intros g' u'. rewrite (MemberFacts.memberOf_set st g s0 _ g' u' H0), SetFacts.delete_In.
      unfold Props.memberOf. split.
      * intros [[-> [Hin Hne]]|[Hne H]].
        -- split; [now exists s0|]. intros [_ Heq]. contradiction.
        -- split; [exact H|]. intros [Heq _]. contradiction.
      * intros [[s [Hget Hin]] Hnot].
        destruct (String.eqb_spec g' g) as [->|Hne].
        -- left. split; [reflexivity|]. assert (s = s0) by congruence. subst s.
           split; [exact Hin|]. intros ->. now apply Hnot.
        -- right. split; [exact Hne|]. now exists s.
    + intros Hnot. rewrite SetFacts.delete_absent.
      * now apply MemberFacts.same_members.
      * intros Hin. apply Hnot. now exists s0.
  - split; [|reflexivity]. intros g' u'. split; [|tauto].
    intros H. split; [exact H|]. intros [-> ->].
    destruct H as [s [Hget _]]. congruence.
Qed.

Lemma removeGroupMember_membership_witness :
  Storage.removeGroupMember "g1" "u4" Demo.store = Demo.store.
Proof.
  destruct (removeGroupMember_membership Demo.store "g1" "u4") as [_ Hsame].
  apply Hsame. intros [s [Hget Hin]]. vm_compute in Hget. inversion Hget; subst.
  destruct Hin as [H|[H|[]]]; discriminate.
Defined.

Lemma addGroupMember_membership_witness :
  Storage.addGroupMember "g1" "u2" Demo.store = Demo.store
  /\ Storage.addGroupMember "nowhere" "u2" Demo.store = Demo.store.
Proof.
  destruct (addGroupMember_membership Demo.store "g1" "u2") as [_ [_ Hmember]].
  destruct (addGroupMember_membership Demo.store "nowhere" "u2") as [_ [Hnone _]].
  split.
  - apply Hmember. exists ["u1"; "u2"]. split; [reflexivity|right; now left].
  - apply Hnone. reflexivity.
Defined.

(** In a well-formed store [getGroupMembers g] lists, in the order of the
    membership set, the users of the set that have a record; identifiers
    without record are left out, and a group without membership set has no
    members. *)
Theorem getGroupMembers_records (st : Storage.MemStorage) (g : string) :
  Props.wellFormed st ->
  map Schema.user_id (Storage.getGroupMembers st g)
  = match JsMap.get g (Storage.groupMembers st) with
    | Some s => filter (fun i => match Storage.getUser st i with
                                 | Some _ => true
                                 | None => false
                                 end) s
    | None => []
    end.
Proof.
  intros Hwf. unfold Storage.getGroupMembers.
  destruct (JsMap.get g (Storage.groupMembers st)) as [s|]; [|reflexivity].
  induction s as [|i s IH]; [reflexivity|].
  cbn [flat_map filter]. rewrite map_app, IH.
  destruct (Storage.getUser st i) as [u|] eqn:Hu; [|reflexivity].
  cbn. unfold Storage.getUser in Hu. apply MapFacts.get_In in Hu.
  now rewrite (Props.wf_user_key st Hwf _ _ Hu).
Qed.

Lemma getGroupMembers_records_witness :
  map Schema.user_id (Storage.getGroupMembers Demo.store "g2") = ["u1"; "u3"].
Proof.
  rewrite (getGroupMembers_records Demo.store "g2" (Invariants.wellFormed_run Demo.trace)).
  reflexivity.
Defined.

(* ================================================================== *)
(** ** Reading messages: what the entries carry *)

Module EntryFacts.
Import Schema Storage Props.

Lemma optEq_Some (o : option string) (x : string) : Js.optEq o x = true <-> o = Some x.
Proof.
  destruct o as [s|]; simpl; [|split; discriminate].
  rewrite String.eqb_eq. split; congruence.
Qed.

Lemma between_spec (a b : string) (m : Message) :
  between a b m = true <->
  (senderId m = a /\ recipientId m = Some b) \/ (senderId m = b /\ recipientId m = Some a).
Proof.
  unfold between. rewrite orb_true_iff, !andb_true_iff, !String.eqb_eq, !optEq_Some.
  tauto.
Qed.

Lemma membership_only_add (g u : string) (st : MemStorage) :
  users (addGroupMember g u st) = users st
  /\ messages (addGroupMember g u st) = messages st
  /\ groups (addGroupMember g u st) = groups st.
Proof.
  unfold addGroupMember. now destruct (JsMap.get g (groupMembers st)).
Qed.

Lemma membership_only_remove (g u : string) (st : MemStorage) :
  users (removeGroupMember g u st) = users st
  /\ messages (removeGroupMember g u st) = messages st
  /\ groups (removeGroupMember g u st) = groups st.
Proof.
  unfold removeGroupMember. now destruct (JsMap.get g (groupMembers st)).
Qed.

(** The messages a read returns depend on users, messages and groups only. *)
Lemma reads_depend (st st' : MemStorage) :
  users st' = users st -> messages st' = messages st -> groups st' = groups st ->
  (forall gid, map mwu_message (getGroupMessages st' gid)
               = map mwu_message (getGroupMessages st gid))
  /\ (forall a b, getMessagesBetweenUsers st' a b = getMessagesBetweenUsers st a b).
Proof.
  intros Hu Hm Hg. split.
  - intros gid. rewrite !ReadFacts.group_messages, Hm.
    apply filter_ext. intros m. unfold groupEnrichable, getUser, getGroup.
    now rewrite Hu, Hg.
  - intros a b. unfold getMessagesBetweenUsers, getUserOpt, getUser. now rewrite Hu, Hm.
Qed.

End EntryFacts.

(** Each entry of [getMessagesBetweenUsers a b] is a stored message from
    [a] to [b] or from [b] to [a], with the user records of its sender and
    of its recipient attached and no group. *)
Theorem messagesBetween_entries
    (st : Storage.MemStorage) (a b : string) (e : Schema.MessageWithUsers) :
  In e (Storage.getMessagesBetweenUsers st a b) ->
  In (Schema.mwu_message e) (JsMap.values (Storage.messages st))
  /\ ((Schema.senderId (Schema.mwu_message e) = a
       /\ Schema.recipientId (Schema.mwu_message e) = Some b)
      \/ (Schema.senderId (Schema.mwu_message e) = b
          /\ Schema.recipientId (Schema.mwu_message e) = Some a))
  /\ Storage.getUser st (Schema.senderId (Schema.mwu_message e)) = Some (Schema.sender e)
  /\ Storage.getUserOpt st (Schema.recipientId (Schema.mwu_message e)) = Schema.recipient e
  /\ Schema.recipient e <> None
  /\ Schema.group e = None.
Proof.
  unfold Storage.getMessagesBetweenUsers. intros He. apply in_flat_map in He.
  destruct He as [m [Hm He]]. apply sortBy_In, filter_In in Hm. destruct Hm as [Hlog Hb].
  destruct (Storage.getUser st (Schema.senderId m)) as [su|] eqn:Hs; [|contradiction].
  destruct (Storage.getUserOpt st (Schema.recipientId m)) as [ru|] eqn:Hr; [|contradiction].
  destruct He as [<-|[]]. cbn.
  split; [exact Hlog|]. split; [now apply EntryFacts.between_spec|].
  repeat split; try assumption. discriminate.
Qed.

Lemma messagesBetween_entries_witness :
  match Storage.getMessagesBetweenUsers Demo.store "u1" "u4" with
  | e :: _ =>
      Storage.getUser Demo.store (Schema.senderId (Schema.mwu_message e))
      = Some (Schema.sender e)
      /\ Schema.group e = None
  | [] => False
  end.
Proof.
  pose proof (messagesBetween_entries Demo.store "u1" "u4") as H.
  destruct (Storage.getMessagesBetweenUsers Demo.store "u1" "u4") as [|e l] eqn:He;
    [vm_compute in He; discriminate|].
  destruct (H e (or_introl eq_refl)) as [_ [_ [Hs [_ [_ Hg]]]]]. now split.
Defined.

(** [getGroupMessages gid] returns messages addressed to [gid] only, each
    with its sender's record and the group attached; it ascends in creation
    time, and messages of one instant keep the order of the log. *)
Theorem groupMessages_ordered (st : Storage.MemStorage) (gid : string) :
  (forall e, In e (Storage.getGroupMessages st gid) ->
             In (Schema.mwu_message e) (JsMap.values (Storage.messages st))
             /\ Schema.groupId (Schema.mwu_message e) = Some gid
             /\ Storage.getUser st (Schema.senderId (Schema.mwu_message e))
                = Some (Schema.sender e)
             /\ Schema.recipient e = None
             /\ Schema.group e = Storage.getGroupWithMembers st gid
             /\ Schema.group e <> None)
  /\ StronglySorted (fun x y => Schema.createdAt x <= Schema.createdAt y)
       (map Schema.mwu_message (Storage.getGroupMessages st gid))
  /\ (forall t,
        filter (Props.atTime t) (map Schema.mwu_message (Storage.getGroupMessages st gid))
        = filter (Props.atTime t)
            (filter (fun x => Js.optEq (Schema.groupId x) gid
                              && Props.groupEnrichable st gid x)
                    (JsMap.values (Storage.messages st)))).
Proof.
  split; [|split].
  - unfold Storage.getGroupMessages. intros e He. apply in_flat_map in He.
    destruct He as [m [Hm He]]. apply sortBy_In, filter_In in Hm.
    destruct Hm as [Hlog Hg]. apply EntryFacts.optEq_Some in Hg.
    destruct (Storage.getUser st (Schema.senderId m)) as [su|] eqn:Hs; [|contradiction].
    destruct (Storage.getGroupWithMembers st gid) as [g|]; [|contradiction].
    destruct He as [<-|[]]. cbn. repeat split; try assumption. discriminate.
  - rewrite ReadFacts.group_messages. apply StronglySorted_filter.
    apply (sortBy_sorted Storage.byTimeAsc Schema.createdAt ReadFacts.byTimeAsc_key).
  - intros t. rewrite ReadFacts.group_messages, filter_comm.
    unfold Props.atTime at 1.
    rewrite (sortBy_stable Storage.byTimeAsc Schema.createdAt ReadFacts.byTimeAsc_key).
    rewrite filter_andb, (filter_comm (Props.groupEnrichable st gid)).
    reflexivity.
Qed.

(** Adding or removing a member rewrites no message: the messages of every
    group read and every direct read are the same before and after, those of
    former members included. *)
Theorem membership_change_keeps_messages (st : Storage.MemStorage) (g u : string) :
  (forall gid,
      map Schema.mwu_message (Storage.getGroupMessages (Storage.removeGroupMember g u st) gid)
      = map Schema.mwu_message (Storage.getGroupMessages st gid))
  /\ (forall gid,
        map Schema.mwu_message (Storage.getGroupMessages (Storage.addGroupMember g u st) gid)
        = map Schema.mwu_message (Storage.getGroupMessages st gid))
  /\ (forall a b,
        Storage.getMessagesBetweenUsers (Storage.removeGroupMember g u st) a b
        = Storage.getMessagesBetweenUsers st a b)
  /\ (forall a b,
        Storage.getMessagesBetweenUsers (Storage.addGroupMember g u st) a b
        = Storage.getMessagesBetweenUsers st a b).
Proof.
  destruct (EntryFacts.membership_only_add g u st) as [Hu [Hm Hg]].
  destruct (EntryFacts.membership_only_remove g u st) as [Hu' [Hm' Hg']].
  destruct (EntryFacts.reads_depend st _ Hu Hm Hg) as [Ha1 Ha2].
  destruct (EntryFacts.reads_depend st _ Hu' Hm' Hg') as [Hr1 Hr2].
  now repeat split.
Qed.

(* ================================================================== *)
(** ** Conversations: their shape and their last message *)

Module LastFacts.
Import Schema Storage Props MoreProps.

Lemma sortBy_nil {A : Type} (cmp : A -> A -> Z) (l : list A) :
  sortBy cmp l = [] -> l = [].
Proof.
  intros H. apply Permutation_nil. rewrite <- H. apply sortBy_perm.
Qed.

(** The head of the descending sort: a latest message, and among the
    latest the first of the list. *)
Lemma hd_latest (l : list Message) (m : Message) :
  hd_error (sortBy byTimeDesc l) = Some m ->
  In m l
  /\ (forall x, In x l -> createdAt x <= createdAt m)
  /\ hd_error (filter (atTime (createdAt m)) l) = Some m.
Proof.
  intros H. destruct (sortBy byTimeDesc l) as [|m' rest] eqn:Hs; [discriminate|].
  inversion H; subst m'. clear H.
  pose proof (sortBy_sorted byTimeDesc (fun x => - createdAt x)
                ReadFacts.byTimeDesc_key l) as Hsorted.
  pose proof (sortBy_stable byTimeDesc (fun x => - createdAt x)
                ReadFacts.byTimeDesc_key (- createdAt m) l) as Hstable.
  rewrite Hs in Hsorted, Hstable. split; [|split].
  - apply (sortBy_In byTimeDesc). rewrite Hs. now left.
  - intros x Hx. apply (sortBy_In byTimeDesc) in Hx. rewrite Hs in Hx.
    destruct Hx as [<-|Hx]; [lia|].
    inversion Hsorted as [|? ? _ Hall]; subst. rewrite Forall_forall in Hall.
    specialize (Hall x Hx). lia.
  - rewrite (filter_ext (atTime (createdAt m))
               (fun x => - createdAt x =? - createdAt m)).
    + rewrite <- Hstable. cbn [filter]. now rewrite Z.eqb_refl.
    + intros x. unfold atTime.
      destruct (Z.eqb_spec (createdAt x) (createdAt m)),
               (Z.eqb_spec (- createdAt x) (- createdAt m)); try reflexivity; lia.
Qed.

Lemma conversations_In (st : MemStorage) (u : string) (c : Conversation) :
  In c (getConversationsForUser st u) <->
  In c (directConversations st u) \/ In c (groupConversations st u).
Proof.
  rewrite <- in_app_iff. split; apply Permutation_in;
    [|symmetry]; apply AggregatorFacts.conversations_perm.
Qed.

(** How a direct conversation is made. *)
Lemma direct_made (st : MemStorage) (u : string) (c : Conversation) :
  In c (directConversations st u) ->
  exists other ou,
    In other (fold_left (collectOther u) (JsMap.values (messages st)) [])
    /\ getUser st other = Some ou
    /\ c = mkConversation direct (Some ou) None
             (hd_error (sortBy byTimeDesc
                          (filter (fun msg => negb (Js.truthy (groupId msg))
                                              && between u other msg)
                                  (JsMap.values (messages st))))) 0%nat.
Proof.
  unfold directConversations. intros H. apply in_flat_map in H.
  destruct H as [other [Hin H]].
  destruct (getUser st other) as [ou|] eqn:Hou; [|contradiction].
  destruct H as [<-|[]]. now exists other, ou.
Qed.

(** How a group conversation is made. *)
Lemma group_made (st : MemStorage) (u : string) (c : Conversation) :
  In c (groupConversations st u) ->
  exists g,
    In g (getGroupsForUser st u)
    /\ c = mkConversation groupConv None (Some g)
             (hd_error (sortBy byTimeDesc
                          (filter (fun msg => Js.optEq (groupId msg) (group_id (gwm_group g)))
                                  (JsMap.values (messages st))))) 0%nat.
Proof.
  unfold groupConversations. intros H. apply in_map_iff in H.
  destruct H as [g [<- Hg]]. now exists g.
Qed.

End LastFacts.

(** Every conversation [getConversationsForUser] returns has an unread
    count of zero and is either a direct one, with the other user and no
    group, or a group one, with one of the user's groups and no other user. *)
Theorem conversation_shape
    (st : Storage.MemStorage) (u : string) (c : Schema.Conversation) :
  In c (Storage.getConversationsForUser st u) ->
  Schema.unreadCount c = 0%nat
  /\ ((Schema.conv_type c = Schema.direct
       /\ (exists ou, Schema.otherUser c = Some ou)
       /\ Schema.conv_group c = None)
      \/ (Schema.conv_type c = Schema.groupConv
          /\ Schema.otherUser c = None
          /\ exists g, Schema.conv_group c = Some g
                       /\ In g (Storage.getGroupsForUser st u))).
Proof.
  intros H. apply LastFacts.conversations_In in H. destruct H as [H|H].
  - destruct (LastFacts.direct_made st u c H) as [other [ou [_ [_ ->]]]].
    split; [reflexivity|]. left. repeat split. now exists ou.
  - destruct (LastFacts.group_made st u c H) as [g [Hg ->]].
    split; [reflexivity|]. right. repeat split. now exists g.
Qed.

Lemma conversation_shape_witness :
  match Storage.getConversationsForUser Demo.store "u1" with
  | c :: _ => Schema.unreadCount c = 0%nat
  | [] => False
  end.
Proof.
  pose proof (conversation_shape Demo.store "u1") as H.
  destruct (Storage.getConversationsForUser Demo.store "u1") as [|c l] eqn:Hc;
    [vm_compute in Hc; discriminate|].
  now destruct (H c (or_introl eq_refl)).
Defined.

Module LatestFacts.
Import Schema Storage Props MoreProps.

Lemma first_of_filter {A : Type} (q : A -> bool) (l : list A) (m : A) :
  hd_error (filter q l) = Some m ->
  exists pre post, l = (pre ++ m :: post)%list
                   /\ (forall x, In x pre -> q x = false) /\ q m = true.
Proof.
  induction l as [|y l IH]; simpl; [discriminate|].
  destruct (q y) eqn:Hy.
  - intros [= ->]. exists [], l. repeat split; [intros x []|exact Hy].
  - intros H. destruct (IH H) as [pre [post [-> [Hpre Hm]]]].
    exists (y :: pre), post. repeat split; [|exact Hm].
    intros x [<-|Hx]; [exact Hy|now apply Hpre].
Qed.

(** From the head of the descending sort of the selected messages to the
    place of that message in the log. *)
Lemma latest_in_log (p : Message -> bool) (P : Message -> Prop)
    (log : list Message) (m : Message) :
  (forall x, In x log -> (p x = true <-> P x)) ->
  hd_error (sortBy byTimeDesc (filter p log)) = Some m ->
  P m
  /\ exists pre post,
       log = (pre ++ m :: post)%list
       /\ (forall x, In x pre -> P x -> createdAt x < createdAt m)
       /\ (forall x, In x post -> P x -> createdAt x <= createdAt m).
Proof.
  intros Hp Hhd. destruct (LastFacts.hd_latest _ _ Hhd) as [Hin [Hmax Hfirst]].
  apply filter_In in Hin. destruct Hin as [Hlog Hpm].
  split; [now apply Hp|].
  rewrite <- filter_andb in Hfirst.
  destruct (first_of_filter _ _ _ Hfirst) as [pre [post [Hsplit [Hpre _]]]].
  exists pre, post. split; [exact Hsplit|]. split.
  - intros x Hx HP.
    assert (Hxlog : In x log) by (rewrite Hsplit; apply in_app_iff; now left).
    assert (Hpx : p x = true) by now apply Hp.
    specialize (Hpre x Hx). rewrite Hpx in Hpre. simpl in Hpre.
    unfold atTime in Hpre. apply Z.eqb_neq in Hpre.
    assert (createdAt x <= createdAt m) by (apply Hmax, filter_In; now split).
    lia.
  - intros x Hx HP.
    assert (Hxlog : In x log)
      by (rewrite Hsplit; apply in_app_iff; right; now right).
    apply Hmax, filter_In. split; [exact Hxlog|now apply Hp].
Qed.

End LatestFacts.

(** In a well-formed store the last message of a conversation belongs to
    the conversation; every message of the conversation stored before it is
    strictly older and every one stored after it is not newer: it is a latest
    message and, among the latest, the first that was stored.  Only a group
    that no stored message is addressed to has no last message. *)
Theorem lastMessage_latest
    (st : Storage.MemStorage) (u : string) (c : Schema.Conversation) :
  Props.wellFormed st ->
  In c (Storage.getConversationsForUser st u) ->
  match Schema.lastMessage c with
  | Some m =>
      MoreProps.about u c m
      /\ exists pre post,
           JsMap.values (Storage.messages st) = (pre ++ m :: post)%list
           /\ (forall x, In x pre -> MoreProps.about u c x ->
                         Schema.createdAt x < Schema.createdAt m)
           /\ (forall x, In x post -> MoreProps.about u c x ->
                         Schema.createdAt x <= Schema.createdAt m)
  | None =>
      Schema.conv_type c = Schema.groupConv
      /\ forall x, In x (JsMap.values (Storage.messages st)) -> ~ MoreProps.about u c x
  end.
Proof.
  intros Hwf H. apply LastFacts.conversations_In in H. destruct H as [H|H].
  - destruct (LastFacts.direct_made st u c H) as [other [ou [Hin [Hou ->]]]].
    assert (Hid : Schema.user_id ou = other).
    { unfold Storage.getUser in Hou. apply MapFacts.get_In in Hou.
      apply (Props.wf_user_key st Hwf _ _ Hou). }
    assert (Hp : forall x, In x (JsMap.values (Storage.messages st)) ->
              negb (Js.truthy (Schema.groupId x)) && Storage.between u other x = true
              <-> MoreProps.about u
                    (Schema.mkConversation Schema.direct (Some ou) None
                       (hd_error (sortBy Storage.byTimeDesc
                          (filter (fun msg => negb (Js.truthy (Schema.groupId msg))
                                              && Storage.between u other msg)
                                  (JsMap.values (Storage.messages st))))) 0%nat) x).
    { intros x Hx. unfold MoreProps.about. cbn. rewrite Hid.
      destruct (Props.wf_messages st Hwf x Hx) as [_ Hg].
      rewrite andb_true_iff, negb_true_iff, (ConversationFacts.normalized_truthy _ Hg),
        EntryFacts.between_spec.
      destruct (Schema.groupId x); split; intros [H1 H2]; split;
        try assumption; try reflexivity; discriminate. }
    cbn [Schema.lastMessage].
    destruct (hd_error _) as [m|] eqn:Hhd.
    + now apply (LatestFacts.latest_in_log _ _ _ m Hp).
    + exfalso.
      apply ConversationFacts.scan_In in Hin; [|apply (Props.wf_messages st Hwf)].
      destruct Hin as [[]|[m [Hm [Hd Hb]]]].
      assert (Hrel : In m (filter (fun msg => negb (Js.truthy (Schema.groupId msg))
                                              && Storage.between u other msg)
                                  (JsMap.values (Storage.messages st)))).
      { apply filter_In. split; [exact Hm|]. apply andb_true_iff. split.
        - unfold Props.isDirect in Hd. now rewrite Hd.
        - apply EntryFacts.between_spec. tauto. }
      destruct (sortBy Storage.byTimeDesc _) eqn:Hs; [|discriminate].
      apply LastFacts.sortBy_nil in Hs. rewrite Hs in Hrel. contradiction.
  - destruct (LastFacts.group_made st u c H) as [g [_ ->]].
    assert (Hp : forall x, In x (JsMap.values (Storage.messages st)) ->
              Js.optEq (Schema.groupId x) (Schema.group_id (Schema.gwm_group g)) = true
              <-> MoreProps.about u
                    (Schema.mkConversation Schema.groupConv None (Some g)
                       (hd_error (sortBy Storage.byTimeDesc
                          (filter (fun msg => Js.optEq (Schema.groupId msg)
                                                (Schema.group_id (Schema.gwm_group g)))
                                  (JsMap.values (Storage.messages st))))) 0%nat) x).
    { intros x _. unfold MoreProps.about. cbn. apply EntryFacts.optEq_Some. }
    cbn [Schema.lastMessage].
    destruct (hd_error _) as [m|] eqn:Hhd.
    + now apply (LatestFacts.latest_in_log _ _ _ m Hp).
    + split; [reflexivity|]. intros x Hx Habout.
      destruct (sortBy Storage.byTimeDesc _) eqn:Hs; [|discriminate].
      apply LastFacts.sortBy_nil in Hs.
      assert (Hrel : In x (filter (fun msg => Js.optEq (Schema.groupId msg)
                                                (Schema.group_id (Schema.gwm_group g)))
                                  (JsMap.values (Storage.messages st)))).
      { apply filter_In. split; [exact Hx|]. apply EntryFacts.optEq_Some.
        exact Habout. }
      rewrite Hs in Hrel. contradiction.
Qed.

Lemma lastMessage_latest_witness :
  match hd_error (Storage.getConversationsForUser Demo.store "u4") with
  | Some c =>
      match Schema.lastMessage c with
      | Some m =>
          Schema.content m = "hi"
          /\ ((Schema.senderId m = "u4" /\ Schema.recipientId m = Some "u1")
              \/ (Schema.senderId m = "u1" /\ Schema.recipientId m = Some "u4"))
      | None => False
      end
  | None => False
  end.
Proof.
  destruct (hd_error (Storage.getConversationsForUser Demo.store "u4")) as [c|] eqn:Hc;
    [|vm_compute in Hc; discriminate].
  assert (Hin : In c (Storage.getConversationsForUser Demo.store "u4")).
  { destruct (Storage.getConversationsForUser Demo.store "u4"); [discriminate|].
    inversion Hc. now left. }
  pose proof (lastMessage_latest Demo.store "u4" c
                (Invariants.wellFormed_run Demo.trace) Hin) as H.
  vm_compute in Hc. inversion Hc as [Hc']. try subst c.
  cbn [Schema.lastMessage] in H |- *. destruct H as [[_ Habout] _].
  split; [reflexivity|exact Habout].
Defined.

(** Of two messages of one instant the conversation shows the one stored
    first: "hi" before "hey", both at time 10. *)
Example last_of_one_instant :
  map (fun c => option_map Schema.content (Schema.lastMessage c))
      (Storage.getConversationsForUser Demo.store "u4") = [Some "hi"].
Proof. reflexivity. Qed.

(* ================================================================== *)
(** ** Users: signup, lookup, login *)

Module UserFacts.
Import Schema Storage Routes Props MapFacts RouteFacts.

Lemma set_In {V : Type} (m : JsMap.t V) (k : string) (v : V) :
  In (k, v) (JsMap.set k v m).
Proof. apply get_In, get_set_same. Qed.

Lemma find_set_new {V : Type} (f : V -> bool) (m : JsMap.t V) (k : string) (v : V) :
  (forall v', In v' (JsMap.values m) -> f v' = false) -> f v = true ->
  find f (JsMap.values (JsMap.set k v m)) = Some v.
Proof.
  intros Hold Hnew. induction m as [|[k0 v0] m IH]; simpl; [now rewrite Hnew|].
  destruct (String.eqb_spec k0 k) as [->|Hne]; simpl; [now rewrite Hnew|].
  rewrite (Hold v0) by now left. apply IH. intros v' Hv'. apply Hold. now right.
Qed.

Lemma find_unique (l : list User) (u : User) :
  NoDup (map username l) -> In u l ->
  find (fun user => (username user =? username u)%string) l = Some u.
Proof.
  induction l as [|x l IH]; simpl; [intros _ []|].
  intros Hnd Hin. inversion Hnd as [|? ? Hx Hl]; subst.
  destruct Hin as [->|Hin]; [now rewrite String.eqb_refl|].
  destruct (String.eqb_spec (username x) (username u)) as [Heq|Hne]; [|now apply IH].
  exfalso. apply Hx. rewrite Heq. now apply in_map.
Qed.

Lemma users_keys_step (st st' : MemStorage) :
  storeStep st st' -> NoDup (JsMap.keys (users st)) -> NoDup (JsMap.keys (users st')).
Proof.
  intros [|uuid hash b Hfree|uuid now uid b|uuid now uid b Hx|g u|g u] H;
    try exact H; cbn.
  - now apply keys_set_nodup.
  - unfold addGroupMember. now destruct (JsMap.get g (groupMembers st)).
  - unfold removeGroupMember. now destruct (JsMap.get g (groupMembers st)).
Qed.

Lemma users_keys_run (trace : list Event) :
  NoDup (JsMap.keys (users (storage (run trace start)))).
Proof.
  apply (run_invariant (fun srv => NoDup (JsMap.keys (users (storage srv))))).
  - intros srv e. apply users_keys_step, step_storeStep.
  - constructor.
Qed.

Lemma usernames_run (trace : list Event) :
  NoDup (map username (JsMap.values (users (storage (run trace start))))).
Proof.
  apply (run_invariant
           (fun srv => NoDup (map username (JsMap.values (users (storage srv)))))).
  - intros srv e. apply Invariants.usernames_step, step_storeStep.
  - constructor.
Qed.

End UserFacts.

Module OverlapFacts.
Import Schema Storage Routes MapFacts RouteFacts.

(** What a step does to the users: nothing, or one [users.set] of a user
    under its own identifier. *)
Lemma step_users (s : Overlap.State) (e : Overlap.Event) :
  users (storage (Overlap.server (Overlap.step s e)))
  = users (storage (Overlap.server s))
  \/ exists uuid name hash,
       users (storage (Overlap.server (Overlap.step s e)))
       = JsMap.set uuid (mkUser uuid name hash) (users (storage (Overlap.server s))).
Proof.
  destruct e as [b uuid|i hash|e]; cbn [Overlap.step].
  - left. now destruct (Overlap.signupBegin b (Overlap.server s)).
  - destruct (nth_error (Overlap.awaiting s) i) as [[data uuid]|]; [|now left].
    right. now exists uuid, (iu_username data), hash.
  - cbn [Overlap.server].
    destruct (step_storeStep (Overlap.server s) e)
      as [|uuid hash b Hfree|uuid now uid b|uuid now uid b Hx|g u|g u];
      try (now left).
    + right. now exists uuid, (iu_username b), hash.
    + left. apply EntryFacts.membership_only_add.
    + left. apply EntryFacts.membership_only_remove.
Qed.

Lemma overlap_invariant (P : Overlap.State -> Prop) :
  (forall s e, P s -> P (Overlap.step s e)) ->
  forall trace s, P s -> P (Overlap.run trace s).
Proof.
  intros Hstep trace. unfold Overlap.run.
  induction trace as [|e trace IH]; intros s H; simpl; [exact H|].
  apply IH. now apply Hstep.
Qed.

(** Users sit under their own identifier, one entry per identifier, also
    when signups overlap. *)
Lemma users_keyed (trace : list Overlap.Event) :
  let m := users (storage (Overlap.server (Overlap.run trace Overlap.start))) in
  NoDup (JsMap.keys m) /\ forall k u, In (k, u) m -> user_id u = k.
Proof.
  apply (overlap_invariant
           (fun s => NoDup (JsMap.keys (users (storage (Overlap.server s))))
                     /\ forall k u, In (k, u) (users (storage (Overlap.server s))) ->
                                    user_id u = k)).
  - intros s e [Hnd Hkey].
    destruct (step_users s e) as [->|[uuid [name [hash ->]]]]; [now split|].
    split; [now apply keys_set_nodup|].
    intros k u Hin. apply In_set in Hin.
    destruct Hin as [[-> ->]|Hin]; [reflexivity|now apply Hkey].
  - split; [constructor|intros k u []].
Qed.

Lemma find_first (f : User -> bool) (l : list User) (u : User) :
  In u l -> f u = true -> exists u', find f l = Some u' /\ In u' l /\ f u' = true.
Proof.
  intros Hin Hf. destruct (find f l) as [u'|] eqn:Hfind.
  - exists u'. apply find_some in Hfind. tauto.
  - apply (find_none _ _ Hfind) in Hin. congruence.
Qed.

End OverlapFacts.

(** After every run of the server, signups that overlap included, each
    stored user is found under its identifier by [getUser];
    [getUserByUsername] finds under its username a stored user of that
    username, and finds the user itself when no other stored user has the
    username. *)
Theorem stored_user_lookup (trace : list Overlap.Event) (u : Schema.User) :
  let st := Routes.storage (Overlap.server (Overlap.run trace Overlap.start)) in
  In u (JsMap.values (Storage.users st)) ->
  Storage.getUser st (Schema.user_id u) = Some u
  /\ exists u',
       Storage.getUserByUsername st (Schema.username u) = Some u'
       /\ In u' (JsMap.values (Storage.users st))
       /\ Schema.username u' = Schema.username u
       /\ ((forall v, In v (JsMap.values (Storage.users st)) ->
                      Schema.username v = Schema.username u -> v = u) ->
           u' = u).
Proof.
  intros st Hu. destruct (OverlapFacts.users_keyed trace) as [Hnd Hkey]. fold st in Hnd, Hkey.
  split.
  - unfold JsMap.values in Hu. apply in_map_iff in Hu.
    destruct Hu as [[k v] [Hv Hin]]. simpl in Hv. subst v.
    rewrite (Hkey k u Hin). now apply ConversationFacts.In_get.
  - destruct (OverlapFacts.find_first
                (fun user => (Schema.username user =? Schema.username u)%string)
                (JsMap.values (Storage.users st)) u Hu (String.eqb_refl _))
      as [u' [Hfind [Hin Hname]]].
    apply String.eqb_eq in Hname. exists u'. repeat split; try assumption.
    intros Honly. now apply Honly.
Qed.

Lemma stored_user_lookup_witness :
  Storage.getUser
    (Routes.storage (Overlap.server (Overlap.run Overlap.twoAlices Overlap.start))) "u2"
  = Some (Schema.mkUser "u2" "alice" "hash2")
  /\ Storage.getUserByUsername
       (Routes.storage (Overlap.server (Overlap.run Overlap.twoAlices Overlap.start)))
       "alice"
     = Some (Schema.mkUser "u1" "alice" "hash1").
Proof.
  destruct (stored_user_lookup Overlap.twoAlices (Schema.mkUser "u2" "alice" "hash2"))
    as [Hid [u' [Hname _]]].
  - vm_compute. tauto.
  - split; [exact Hid|reflexivity].
Defined.

(** When the hash of a signup is ready, the user is stored under the
    identifier drawn for it, with the given username and the hash, and the
    answer is the user without its hash.  If the username is still free at
    that moment, [getUserByUsername] finds the new user at once, and a login
    with the same username, not empty, and a password, not empty, that
    compares to the hash succeeds and opens a session for the new
    identifier. *)
Theorem signup_then_lookup_and_login
    (data : Schema.InsertUser) (uuid hash : string) (srv : Routes.Server) :
  let srv' := fst (Overlap.signupResume data uuid hash srv) in
  let user := Schema.mkUser uuid (Schema.iu_username data) hash in
  Storage.getUser (Routes.storage srv') uuid = Some user
  /\ snd (Overlap.signupResume data uuid hash srv) = Routes.json (Routes.sanitizeUser user)
  /\ (Storage.getUserByUsername (Routes.storage srv) (Schema.iu_username data) = None ->
      Storage.getUserByUsername (Routes.storage srv') (Schema.iu_username data) = Some user
      /\ forall compare,
           Schema.iu_username data <> "" ->
           Schema.iu_password data <> "" ->
           compare (Schema.iu_password data) hash = true ->
           Auth.login compare
             (Auth.mkLoginUser (Schema.iu_username data) (Schema.iu_password data)) srv'
           = (Routes.json (Routes.sanitizeUser user), Some uuid)).
Proof.
  unfold Overlap.signupResume. cbn [fst snd Storage.createUser Routes.storage].
  split; [|split; [reflexivity|]].
  - unfold Storage.getUser. cbn [Storage.users]. apply MapFacts.get_set_same.
  - intros Hfree.
    assert (Hfind : Storage.getUserByUsername
                      (Storage.mkMemStorage
                         (JsMap.set uuid (Schema.mkUser uuid (Schema.iu_username data) hash)
                            (Storage.users (Routes.storage srv)))
                         (Storage.messages (Routes.storage srv))
                         (Storage.groups (Routes.storage srv))
                         (Storage.groupMembers (Routes.storage srv)))
                      (Schema.iu_username data)
                    = Some (Schema.mkUser uuid (Schema.iu_username data) hash)).
    { unfold Storage.getUserByUsername. cbn [Storage.users].
      apply UserFacts.find_set_new; [|apply String.eqb_refl].
      intros v' Hv'. apply String.eqb_neq.
      now apply (RouteFacts.getUserByUsername_None _ _ Hfree). }
    split; [exact Hfind|].
    intros compare Hname Hpw Hcmp.
    assert (Hschema : Auth.loginSchema
                        (Auth.mkLoginUser (Schema.iu_username data) (Schema.iu_password data))
                      = Schema.Success
                          (Auth.mkLoginUser (Schema.iu_username data)
                             (Schema.iu_password data))).
    { unfold Auth.loginSchema. cbn [Auth.lu_username Auth.lu_password].
      destruct (Schema.iu_username data); [congruence|].
      destruct (Schema.iu_password data); [congruence|reflexivity]. }
    unfold Auth.login. rewrite Hschema. unfold Auth.verifyPassword.
    cbn [Auth.lu_username Auth.lu_password Routes.storage]. rewrite Hfind.
    cbn [Schema.passwordHash]. now rewrite Hcmp.
Qed.

Lemma signup_then_lookup_and_login_witness :
  Storage.getUserByUsername
    (Routes.storage
       (fst (Overlap.signupResume (Schema.mkInsertUser "carol" "secret5") "u5" "hash5"
               Demo.server))) "carol"
  = Some (Schema.mkUser "u5" "carol" "hash5").
Proof.
  destruct (signup_then_lookup_and_login (Schema.mkInsertUser "carol" "secret5") "u5" "hash5"
              Demo.server) as [_ [_ H]].
  destruct H as [H _]; [reflexivity|exact H].
Defined.

(** When another signup of the name was stored during the wait, the lookup
    by username finds that one, not the user just stored. *)
Example lookup_after_overlap :
  let srv := Overlap.server (Overlap.run Overlap.twoAlices Overlap.start) in
  Storage.getUser (Routes.storage srv) "u2" = Some (Schema.mkUser "u2" "alice" "hash2")
  /\ Storage.getUserByUsername (Routes.storage srv) "alice"
     = Some (Schema.mkUser "u1" "alice" "hash1").
Proof. split; reflexivity. Qed.

(** A login passes only with the username of a stored user whose hash the
    password compares to: the session then holds that user's identifier and
    the answer is the user without its hash.  An unknown username and a
    password that compares to no hash of that username get the same 401
    and no session; an empty username is refused with 400, whatever is
    stored. *)
Theorem login_answers
    (compare : string -> string -> bool) (b : Auth.LoginUser) (srv : Routes.Server) :
  (Routes.status (fst (Auth.login compare b srv)) = 200 ->
   exists u,
     In u (JsMap.values (Storage.users (Routes.storage srv)))
     /\ Schema.username u = Auth.lu_username b
     /\ compare (Auth.lu_password b) (Schema.passwordHash u) = true
     /\ Auth.login compare b srv
        = (Routes.json (Routes.sanitizeUser u), Some (Schema.user_id u)))
  /\ (Auth.loginSchema b = Schema.Success b ->
      (forall u, In u (JsMap.values (Storage.users (Routes.storage srv))) ->
                 Schema.username u = Auth.lu_username b ->
                 compare (Auth.lu_password b) (Schema.passwordHash u) = false) ->
      Auth.login compare b srv
      = (Routes.fail 401 "Invalid username or password", None))
  /\ (Auth.lu_username b = "" ->
      Auth.login compare b srv = (Routes.fail 400 "Username is required", None)).
Proof.
  split; [|split].
  - unfold Auth.login. destruct (Auth.loginSchema b) as [d|msg] eqn:Hs; [|discriminate].
    assert (d = b) as ->.
    { unfold Auth.loginSchema in Hs.
      destruct (String.length (Auth.lu_username b) <? 1)%nat; [discriminate|].
      destruct (String.length (Auth.lu_password b) <? 1)%nat; [discriminate|].
      now inversion Hs. }
    unfold Auth.verifyPassword, Storage.getUserByUsername.
    destruct (find _ _) as [u|] eqn:Hfind; [|discriminate].
    destruct (compare (Auth.lu_password b) (Schema.passwordHash u)) eqn:Hc; [|discriminate].
    intros _. exists u. apply find_some in Hfind. destruct Hfind as [Hin Hname].
    apply String.eqb_eq in Hname. now repeat split.
  - intros Hs Hwrong. unfold Auth.login. rewrite Hs.
    unfold Auth.verifyPassword, Storage.getUserByUsername.
    destruct (find _ _) as [u|] eqn:Hfind; [|reflexivity].
    apply find_some in Hfind. destruct Hfind as [Hin Hname].
    apply String.eqb_eq in Hname. now rewrite (Hwrong u Hin Hname).
  - intros Hempty. unfold Auth.login, Auth.loginSchema. now rewrite Hempty.
Qed.

Lemma login_answers_witness :
  Auth.login (fun p h => (p =? "secret4")%string && (h =? "hash4")%string)
    (Auth.mkLoginUser "bob" "wrong") Demo.server
  = (Routes.fail 401 "Invalid username or password", None)
  /\ Auth.login (fun p h => (p =? "secret4")%string && (h =? "hash4")%string)
       (Auth.mkLoginUser "nobody" "secret4") Demo.server
     = (Routes.fail 401 "Invalid username or password", None).
Proof.
  split.
  - destruct (login_answers (fun p h => (p =? "secret4")%string && (h =? "hash4")%string)
                (Auth.mkLoginUser "bob" "wrong") Demo.server) as [_ [H _]].
    apply H; [reflexivity|]. intros u _ _. reflexivity.
  - destruct (login_answers (fun p h => (p =? "secret4")%string && (h =? "hash4")%string)
                (Auth.mkLoginUser "nobody" "secret4") Demo.server) as [_ [H _]].
    apply H; [reflexivity|].
    vm_compute. intros u [<-|[<-|[<-|[<-|[]]]]]; discriminate.
Defined.

(** The signup schema puts no bound on the username: the empty one is
    accepted, and the account it creates cannot log in. *)
Example empty_username_signs_up :
  Routes.status (snd (Routes.signup (Schema.mkInsertUser "" "secret6") "u6" "hash6"
                        Demo.server)) = 200.
Proof. reflexivity. Qed.

(* ================================================================== *)
(** ** The writing routes: outcomes *)

Module OutcomeFacts.
Import Schema Storage Routes.

(** [postMessages] step by step. *)
Lemma postMessages_cases (session : option string) (b : InsertMessage)
    (uuid : string) (now : Z) (srv : Server) :
  let r := postMessages session b uuid now srv in
  (requireAuth session = None /\ r = (srv, fail 401 "Not authenticated"))
  \/ (exists msg, insertMessageSchema b = Failure msg /\ r = (srv, fail 400 msg))
  \/ (exists uid msg,
        requireAuth session = Some uid
        /\ insertMessageSchema b = Success b
        /\ r = (mkServer (fst (createMessage uuid now uid b (storage srv))) (clients srv),
                fail 500 msg))
  \/ (exists uid payload,
        requireAuth session = Some uid
        /\ insertMessageSchema b = Success b
        /\ r = (mkServer (fst (createMessage uuid now uid b (storage srv)))
                  (broadcast (Js.Obj payload) (clients srv)),
                json (Js.Obj payload))).
Proof.
  unfold postMessages. destruct (requireAuth session) as [uid|]; [|now left].
  destruct (insertMessageSchema b) as [d|msg] eqn:Hs;
    [|right; left; now exists msg].
  destruct (RouteFacts.insertMessageSchema_Success _ _ Hs) as [-> _].
  right. right. cbn [createMessage fst snd senderId recipientId groupId].
  repeat match goal with
         | |- context [match ?x with _ => _ end] => destruct x
         end;
    try (left; eexists uid, _; now repeat split);
    right; eexists uid, _; now repeat split.
Qed.

End OutcomeFacts.

(** [POST /api/messages] answers 200, 400, 401 or 500.  With 400 or 401 the
    server is as before; with any answer but 200 nothing is sent to any
    socket. *)
Theorem post_outcomes
    (session : option string) (b : Schema.InsertMessage) (uuid : string) (now : Z)
    (srv : Routes.Server) :
  let r := Routes.postMessages session b uuid now srv in
  (Routes.status (snd r) = 200 \/ Routes.status (snd r) = 400
   \/ Routes.status (snd r) = 401 \/ Routes.status (snd r) = 500)
  /\ (Routes.status (snd r) = 400 \/ Routes.status (snd r) = 401 -> fst r = srv)
  /\ (Routes.status (snd r) <> 200 -> Routes.clients (fst r) = Routes.clients srv).
Proof.
  intros r.
  destruct (OutcomeFacts.postMessages_cases session b uuid now srv)
    as [[_ H]|[[msg [_ H]]|[[uid [msg [_ [_ H]]]]|[uid [payload [_ [_ H]]]]]]];
    fold r in H; rewrite H; cbn; repeat split; auto; try (intros [?|?]; discriminate);
    try (intros Hne; now contradiction Hne).
Qed.

Lemma post_outcomes_witness :
  fst (Routes.postMessages None Demo.toGhost "m9" 12 Demo.server) = Demo.server.
Proof.
  destruct (post_outcomes None Demo.toGhost "m9" 12 Demo.server) as [_ [H _]].
  apply H. right. reflexivity.
Defined.

(** When the caller is authenticated and the body passes the schema, the
    log holds under the new identifier a message whose sender is the
    session's user, whose addressing and content are the body's and whose
    time is the time of the call; users, groups and memberships are as
    before. *)
Theorem posted_message_is_stored
    (session : option string) (uid : string) (b : Schema.InsertMessage)
    (uuid : string) (now : Z) (srv : Routes.Server) :
  Routes.requireAuth session = Some uid ->
  Schema.insertMessageSchema b = Schema.Success b ->
  let st' := Routes.storage (fst (Routes.postMessages session b uuid now srv)) in
  JsMap.get uuid (Storage.messages st')
  = Some (Schema.mkMessage uuid uid (Js.orNull (Schema.im_recipientId b))
            (Js.orNull (Schema.im_groupId b)) (Schema.im_content b) now)
  /\ Storage.users st' = Storage.users (Routes.storage srv)
  /\ Storage.groups st' = Storage.groups (Routes.storage srv)
  /\ Storage.groupMembers st' = Storage.groupMembers (Routes.storage srv).
Proof.
  intros Hauth Hvalid st'. subst st'.
  destruct (OutcomeFacts.postMessages_cases session b uuid now srv)
    as [[Hn _]|[[msg [Hf _]]|[[uid' [msg [Ha [_ H]]]]|[uid' [payload [Ha [_ H]]]]]]];
    try congruence; rewrite H; assert (uid' = uid) as -> by congruence;
    cbn; rewrite MapFacts.get_set_same; now repeat split.
Qed.

Lemma posted_message_is_stored_witness :
  JsMap.get "m9"
    (Storage.messages
       (Routes.storage (fst (Routes.postMessages (Some "u4")
                               (Schema.mkInsertMessage None (Some "g1") "hello") "m9" 12
                               Demo.server))))
  = Some (Schema.mkMessage "m9" "u4" None (Some "g1") "hello" 12).
Proof.
  destruct (posted_message_is_stored (Some "u4") "u4"
              (Schema.mkInsertMessage None (Some "g1") "hello") "m9" 12 Demo.server)
    as [H _]; [reflexivity|reflexivity|exact H].
Defined.

(** Sending to a group asks for no membership: a caller with a user record
    who addresses an existing group is answered 200, member or not. *)
Theorem group_post_ignores_membership
    (session : option string) (uid gid : string) (b : Schema.InsertMessage)
    (uuid : string) (now : Z) (srv : Routes.Server) :
  Routes.requireAuth session = Some uid ->
  Storage.getUser (Routes.storage srv) uid <> None ->
  Js.truthy (Schema.im_recipientId b) = false ->
  Schema.im_groupId b = Some gid ->
  gid <> "" ->
  Storage.getGroup (Routes.storage srv) gid <> None ->
  Routes.status (snd (Routes.postMessages session b uuid now srv)) = 200.
Proof.
  intros Hauth Hu Hr Hg Hne Hgroup. unfold Routes.postMessages. rewrite Hauth.
  assert (Htg : Js.truthy (Schema.im_groupId b) = true).
  { rewrite Hg. simpl. now destruct (String.eqb_spec gid ""). }
  unfold Schema.insertMessageSchema. rewrite Hr, Htg.
  cbn [negb andb orb Storage.createMessage fst snd Schema.senderId Schema.recipientId
       Schema.groupId].
  unfold Storage.getUser in *. cbn [Storage.users].
  destruct (JsMap.get uid (Storage.users (Routes.storage srv))) as [sender|]; [|congruence].
  rewrite (Invariants.orNull_falsy _ Hr).
  destruct (Invariants.orNull_truthy _ Htg) as [-> _]. cbn [Js.truthy]. rewrite Htg, Hg.
  unfold Storage.getGroupWithMembers, Storage.getGroup in *. cbn [Storage.groups].
  destruct (JsMap.get gid (Storage.groups (Routes.storage srv))); [reflexivity|congruence].
Qed.

Lemma group_post_ignores_membership_witness :
  ~ Props.memberOf Demo.store "g1" "u4"
  /\ Routes.status
       (snd (Routes.postMessages (Some "u4")
               (Schema.mkInsertMessage None (Some "g1") "hello") "m9" 12 Demo.server))
     = 200.
Proof.
  split.
  - intros [s [Hget Hin]]. vm_compute in Hget. inversion Hget; subst.
    destruct Hin as [H|[H|[]]]; discriminate.
  - apply (group_post_ignores_membership (Some "u4") "u4" "g1"); try reflexivity;
      vm_compute; discriminate.
Defined.

(** Creating a group never ends in 500: an authenticated caller who lists
    at least one member is answered 200 with the new group, and the creator
    and every listed member find the group, under the new identifier and with
    the given name, among their groups. *)
Theorem postGroups_visible_to_members
    (session : option string) (uid : string) (b : Schema.InsertGroup)
    (uuid : string) (now : Z) (srv : Routes.Server) :
  Routes.requireAuth session = Some uid ->
  Schema.ig_memberIds b <> [] ->
  let r := Routes.postGroups session b uuid now srv in
  Routes.status (snd r) = 200
  /\ forall x, x = uid \/ In x (Schema.ig_memberIds b) ->
       exists g, In g (Storage.getGroupsForUser (Routes.storage (fst r)) x)
                 /\ Schema.gwm_group g = Schema.mkGroup uuid (Schema.ig_name b) uid now.
Proof.
  intros Hauth Hne r. subst r. unfold Routes.postGroups. rewrite Hauth.
  unfold Schema.insertGroupSchema.
  destruct (Schema.ig_memberIds b) as [|m ms] eqn:Hm; [congruence|].
  cbn [Storage.createGroup fst snd Schema.group_id].
  set (st' := Storage.mkMemStorage _ _ _ _).
  assert (Hgwm : exists g, Storage.getGroupWithMembers st' uuid = Some g
                           /\ Schema.gwm_group g
                              = Schema.mkGroup uuid (Schema.ig_name b) uid now).
  { unfold Storage.getGroupWithMembers. subst st'. cbn [Storage.groups].
    rewrite MapFacts.get_set_same. eexists. split; reflexivity. }
  destruct Hgwm as [g [Hg Hgroup]]. rewrite Hg. cbn [fst snd Routes.storage].
  split; [reflexivity|]. intros x Hx. exists g. split; [|exact Hgroup].
  unfold Storage.getGroupsForUser. apply in_flat_map.
  exists (uuid, JsSet.ofList (uid :: Schema.ig_memberIds b)). split.
  - subst st'. cbn [Storage.groupMembers]. rewrite Hm. apply UserFacts.set_In.
  - cbn [fst snd].
    assert (Hhas : JsSet.has x (JsSet.ofList (uid :: Schema.ig_memberIds b)) = true).
    { apply MapFacts.has_In, SetFacts.ofList_In. simpl. intuition congruence. }
    rewrite Hhas, Hg. now left.
Qed.

Lemma postGroups_visible_to_members_witness :
  Routes.status (snd (Routes.postGroups (Some "u4") (Schema.mkInsertGroup "G3" ["u2"]) "g3" 20
                        Demo.server)) = 200.
Proof.
  destruct (postGroups_visible_to_members (Some "u4") "u4"
              (Schema.mkInsertGroup "G3" ["u2"]) "g3" 20 Demo.server) as [H _].
  - reflexivity.
  - discriminate.
  - exact H.
Defined.

(** Without a session user the two protected writing routes answer 401 and
    leave the server as it is, and every protected reading route answers
    401. *)
Theorem unauthenticated_is_refused (session : option string) (srv : Routes.Server) :
  Js.truthy session = false ->
  (forall b uuid now,
      Routes.postGroups session b uuid now srv = (srv, Routes.fail 401 "Not authenticated"))
  /\ (forall b uuid now,
        Routes.postMessages session b uuid now srv
        = (srv, Routes.fail 401 "Not authenticated"))
  /\ (forall q, Routes.usersSearch session q srv = Routes.fail 401 "Not authenticated")
  /\ ReadRoutes.authMe session srv = Routes.fail 401 "Not authenticated"
  /\ (forall id, ReadRoutes.usersById session id srv = Routes.fail 401 "Not authenticated")
  /\ ReadRoutes.groupsList session srv = Routes.fail 401 "Not authenticated"
  /\ (forall id, ReadRoutes.groupsById session id srv = Routes.fail 401 "Not authenticated")
  /\ ReadRoutes.conversations session srv = Routes.fail 401 "Not authenticated"
  /\ (forall u g, ReadRoutes.messagesList session u g srv
                  = Routes.fail 401 "Not authenticated").
Proof.
  intros H.
  assert (Ha : Routes.requireAuth session = None)
    by (unfold Routes.requireAuth; now rewrite H).
  unfold Routes.postGroups, Routes.postMessages, Routes.usersSearch, ReadRoutes.authMe,
    ReadRoutes.usersById, ReadRoutes.groupsList, ReadRoutes.groupsById,
    ReadRoutes.conversations, ReadRoutes.messagesList.
  rewrite Ha. now repeat split.
Qed.

Lemma unauthenticated_is_refused_witness :
  Routes.postGroups (Some "") (Schema.mkInsertGroup "G3" ["u2"]) "g3" 20 Demo.server
  = (Demo.server, Routes.fail 401 "Not authenticated").
Proof.
  destruct (unauthenticated_is_refused (Some "") Demo.server) as [H _];
    [reflexivity|apply H].
Defined.

Module GrowthFacts.
Import Schema Storage Routes MoreProps.

Lemma grew_refl {A : Type} (l : list A) : grewByAtMostOne l l.
Proof. now left. Qed.

Lemma grew_set {V : Type} (m : JsMap.t V) (k : string) (v : V) :
  JsMap.get k m = None -> grewByAtMostOne m (JsMap.set k v m).
Proof. intros H. right. exists (k, v). now apply SetFacts.set_fresh. Qed.

Lemma keys_kept {V : Type} (m : JsMap.t V) (k k' : string) (v : V) :
  In k' (JsMap.keys m) -> In k' (JsMap.keys (JsMap.set k v m)).
Proof. intros H. apply MapFacts.keys_set. now right. Qed.

End GrowthFacts.

(** No step of the server removes a user, a message or a group; and when
    the identifier the step brings is new to the three registries, each of
    them is as before or has one more entry at its end: nothing stored is
    rewritten or reordered. *)
Theorem registries_only_grow (srv : Routes.Server) (e : Routes.Event) :
  let st := Routes.storage srv in
  let st' := Routes.storage (Routes.step srv e) in
  (forall k, In k (JsMap.keys (Storage.users st)) -> In k (JsMap.keys (Storage.users st')))
  /\ (forall k, In k (JsMap.keys (Storage.messages st)) ->
                In k (JsMap.keys (Storage.messages st')))
  /\ (forall k, In k (JsMap.keys (Storage.groups st)) ->
                In k (JsMap.keys (Storage.groups st')))
  /\ ((forall uuid, MoreProps.eventUuid e = Some uuid ->
                    JsMap.get uuid (Storage.users st) = None
                    /\ JsMap.get uuid (Storage.messages st) = None
                    /\ JsMap.get uuid (Storage.groups st) = None) ->
      MoreProps.grewByAtMostOne (Storage.users st) (Storage.users st')
      /\ MoreProps.grewByAtMostOne (Storage.messages st) (Storage.messages st')
      /\ MoreProps.grewByAtMostOne (Storage.groups st) (Storage.groups st')).
Proof.
  intros st st'. subst st st'.
  assert (Hsame : forall s0 : Storage.MemStorage,
             (forall k, In k (JsMap.keys (Storage.users s0)) ->
                        In k (JsMap.keys (Storage.users s0)))
             /\ (forall k, In k (JsMap.keys (Storage.messages s0)) ->
                           In k (JsMap.keys (Storage.messages s0)))
             /\ (forall k, In k (JsMap.keys (Storage.groups s0)) ->
                           In k (JsMap.keys (Storage.groups s0)))
             /\ ((forall uuid, MoreProps.eventUuid e = Some uuid ->
                               JsMap.get uuid (Storage.users s0) = None
                               /\ JsMap.get uuid (Storage.messages s0) = None
                               /\ JsMap.get uuid (Storage.groups s0) = None) ->
                 MoreProps.grewByAtMostOne (Storage.users s0) (Storage.users s0)
                 /\ MoreProps.grewByAtMostOne (Storage.messages s0) (Storage.messages s0)
                 /\ MoreProps.grewByAtMostOne (Storage.groups s0) (Storage.groups s0))).
  { intros s0. split; [auto|split; [auto|split; [auto|]]].
    intros _. split; [|split]; apply GrowthFacts.grew_refl. }
  destruct e as [b uuid hash|s b uuid now|s b uuid now|g u|g u|id|id|id];
    cbn [Routes.step Routes.storage MoreProps.eventUuid] in *; try apply Hsame.
  - destruct (RouteFacts.signup_storage b uuid hash srv) as [->|[_ ->]]; [apply Hsame|].
    cbn. split; [intros k; apply GrowthFacts.keys_kept|split; [auto|split; [auto|]]].
    intros H. destruct (H uuid eq_refl) as [Hu _].
    split; [now apply GrowthFacts.grew_set|split; apply GrowthFacts.grew_refl].
  - destruct (RouteFacts.postGroups_storage s b uuid now srv) as [->|[uid ->]];
      [apply Hsame|].
    cbn. split; [auto|split; [auto|split; [intros k; apply GrowthFacts.keys_kept|]]].
    intros H. destruct (H uuid eq_refl) as [_ [_ Hg]].
    split; [apply GrowthFacts.grew_refl|split;
      [apply GrowthFacts.grew_refl|now apply GrowthFacts.grew_set]].
  - destruct (RouteFacts.postMessages_storage s b uuid now srv) as [->|[uid [_ ->]]];
      [apply Hsame|].
    cbn. split; [auto|split; [intros k; apply GrowthFacts.keys_kept|split; [auto|]]].
    intros H. destruct (H uuid eq_refl) as [_ [Hm _]].
    split; [apply GrowthFacts.grew_refl|split;
      [now apply GrowthFacts.grew_set|apply GrowthFacts.grew_refl]].
  - destruct (EntryFacts.membership_only_add g u (Routes.storage srv)) as [-> [-> ->]].
    apply Hsame.
  - destruct (EntryFacts.membership_only_remove g u (Routes.storage srv)) as [-> [-> ->]].
    apply Hsame.
Qed.

Lemma registries_only_grow_witness :
  MoreProps.grewByAtMostOne (Storage.messages Demo.store)
    (Storage.messages
       (Routes.storage
          (Routes.step Demo.server
             (Routes.PostMessages (Some "u4")
                (Schema.mkInsertMessage None (Some "g1") "hello") "m9" 12)))).
Proof.
  destruct (registries_only_grow Demo.server
              (Routes.PostMessages (Some "u4")
                 (Schema.mkInsertMessage None (Some "g1") "hello") "m9" 12))
    as [_ [_ [_ H]]].
  apply H. intros uuid [= <-]. repeat split.
Defined.

(* ================================================================== *)
(** ** The reading routes: who may read, and what is shown *)

Module GateFacts.
Import Schema Storage Routes ReadRoutes Props.

Lemma members_ids (st : MemStorage) (g : string) (s : JsSet.t) :
  wellFormed st -> JsMap.get g (groupMembers st) = Some s ->
  map user_id (getGroupMembers st g)
  = filter (fun i => match getUser st i with Some _ => true | None => false end) s.
Proof.
  intros Hwf Hs. unfold getGroupMembers. rewrite Hs. clear Hs.
  induction s as [|i s' IH]; [reflexivity|].
  cbn [flat_map filter]. rewrite map_app, IH.
  destruct (getUser st i) as [u|] eqn:Hu; [|reflexivity].
  cbn. unfold getUser in Hu. apply MapFacts.get_In in Hu.
  now rewrite (wf_user_key st Hwf _ _ Hu).
Qed.

(** The test of the two group-reading routes holds of the members of the
    group that have a user record, and of no one else. *)
Lemma isMember_spec (st : MemStorage) (gid me : string) (g : GroupWithMembers) :
  wellFormed st -> getGroupWithMembers st gid = Some g ->
  isMember g me = true <-> memberOf st gid me /\ getUser st me <> None.
Proof.
  intros Hwf Hg. unfold getGroupWithMembers in Hg.
  destruct (JsMap.get gid (groups st)); [|discriminate]. inversion Hg; subst g. clear Hg.
  unfold isMember. cbn [members]. rewrite existsb_exists. unfold memberOf.
  destruct (JsMap.get gid (groupMembers st)) as [s|] eqn:Hs.
  - pose proof (members_ids st gid s Hwf Hs) as Hids. split.
    + intros [m [Hm Heq]]. apply String.eqb_eq in Heq.
      assert (Hin : In me (map user_id (getGroupMembers st gid)))
        by (rewrite <- Heq; now apply in_map).
      rewrite Hids in Hin. apply filter_In in Hin. destruct Hin as [Hin Hrec].
      split; [now exists s|]. now destruct (getUser st me).
    + intros [[s' [Hs' Hin]] Hrec]. assert (s' = s) by congruence. subst s'.
      assert (Hin' : In me (map user_id (getGroupMembers st gid))).
      { rewrite Hids. apply filter_In. split; [exact Hin|]. now destruct (getUser st me). }
      apply in_map_iff in Hin'. destruct Hin' as [m [Heq Hm]].
      exists m. split; [exact Hm|]. now apply String.eqb_eq.
  - unfold getGroupMembers. rewrite Hs. split.
    + intros [m [[] _]].
    + intros [[s [Hs' _]] _]. discriminate.
Qed.

End GateFacts.

(** In a well-formed store the two routes that read a group answer 200
    exactly to a caller who is in the membership set and has a user record,
    404 exactly when the group has no record, and 403 otherwise. *)
Theorem group_reads_for_members_only
    (srv : Routes.Server) (session : option string) (me gid : string)
    (userId : option string) :
  Props.wellFormed (Routes.storage srv) ->
  Routes.requireAuth session = Some me ->
  gid <> "" ->
  let st := Routes.storage srv in
  let allowed := Props.memberOf st gid me /\ Storage.getUser st me <> None in
  (Routes.status (ReadRoutes.groupsById session gid srv) = 200 <-> allowed)
  /\ (Routes.status (ReadRoutes.groupsById session gid srv) = 404 <->
      Storage.getGroup st gid = None)
  /\ (Routes.status (ReadRoutes.messagesList session userId (Some gid) srv) = 200 <->
      allowed)
  /\ (Routes.status (ReadRoutes.messagesList session userId (Some gid) srv) = 404 <->
      Storage.getGroup st gid = None)
  /\ (Routes.status (ReadRoutes.groupsById session gid srv) = 200
      \/ Routes.status (ReadRoutes.groupsById session gid srv) = 403
      \/ Routes.status (ReadRoutes.groupsById session gid srv) = 404)
  /\ Routes.status (ReadRoutes.messagesList session userId (Some gid) srv)
     = Routes.status (ReadRoutes.groupsById session gid srv).
Proof.
  intros Hwf Hauth Hgid st allowed.
  assert (Hmsg : ReadRoutes.messagesList session userId (Some gid) srv
                 = match Storage.getGroupWithMembers st gid with
                   | None => Routes.fail 404 "Group not found"
                   | Some group =>
                       if ReadRoutes.isMember group me
                       then Routes.json (Js.Arr (map ReadRoutes.sanitizeMessage
                                                   (Storage.getGroupMessages st gid)))
                       else Routes.fail 403 "Not a member of this group"
                   end).
  { unfold ReadRoutes.messagesList. rewrite Hauth.
    assert (Ht : Js.truthy (Some gid) = true)
      by (simpl; now destruct (String.eqb_spec gid "")).
    rewrite Ht, andb_false_r. reflexivity. }
  rewrite Hmsg. unfold ReadRoutes.groupsById. rewrite Hauth. fold st.
  assert (Hnone : Storage.getGroupWithMembers st gid = None <-> Storage.getGroup st gid = None).
  { unfold Storage.getGroupWithMembers, Storage.getGroup.
    destruct (JsMap.get gid (Storage.groups st)); split; congruence. }
  destruct (Storage.getGroupWithMembers st gid) as [g|] eqn:Hg.
  - pose proof (GateFacts.isMember_spec st gid me g Hwf Hg) as Hspec. fold allowed in Hspec.
    assert (Hsome : Storage.getGroup st gid <> None).
    { intros H. apply Hnone in H. discriminate. }
    destruct (ReadRoutes.isMember g me); cbn.
    + repeat split; auto; try discriminate; try tauto; intros; now apply Hspec.
    + assert (Hno : ~ allowed) by (intros H; apply Hspec in H; discriminate).
      repeat split; auto; try discriminate; try tauto.
  - assert (Hno : ~ allowed).
    { intros [[s [Hs Hin]] _].
      apply (Props.wf_members_group st Hwf gid).
      - apply MapFacts.get_In in Hs. apply in_map_iff. now exists (gid, s).
      - now apply Hnone. }
    cbn. repeat split; auto; try discriminate; try tauto.
Qed.

Lemma group_reads_for_members_only_witness :
  Routes.status (ReadRoutes.messagesList (Some "u4") None (Some "g1") Demo.server) = 403.
Proof.
  destruct (group_reads_for_members_only Demo.server (Some "u4") "u4" "g1" None
              (Invariants.wellFormed_run Demo.trace) eq_refl) as [_ [_ [_ [_ [_ H]]]]].
  - discriminate.
  - rewrite H. reflexivity.
Defined.

Module CleanFacts.
Import Schema Storage Routes ReadRoutes.

Lemma sanitizeUser_clean (u : User) : Js.mentions "passwordHash" (sanitizeUser u) = false.
Proof. reflexivity. Qed.

Lemma fail_clean (code : Z) (msg : string) :
  Js.mentions "passwordHash" (body (fail code msg)) = false.
Proof. reflexivity. Qed.

Lemma list_clean {A : Type} (f : A -> Js.Val) (l : list A) :
  (forall x, In x l -> Js.mentions "passwordHash" (f x) = false) ->
  Js.mentions "passwordHash" (Js.Arr (map f l)) = false.
Proof.
  cbn [Js.mentions]. induction l as [|x l IH]; intros H; [reflexivity|].
  cbn [map existsb]. rewrite (H x) by now left.
  apply IH. intros y Hy. apply H. now right.
Qed.

Lemma messageObj_clean (m : Message) :
  Js.mentions "passwordHash" (Js.Obj (messageObj m)) = false.
Proof. cbn. now rewrite !PayloadFacts.nullable_clean. Qed.

Lemma sanitizeMessage_clean (e : MessageWithUsers) :
  Js.mentions "passwordHash" (sanitizeMessage e) = false.
Proof.
  unfold sanitizeMessage, messageWithUsersObj.
  destruct (recipient e) as [r|], (group e) as [g|];
    cbn -[sanitizeGroup sanitizeUser groupWithMembersObj userObj];
    now rewrite ?PayloadFacts.nullable_clean, ?PayloadFacts.sanitizeGroup_clean,
      ?sanitizeUser_clean.
Qed.

Lemma last_clean (o : option Message) :
  Js.mentions "passwordHash"
    match o with
    | Some m => Js.Obj (messageObj m)
    | None => Js.Null
    end = false.
Proof. destruct o as [m|]; [apply messageObj_clean|reflexivity]. Qed.

Lemma direct_conversation_clean (ou : User) (lm : option Message) (n : nat) :
  Js.mentions "passwordHash"
    (sanitizeConversation (mkConversation direct (Some ou) None lm n)) = false.
Proof.
  unfold sanitizeConversation, conversationObj.
  cbn -[sanitizeUser userObj messageObj]. rewrite (last_clean lm). reflexivity.
Qed.

Lemma group_conversation_clean (g : GroupWithMembers) (lm : option Message) (n : nat) :
  Js.mentions "passwordHash"
    (sanitizeConversation (mkConversation groupConv None (Some g) lm n)) = false.
Proof.
  unfold sanitizeConversation, conversationObj.
  cbn -[sanitizeGroup groupWithMembersObj messageObj].
  now rewrite (last_clean lm), PayloadFacts.sanitizeGroup_clean.
Qed.

End CleanFacts.

(** No answer of a reading route names [passwordHash] at any depth: not the
    caller's own record, a user looked up or searched for, the groups with
    their members, the conversations or the messages. *)
Theorem reads_without_credentials (session : option string) (srv : Routes.Server) :
  Js.mentions "passwordHash" (Routes.body (ReadRoutes.authMe session srv)) = false
  /\ (forall id,
        Js.mentions "passwordHash" (Routes.body (ReadRoutes.usersById session id srv)) = false)
  /\ (forall q,
        Js.mentions "passwordHash" (Routes.body (Routes.usersSearch session q srv)) = false)
  /\ Js.mentions "passwordHash" (Routes.body (ReadRoutes.groupsList session srv)) = false
  /\ (forall id,
        Js.mentions "passwordHash" (Routes.body (ReadRoutes.groupsById session id srv)) = false)
  /\ Js.mentions "passwordHash" (Routes.body (ReadRoutes.conversations session srv)) = false
  /\ (forall u g,
        Js.mentions "passwordHash" (Routes.body (ReadRoutes.messagesList session u g srv))
        = false).
Proof.
  unfold ReadRoutes.authMe, ReadRoutes.usersById, Routes.usersSearch, ReadRoutes.groupsList,
    ReadRoutes.groupsById, ReadRoutes.conversations, ReadRoutes.messagesList.
  destruct (Routes.requireAuth session) as [me|]; [|now repeat split].
  split; [|split; [|split; [|split; [|split; [|split]]]]].
  - now destruct (Storage.getUser (Routes.storage srv) me).
  - intros id. now destruct (Storage.getUser (Routes.storage srv) id).
  - intros [q|]; [destruct (_ || _)|]; apply CleanFacts.list_clean; reflexivity.
  - apply CleanFacts.list_clean. intros g _. apply PayloadFacts.sanitizeGroup_clean.
  - intros id. destruct (Storage.getGroupWithMembers (Routes.storage srv) id) as [g|];
      [|reflexivity].
    destruct (ReadRoutes.isMember g me); [apply PayloadFacts.sanitizeGroup_clean|reflexivity].
  - apply CleanFacts.list_clean. intros c Hc.
    apply LastFacts.conversations_In in Hc. destruct Hc as [Hc|Hc].
    + destruct (LastFacts.direct_made _ _ _ Hc) as [other [ou [_ [_ ->]]]].
      apply CleanFacts.direct_conversation_clean.
    + destruct (LastFacts.group_made _ _ _ Hc) as [g [_ ->]].
      apply CleanFacts.group_conversation_clean.
  - intros u g. destruct (negb (Js.truthy u) && negb (Js.truthy g)); [reflexivity|].
    destruct (Js.truthy g).
    + destruct g as [gid|]; [|reflexivity].
      destruct (Storage.getGroupWithMembers (Routes.storage srv) gid) as [grp|];
        [|reflexivity].
      destruct (ReadRoutes.isMember grp me); [|reflexivity].
      apply CleanFacts.list_clean. intros e _. apply CleanFacts.sanitizeMessage_clean.
    + destruct u as [uid|]; [|reflexivity].
      apply CleanFacts.list_clean. intros e _. apply CleanFacts.sanitizeMessage_clean.
Qed.

(** Nor does an answer of signup, of login or of group creation. *)
Theorem writes_without_credentials (srv : Routes.Server) :
  (forall b uuid hash,
      Js.mentions "passwordHash" (Routes.body (snd (Routes.signup b uuid hash srv))) = false)
  /\ (forall compare b,
        Js.mentions "passwordHash" (Routes.body (fst (Auth.login compare b srv))) = false)
  /\ (forall session b uuid now,
        Js.mentions "passwordHash"
          (Routes.body (snd (Routes.postGroups session b uuid now srv))) = false).
Proof.
  split; [|split].
  - intros b uuid hash. unfold Routes.signup.
    destruct (Schema.insertUserSchema b); [|reflexivity].
    now destruct (Storage.getUserByUsername _ _).
  - intros compare b. unfold Auth.login.
    destruct (Auth.loginSchema b); [|reflexivity].
    now destruct (Auth.verifyPassword _ _ _ _).
  - intros session b uuid now. unfold Routes.postGroups.
    destruct (Routes.requireAuth session); [|reflexivity].
    destruct (Schema.insertGroupSchema b); [|reflexivity].
    cbn [Storage.createGroup fst snd].
    destruct (Storage.getGroupWithMembers _ _); [|reflexivity].
    apply PayloadFacts.sanitizeGroup_clean.
Qed.

(** What the sanitizing is for: an entry as the store returns it names the
    hash of its sender. *)
Example stored_entry_has_credentials (e : Schema.MessageWithUsers) :
  Js.mentions "passwordHash" (Js.Obj (ReadRoutes.messageWithUsersObj e)) = true.
Proof.
  unfold ReadRoutes.messageWithUsersObj.
  destruct (Schema.recipient e), (Schema.group e);
    cbn -[Routes.groupWithMembersObj]; now rewrite ?PayloadFacts.nullable_clean, ?orb_true_r.
Qed.

(* ================================================================== *)
(** ** Search, once more *)

(** A longer query of ASCII characters finds no more: every user found
    with it is found with each run of it.  The case of the letters of an
    ASCII query does not matter. *)
Theorem search_narrows_and_ignores_case
    (st : Storage.MemStorage) (q pre suf q' : string) :
  (Props.isAscii (pre ++ q ++ suf) ->
   forall u, In u (Storage.searchUsers st (pre ++ q ++ suf)) ->
             In u (Storage.searchUsers st q))
  /\ (Props.isAscii q -> Props.sameLetters q q' ->
      Storage.searchUsers st q = Storage.searchUsers st q').
Proof.
  split.
  - intros Hall. pose proof Hall as Hparts.
    apply StringFacts.isAscii_app in Hparts. destruct Hparts as [_ Hparts].
    apply StringFacts.isAscii_app in Hparts. destruct Hparts as [Hq _].
    unfold Storage.searchUsers. intros u Hu. apply filter_In in Hu.
    destruct Hu as [Hin Hinc]. apply filter_In. split; [exact Hin|].
    rewrite (StringFacts.toLowerCase_ascii _ Hall) in Hinc.
    rewrite (StringFacts.toLowerCase_ascii _ Hq).
    apply StringFacts.includes_spec in Hinc. destruct Hinc as [a [b Hab]].
    apply StringFacts.includes_spec.
    exists (a ++ Js.lowerAscii pre), (Js.lowerAscii suf ++ b).
    rewrite Hab, !StringFacts.lowerAscii_app, !StringFacts.app_assoc. reflexivity.
  - intros Hq Hsame. pose proof (StringFacts.sameLetters_ascii _ _ Hsame Hq) as Hq'.
    apply StringFacts.lowerAscii_same in Hsame.
    unfold Storage.searchUsers.
    now rewrite (StringFacts.toLowerCase_ascii _ Hq), (StringFacts.toLowerCase_ascii _ Hq'),
      Hsame.
Qed.

Lemma search_narrows_and_ignores_case_witness :
  Storage.searchUsers Demo.store "ALi" = Storage.searchUsers Demo.store "ali".
Proof.
  destruct (search_narrows_and_ignores_case Demo.store "ALi" "" "" "ali") as [_ H].
  apply H.
  - cbn. repeat split; reflexivity.
  - apply Props.sameLetters_cons; [right; left; split; [cbn; lia|reflexivity]|].
    apply Props.sameLetters_cons; [right; left; split; [cbn; lia|reflexivity]|].
    apply Props.sameLetters_cons; [now left|]. apply Props.sameLetters_nil.
Defined.

(* ================================================================== *)
(** ** The client's forms *)

(** The create-group dialog calls the server only with the name as typed
    less the white space at its two ends, white space of any length in bytes
    included; the name it sends is not blank and has white space at neither
    end, the selection it sends is not empty, and what it sends passes the
    server's schema.  A blank name is refused with "Please enter a group
    name", whatever is selected. *)
Theorem dialog_submits_valid_groups (groupName : string) (selected : JsSet.t) :
  (forall b, Client.handleSubmit groupName selected = Client.Sent b ->
             Schema.insertGroupSchema b = Schema.Success b
             /\ (exists l1 l2,
                   Forall (fun n => In n Props.whiteSpace) l1
                   /\ Forall (fun n => In n Props.whiteSpace) l2
                   /\ groupName = Props.utf8 l1 ++ Schema.ig_name b ++ Props.utf8 l2)
             /\ Props.trimmed (Schema.ig_name b)
             /\ ~ Props.Blank (Schema.ig_name b)
             /\ Schema.ig_memberIds b = selected
             /\ selected <> [])
  /\ (Props.Blank groupName ->
      Client.handleSubmit groupName selected = Client.Refused "Please enter a group name").
Proof.
  unfold Client.handleSubmit. split.
  - intros b. destruct (String.eqb_spec (Js.trim groupName) "") as [He|Hne]; [discriminate|].
    destruct selected as [|x xs]; [discriminate|].
    cbn [List.length Nat.eqb]. intros [= <-]. cbn [Schema.ig_name Schema.ig_memberIds].
    destruct (StringFacts.trim_spec groupName) as [l1 [l2 [H1 [H2 [Heq Htrimmed]]]]].
    split; [reflexivity|]. split; [now exists l1, l2|]. split; [exact Htrimmed|].
    split; [|split; [reflexivity|discriminate]].
    intros Hb. apply StringFacts.trim_empty in Hb.
    rewrite StringFacts.trim_idem in Hb. contradiction.
  - intros Hb. apply StringFacts.trim_empty in Hb. now rewrite Hb.
Qed.

Lemma dialog_submits_valid_groups_witness :
  Client.handleSubmit (Props.utf8 [0x20; 0xA0; 0x3000; 0xA]%N) ["u2"]
  = Client.Refused "Please enter a group name".
Proof.
  destruct (dialog_submits_valid_groups (Props.utf8 [0x20; 0xA0; 0x3000; 0xA]%N) ["u2"])
    as [_ H].
  apply H. exists [0x20; 0xA0; 0x3000; 0xA]%N. split; [|reflexivity].
  repeat (constructor; [unfold Props.whiteSpace; repeat (first [now left | right])|]).
  constructor.
Defined.

(** Toggling a user in the dialog flips that user's selection and no
    other, and keeps the selection free of duplicates. *)
Theorem toggle_flips_one (x : string) (selected : JsSet.t) :
  (forall y, In y (Client.handleToggleUser x selected) <->
             (y <> x /\ In y selected) \/ (y = x /\ ~ In x selected))
  /\ (NoDup selected -> NoDup (Client.handleToggleUser x selected)).
Proof.
  unfold Client.handleToggleUser. destruct (JsSet.has x selected) eqn:Hx.
  - apply MapFacts.has_In in Hx. split.
    + intros y. rewrite SetFacts.delete_In. tauto.
    + intros H. now apply NoDup_filter.
  - assert (Hn : ~ In x selected).
    { intros H. apply MapFacts.has_In in H. congruence. }
    split.
    + intros y. rewrite MapFacts.add_In.
      destruct (String.eqb_spec y x) as [->|Hne]; tauto.
    + intros H. unfold JsSet.add. rewrite Hx.
      apply NoDup_app; [exact H|repeat constructor; intros []|].
      intros z Hz [<-|[]]. contradiction.
Qed.

Lemma toggle_flips_one_witness :
  NoDup (Client.handleToggleUser "u2" ["u2"; "u3"]).
Proof.
  destruct (toggle_flips_one "u2" ["u2"; "u3"]) as [_ H]. apply H.
  repeat constructor; simpl; intuition discriminate.
Defined.

(** The chat page posts only while nothing is being sent, only the input
    less the white space at its two ends, white space of any length in bytes
    included, only when that is not blank, and only bodies with exactly the
    recipient or the group set: what it sends passes the refinement of the
    server's schema. *)
Theorem chat_sends_well_addressed
    (selectedId : option string) (selectedType : option Schema.ConversationType)
    (messageInput : string) (isSending : bool) (b : Schema.InsertMessage) :
  Client.handleSendMessage selectedId selectedType messageInput isSending = Some b ->
  Schema.insertMessageSchema b = Schema.Success b
  /\ isSending = false
  /\ (exists l1 l2,
        Forall (fun n => In n Props.whiteSpace) l1
        /\ Forall (fun n => In n Props.whiteSpace) l2
        /\ messageInput = Props.utf8 l1 ++ Schema.im_content b ++ Props.utf8 l2)
  /\ Props.trimmed (Schema.im_content b)
  /\ ~ Props.Blank (Schema.im_content b)
  /\ ((selectedType = Some Schema.direct
       /\ Schema.im_recipientId b = selectedId /\ Schema.im_groupId b = None)
      \/ (selectedType = Some Schema.groupConv
          /\ Schema.im_groupId b = selectedId /\ Schema.im_recipientId b = None)).
Proof.
  unfold Client.handleSendMessage, Client.onSendMessage.
  destruct (String.eqb_spec (Js.trim messageInput) "") as [He|Hne]; [discriminate|].
  destruct isSending; [discriminate|]. cbn [orb].
  destruct (StringFacts.trim_spec messageInput) as [l1 [l2 [H1 [H2 [Heq Htrimmed]]]]].
  assert (Hnb : ~ Props.Blank (Js.trim messageInput)).
  { intros Hb. apply StringFacts.trim_empty in Hb.
    rewrite StringFacts.trim_idem in Hb. contradiction. }
  destruct selectedType as [[|]|]; [| |discriminate];
    (destruct (Js.truthy selectedId) eqn:Ht; [|discriminate]);
    intros [= <-]; unfold Schema.insertMessageSchema; cbn; rewrite Ht; cbn;
    (split; [reflexivity|]); (split; [reflexivity|]);
    (split; [now exists l1, l2|]); (split; [exact Htrimmed|]);
    (split; [exact Hnb|]); [left|right]; now repeat split.
Qed.

Lemma chat_sends_well_addressed_witness :
  Schema.insertMessageSchema (Schema.mkInsertMessage (Some "u4") None "hi there")
  = Schema.Success (Schema.mkInsertMessage (Some "u4") None "hi there").
Proof.
  destruct (chat_sends_well_addressed (Some "u4") (Some Schema.direct)
              (Props.utf8 [0xA0; 0x20]%N ++ "hi there" ++ Props.utf8 [0x2028]%N) false
              (Schema.mkInsertMessage (Some "u4") None "hi there")) as [H _];
    [reflexivity|exact H].
Defined.

(* ================================================================== *)
(** ** What the sockets receive *)

Module FrameFacts.
Import Schema Storage Routes Props MoreProps.

Lemma enriched_clean (st : MemStorage) (message : Message) (payload : Js.Fields) :
  enriched st message payload -> Js.mentions "passwordHash" (Js.Obj payload) = false.
Proof.
  intros [sender recipient _ _ _|sender gid group _ _ _ _|sender _ _ _].
  - cbn -[sanitizeUser]. now rewrite !PayloadFacts.nullable_clean.
  - cbn -[sanitizeGroup].
    now rewrite !PayloadFacts.nullable_clean, PayloadFacts.sanitizeGroup_clean.
  - cbn. now rewrite !PayloadFacts.nullable_clean.
Qed.

Lemma broadcast_clean (v : Js.Val) (cs : list WebSocket) :
  Js.mentions "passwordHash" v = false -> cleanSockets cs -> cleanSockets (broadcast v cs).
Proof.
  intros Hv Hcs c frame Hc Hf. unfold broadcast in Hc. apply in_map_iff in Hc.
  destruct Hc as [c0 [<- Hc0]].
  destruct (isOpen (readyState c0)); [|now apply (Hcs c0)].
  cbn in Hf. apply in_app_iff in Hf. destruct Hf as [Hf|[<-|[]]]; [|exact Hv].
  now apply (Hcs c0).
Qed.

Lemma step_clean (srv : Server) (e : Event) :
  cleanSockets (clients srv) -> cleanSockets (clients (step srv e)).
Proof.
  intros H. destruct e as [b uuid hash|s b uuid now|s b uuid now|g u|g u|id|id|id];
    cbn [step clients]; try exact H.
  - now destruct (RouteFacts.signup_storage b uuid hash srv) as [->|[_ ->]].
  - now destruct (RouteFacts.postGroups_storage s b uuid now srv) as [->|[uid ->]].
  - destruct (OutcomeFacts.postMessages_cases s b uuid now srv)
      as [[_ Hr]|[[msg [_ Hr]]|[[uid [msg [_ [_ Hr]]]]|[uid [payload [_ [_ Hr]]]]]]];
      cbn zeta in Hr; try (rewrite Hr; exact H).
    assert (Hok : status (snd (postMessages s b uuid now srv)) = 200) by now rewrite Hr.
    destruct (PayloadFacts.postMessages_ok s b uuid now srv Hok)
      as [uid' [payload' [_ [_ [Hen ->]]]]].
    cbn [fst clients]. apply broadcast_clean; [|exact H].
    now apply (enriched_clean _ _ _ Hen).
  - intros c frame Hc Hf. apply in_app_iff in Hc. destruct Hc as [Hc|[<-|[]]].
    + now apply (H c).
    + destruct Hf.
  - intros c frame Hc Hf. unfold setReadyState in Hc. apply in_map_iff in Hc.
    destruct Hc as [c0 [<- Hc0]]. destruct (ws_id c0 =? id)%nat; now apply (H c0).
  - intros c frame Hc Hf. apply filter_In in Hc. now apply (H c).
Qed.

End FrameFacts.

(** After every trace of the server, no frame that any socket of the live
    set was sent names [passwordHash] at any depth. *)
Theorem sockets_never_receive_credentials
    (trace : list Routes.Event) (c : Routes.WebSocket) (frame : Js.Val) :
  In c (Routes.clients (Routes.run trace Routes.start)) ->
  In frame (Routes.sent c) ->
  Js.mentions "passwordHash" frame = false.
Proof.
  revert c frame.
  apply (RouteFacts.run_invariant (fun srv => MoreProps.cleanSockets (Routes.clients srv))).
  - apply FrameFacts.step_clean.
  - intros c frame [].
Qed.

Lemma sockets_never_receive_credentials_witness :
  match Routes.clients Demo.server with
  | c :: _ =>
      forallb (fun frame => negb (Js.mentions "passwordHash" frame)) (Routes.sent c) = true
  | [] => False
  end.
Proof.
  destruct (Routes.clients Demo.server) as [|c l] eqn:Hc;
    [vm_compute in Hc; discriminate|].
  apply forallb_forall. intros frame Hf. apply negb_true_iff.
  apply (sockets_never_receive_credentials Demo.trace c frame); [|exact Hf].
  fold Demo.server. rewrite Hc. now left.
Defined.

Lemma groupMessages_ordered_witness :
  match Storage.getGroupMessages Demo.store "g1" with
  | e :: _ => Schema.groupId (Schema.mwu_message e) = Some "g1"
  | [] => False
  end.
Proof.
  destruct (groupMessages_ordered Demo.store "g1") as [H _].
  destruct (Storage.getGroupMessages Demo.store "g1") as [|e l] eqn:He;
    [vm_compute in He; discriminate|].
  now destruct (H e (or_introl eq_refl)) as [_ [Hg _]].
Defined.
